(** * Soma-workflow: client object model and job scheduler front end

    A shallow embedding of

    - [python/soma_workflow/client_types.py]: jobs, barrier jobs, groups,
      workflows, the conversion of group dependencies into barrier hubs, the
      special paths (file transfers, shared resource paths, temporary paths,
      option paths) and the dictionary serialisation of workflows;
    - [python/soma/jobs/jobScheduler.py]: the [JobScheduler] front end, which
      checks ownership with the job server before it delegates to the DRMAA
      scheduler.

    Python objects are compared and hashed by identity unless their class says
    otherwise, so every modelled object carries the identity ([oid]) that the
    constructor receives as [self]. *)

From Stdlib Require Import ZArith String Ascii List Bool Lia.
From stdpp Require Import base option list gmap strings pretty.
Import ListNotations.

Set Warnings "-register-all".
Local Open Scope string_scope.
Local Open Scope list_scope.
Local Open Scope Z_scope.

(** ** Exceptions and outcomes *)

Inductive Exn : Type :=
| TypeError
| AttributeError
| IndexError
| ValueError
| KeyError
| RuntimeError
| IOError
| JobSchedulerError
| PyException (msg : string).

(** The result of running a piece of Python code: a value, a raised exception,
    or the exhaustion of the bound that the model puts on a [while] loop. *)
Inductive Outcome (A : Type) : Type :=
| Return (a : A)
| Raise (e : Exn)
| OutOfFuel.

Arguments Return {A} a.
Arguments Raise {A} e.
Arguments OutOfFuel {A}.

Global Instance Outcome_ret : MRet Outcome := fun A a => Return a.

Global Instance Outcome_bind : MBind Outcome := fun A B f m =>
  match m with
  | Return a => f a
  | Raise e => Raise e
  | OutOfFuel => OutOfFuel
  end.

(** ** Strings *)

(** [s[:-1]] *)
Fixpoint drop_last (s : string) : string :=
  match s with
  | EmptyString => EmptyString
  | String c EmptyString => EmptyString
  | String c r => String c (drop_last r)
  end.

(** [pattern % arg] for a single string argument.  [arg] is [Some a] while the
    argument is still to be consumed.  [None] is the error Python raises when
    the pattern consumes no argument, more than one, or ends in a lone percent
    sign; conversions other than [%s] and [%%] are also answered [None]. *)
Fixpoint py_format_from (pattern : string) (arg : option string) : option string :=
  match pattern with
  | EmptyString =>
      match arg with
      | None => Some EmptyString
      | Some _ => None
      end
  | String "%" (String "s" r) =>
      match arg with
      | Some a => option_map (String.append a) (py_format_from r None)
      | None => None
      end
  | String "%" (String "%" r) => option_map (String "%") (py_format_from r arg)
  | String "%" _ => None
  | String c r => option_map (String c) (py_format_from r arg)
  end.

Definition py_format (pattern arg : string) : option string :=
  py_format_from pattern (Some arg).

(** ** Special paths *)

(** Modelled from the spec: the transfer status constants of
    [soma_workflow.constants], a module that is not among the sources.  The
    source names two of them, [constants.FILES_DO_NOT_EXIST] and
    [constants.FILES_ON_CLIENT]; the spec lists the five statuses
    DOES_NOT_EXIST, ON_CLIENT, TRANSFERRING, ON_COMPUTE and
    READY_TO_TRANSFER_BACK. *)
Inductive TransferStatus : Type :=
| FILES_DO_NOT_EXIST
| FILES_ON_CLIENT
| TRANSFERRING
| ON_COMPUTE
| READY_TO_TRANSFER_BACK.

(** What [SpecialPath.__init__] sets on every special path: the identity of
    the object, its [pattern] and its [ref].  [ref] is [None] when the object
    is its own referent; of another referent the model keeps the identity and
    the pattern. *)
Record PathHead : Type := mkPathHead {
  oid : nat;
  ref : option (nat * string);
  pattern : string
}.

(** A [FileTransfer] object; the attributes are the ones its properties read
    through [referent()]. *)
Record FileTransferObj : Type := mkFileTransfer {
  ft_head : PathHead;
  client_path : string;
  client_paths : option (list string);
  initial_status : TransferStatus;
  ft_disposal_timeout : Z;
  ft_name : string
}.

(** A [SharedResourcePath] object. *)
Record SharedResourcePathObj : Type := mkSharedResourcePath {
  srp_head : PathHead;
  relative_path : string;
  namespace : string;
  uuid : string;
  srp_disposal_timeout : option Z
}.

(** A [TemporaryPath] object. *)
Record TemporaryPathObj : Type := mkTemporaryPath {
  tmp_head : PathHead;
  is_directory : bool;
  tmp_disposal_timeout : Z;
  tmp_name : string;
  suffix : string
}.

(** An [OptionPath] object, whose parent path is a string or a special path,
    and the special paths. *)
Inductive OptionPathObj : Type :=
| mkOptionPath (h : PathHead) (parent_path : ParentPath)
    (parent_type uri name : string)
with ParentPath : Type :=
| ParentStr (s : string)
| ParentSpecial (p : SpecialPath)
with SpecialPath : Type :=
| FileTransfer (o : FileTransferObj)
| SharedResourcePath (o : SharedResourcePathObj)
| TemporaryPath (o : TemporaryPathObj)
| OptionPath (o : OptionPathObj).

Definition opt_head (o : OptionPathObj) : PathHead :=
  match o with mkOptionPath h _ _ _ _ => h end.
Definition parent_path (o : OptionPathObj) : ParentPath :=
  match o with mkOptionPath _ p _ _ _ => p end.
Definition parent_type (o : OptionPathObj) : string :=
  match o with mkOptionPath _ _ t _ _ => t end.
Definition uri (o : OptionPathObj) : string :=
  match o with mkOptionPath _ _ _ u _ => u end.
Definition opt_name (o : OptionPathObj) : string :=
  match o with mkOptionPath _ _ _ _ n => n end.

Definition head (p : SpecialPath) : PathHead :=
  match p with
  | FileTransfer o => ft_head o
  | SharedResourcePath o => srp_head o
  | TemporaryPath o => tmp_head o
  | OptionPath o => opt_head o
  end.

(** [type(p).__name__] *)
Definition class_name (p : SpecialPath) : string :=
  match p with
  | FileTransfer _ => "FileTransfer"
  | SharedResourcePath _ => "SharedResourcePath"
  | TemporaryPath _ => "TemporaryPath"
  | OptionPath _ => "OptionPath"
  end.

(** [SpecialPath.referent]: [self.ref if self.ref else self], as an identity. *)
Definition head_referent (h : PathHead) : nat :=
  match ref h with
  | Some r => fst r
  | None => oid h
  end.

(** [self.referent().pattern] *)
Definition head_referent_pattern (h : PathHead) : string :=
  match ref h with
  | Some r => snd r
  | None => pattern h
  end.

Definition referent (p : SpecialPath) : nat := head_referent (head p).

(** [SpecialPath.__init__(self, path)] when [path] is an instance of the class
    of [self] (the copy constructors): the new object takes the pattern of
    [path] and refers to its referent, through which all its properties are
    read. *)
Definition copy_head (self : nat) (path : PathHead) : PathHead :=
  {| oid := self; ref := Some (head_referent path, head_referent_pattern path);
     pattern := pattern path |}.

(** [SpecialPath.__init__(self)] without a path to copy. *)
Definition fresh_head (self : nat) : PathHead :=
  {| oid := self; ref := None; pattern := "%s" |}.

(** Python values found where a special path may stand: in a command, in the
    lists of referenced files, in the stdio and working directory attributes
    of a job, and in their serialised forms. *)
Inductive PyVal : Type :=
| VNone
| VBool (b : bool)
| VInt (n : Z)
| VStr (s : string)
| VPath (p : SpecialPath)
| VTuple (l : list PyVal)
| VList (l : list PyVal).

(** Truth value of a Python object. *)
Definition truthy (v : PyVal) : bool :=
  match v with
  | VNone => false
  | VBool b => b
  | VInt n => negb (n =? 0)
  | VStr s => negb (String.eqb s "")
  | VPath _ => true
  | VTuple l => negb (Nat.eqb (length l) 0)
  | VList l => negb (Nat.eqb (length l) 0)
  end.

(** *** FileTransfer *)

(** The copy constructor [FileTransfer(other)]. *)
Definition FileTransfer_copy (self : nat) (other : FileTransferObj)
  : FileTransferObj :=
  {| ft_head := copy_head self (ft_head other);
     client_path := client_path other;
     client_paths := client_paths other;
     initial_status := initial_status other;
     ft_disposal_timeout := ft_disposal_timeout other;
     ft_name := ft_name other |}.

(** [FileTransfer.__init__]. *)
Definition FileTransfer_init (self : nat) (is_input : PyVal)
    (client_path : option string) (disposal_timeout : Z)
    (name : option string) (client_paths : option (list string))
  : Outcome FileTransferObj :=
  match is_input with
  | VPath (FileTransfer other) =>
      if bool_decide (client_path <> None) || bool_decide (name <> None)
         || bool_decide (client_paths <> None)
      then Raise TypeError
      else Return (FileTransfer_copy self other)
  | _ =>
      match client_path with
      | None => Raise TypeError
      | Some cp =>
          let ft_name :=
            match name with
            | Some n => if String.eqb n "" then cp +:+ "transfer" else n
            | None => cp +:+ "transfer"
            end in
          Return {| ft_head := fresh_head self;
                    client_path := cp;
                    client_paths := client_paths;
                    initial_status :=
                      if truthy is_input then FILES_ON_CLIENT
                      else FILES_DO_NOT_EXIST;
                    ft_disposal_timeout := disposal_timeout;
                    ft_name := ft_name |}
      end
  end.

(** *** SharedResourcePath *)

(** [SharedResourcePath.__init__] for a [relative_path] that is not itself a
    shared resource path (that call is the copy constructor, which sets the
    head [copy_head]).  The constructor stores its [disposal_timeout]
    argument under the name [disposal_timout], so the [disposal_timeout]
    property keeps the class default [None]. *)
Definition SharedResourcePath_init (self : nat) (relative_path : string)
    (namespace uuid : option string) (disposal_timeout : Z)
  : Outcome SharedResourcePathObj :=
  match namespace, uuid with
  | Some ns, Some u =>
      Return {| srp_head := fresh_head self; relative_path := relative_path;
                namespace := ns; uuid := u; srp_disposal_timeout := None |}
  | _, _ => Raise TypeError
  end.

(** *** TemporaryPath *)

(** [TemporaryPath.__init__] for an [is_directory] flag (with a temporary
    path in its place the call is the copy constructor). *)
Definition TemporaryPath_init (self : nat) (is_directory : bool)
    (disposal_timeout : Z) (name : option string) (suffix : string)
  : TemporaryPathObj :=
  {| tmp_head := fresh_head self; is_directory := is_directory;
     tmp_disposal_timeout := disposal_timeout;
     tmp_name := default "temporary" name; suffix := suffix |}.

(** *** OptionPath *)

(** The [uri] argument of [OptionPath.__init__]: [None] (the default), a
    string, or a dictionary from option names to values, whose items come in
    the order the dictionary yields them. *)
Inductive UriArg : Type :=
| UriNone
| UriStr (s : string)
| UriDict (items : list (string * string)).

(** The [parent_path] argument of [OptionPath.__init__]. *)
Inductive ParentArg : Type :=
| ArgNone
| ArgStr (s : string)
| ArgSpecial (p : SpecialPath).

(** The conversion of a dictionary URI:
    [build_uri = '?'; for key, value in iteritems(uri): build_uri +=
    str(key) + '=' + str(value) + '&'; build_uri = build_uri[:-1]]. *)
Definition build_uri (items : list (string * string)) : string :=
  drop_last
    (fold_left (fun acc kv => acc +:+ fst kv +:+ "=" +:+ snd kv +:+ "&")
       items "?").

(** The copy constructor [OptionPath(other)]. *)
Definition OptionPath_copy (self : nat) (other : OptionPathObj)
  : OptionPathObj :=
  mkOptionPath (copy_head self (opt_head other)) (parent_path other)
    (parent_type other) (uri other) (opt_name other).

(** [OptionPath.__init__]. *)
Definition OptionPath_init (self : nat) (parent_path : ParentArg)
    (uri : UriArg) (name : option string) : Outcome OptionPathObj :=
  match parent_path with
  | ArgSpecial (OptionPath other) =>
      match uri with
      | UriNone =>
          Return (OptionPath_copy self other)
      | _ => Raise TypeError
      end
  | _ =>
      let _parent_path :=
        match parent_path with
        | ArgSpecial p => ParentSpecial p
        | ArgStr s => ParentStr s
        | ArgNone => ParentStr "None"
        end in
      let _parent_type :=
        match _parent_path with
        | ParentSpecial p => class_name p
        | ParentStr _ => "str"
        end in
      let _uri :=
        match uri with
        | UriDict items => build_uri items
        | UriStr s => if String.eqb s "" then "" else s
        | UriNone => "None"
        end in
      let _name := default ("parent_path" +:+ _uri) name in
      Return (mkOptionPath (fresh_head self) _parent_path _parent_type _uri _name)
  end.

(** [__str__] of the four classes. *)
Fixpoint SpecialPath_str (p : SpecialPath) : option string :=
  match p with
  | FileTransfer o => py_format (pattern (ft_head o)) (client_path o)
  | SharedResourcePath o =>
      py_format (pattern (srp_head o))
        (namespace o +:+ ":" +:+ uuid o +:+ ":" +:+ relative_path o)
  | TemporaryPath o => py_format (pattern (tmp_head o)) (tmp_name o)
  | OptionPath (mkOptionPath h parent_path _ uri _) =>
      match parent_path with
      | ParentStr s => py_format (pattern h) (s +:+ uri)
      | ParentSpecial q =>
          match SpecialPath_str q with
          | Some s => py_format (pattern h) (s +:+ uri)
          | None => None
          end
      end
  end.

(** ** Jobs *)

(** A job object.  [is_BarrierJob] tells the class of the object ([Job] or its
    subclass [BarrierJob]). *)
Record Job : Type := mkJob {
  job_oid : nat;
  is_BarrierJob : bool;
  command : list PyVal;
  job_name : PyVal;
  referenced_input_files : list PyVal;
  referenced_output_files : list PyVal;
  stdin : PyVal;
  join_stderrout : bool;
  job_disposal_timeout : Z;
  stdout_file : PyVal;
  stderr_file : PyVal;
  working_directory : PyVal;
  parallel_job_info : option (string * Z);
  priority : Z;
  native_specification : option string
}.

(** [x if x else []] for the lists of referenced files. *)
Definition or_empty (l : option (list PyVal)) : list PyVal :=
  match l with
  | Some (x :: r) => x :: r
  | _ => []
  end.

(** [Job.__init__].  The closing loop over the command only emits a warning
    for the elements that contain a single quote; [user_storage] is not
    stored. *)
Definition Job_init (barrier : bool) (self : nat) (command : list PyVal)
    (referenced_input_files referenced_output_files : option (list PyVal))
    (stdin : PyVal) (join_stderrout : bool) (disposal_timeout : Z)
    (name : PyVal) (stdout_file stderr_file working_directory : PyVal)
    (parallel_job_info : option (string * Z)) (priority : Z)
    (native_specification : option string) : Job :=
  {| job_oid := self;
     is_BarrierJob := barrier;
     job_name :=
       if negb (truthy name) && negb (Nat.eqb (length command) 0)
       then nth 0 command VNone
       else name;
     command := command;
     referenced_input_files := or_empty referenced_input_files;
     referenced_output_files := or_empty referenced_output_files;
     stdin := stdin;
     join_stderrout := join_stderrout;
     job_disposal_timeout := disposal_timeout;
     stdout_file := stdout_file;
     stderr_file := stderr_file;
     working_directory := working_directory;
     parallel_job_info := parallel_job_info;
     priority := priority;
     native_specification := native_specification |}.

(** [BarrierJob.__init__]: the [Job] constructor with an empty command and the
    defaults of the remaining parameters. *)
Definition BarrierJob_init (self : nat)
    (referenced_input_files referenced_output_files : option (list PyVal))
    (name : PyVal) : Job :=
  Job_init true self [] referenced_input_files referenced_output_files
    VNone false 168 name VNone VNone VNone None 0 None.

(** ** Groups *)

Inductive Group : Type :=
| mkGroup (group_oid : nat) (group_name : string) (elements : list Element)
with Element : Type :=
| EJob (j : Job)
| EGroup (g : Group).

Definition group_oid (g : Group) : nat :=
  match g with mkGroup o _ _ => o end.
Definition group_name (g : Group) : string :=
  match g with mkGroup _ n _ => n end.
Definition elements (g : Group) : list Element :=
  match g with mkGroup _ _ els => els end.

(** [Group.__init__] *)
Definition Group_init (self : nat) (elements : list Element) (name : string)
  : Group := mkGroup self name elements.

(** [isinstance(element, Group)] *)
Definition is_Group (e : Element) : bool :=
  match e with EGroup _ => true | EJob _ => false end.

(** [[element for element in elements if isinstance(element, Group)]] *)
Fixpoint sub_groups (els : list Element) : list Group :=
  match els with
  | [] => []
  | EGroup g :: r => g :: sub_groups r
  | EJob _ :: r => sub_groups r
  end.

(** The identity of a job or group. *)
Definition elem_oid (e : Element) : nat :=
  match e with
  | EJob j => job_oid j
  | EGroup g => group_oid g
  end.

(** The number of group nodes under a group, itself included: the bound on
    the traversals of a group hierarchy. *)
Fixpoint group_count (g : Group) : nat :=
  match g with
  | mkGroup _ _ els =>
      S ((fix count (l : list Element) : nat :=
            match l with
            | [] => 0
            | EJob _ :: r => count r
            | EGroup s :: r => group_count s + count r
            end) els)
  end%nat.

Definition groups_count (l : list Group) : nat :=
  fold_right (fun g n => (group_count g + n)%nat) 0%nat l.

(** ** Workflows *)

Definition Dependency : Type := Element * Element.

Record Workflow : Type := mkWorkflow {
  wf_name : option string;
  jobs : list Job;
  dependencies : list Dependency;
  root_group : list Element;
  groups : list Group;
  wf_disposal_timeout : Z
}.

Definition set_jobs (js : list Job) (w : Workflow) : Workflow :=
  {| wf_name := wf_name w; jobs := js; dependencies := dependencies w;
     root_group := root_group w; groups := groups w;
     wf_disposal_timeout := wf_disposal_timeout w |}.

Definition set_dependencies (ds : list Dependency) (w : Workflow) : Workflow :=
  {| wf_name := wf_name w; jobs := jobs w; dependencies := ds;
     root_group := root_group w; groups := groups w;
     wf_disposal_timeout := wf_disposal_timeout w |}.

Definition set_root_group (rg : list Element) (w : Workflow) : Workflow :=
  {| wf_name := wf_name w; jobs := jobs w; dependencies := dependencies w;
     root_group := rg; groups := groups w;
     wf_disposal_timeout := wf_disposal_timeout w |}.

(** *** Conversion of the group dependencies *)

(** The pair [(input hub, output hub)] of a group. *)
Definition Hubs : Type := Job * Job.

(** What the conversion works on: the workflow [self], the local dictionary
    [group_to_hub] (keyed by the identity of the groups, in insertion order)
    and the identity the next allocated object receives. *)
Record Conv : Type := mkConv {
  cv_self : Workflow;
  group_to_hub : list (Group * Hubs);
  next_oid : nat
}.

(** [group_to_hub.get(group, None)] *)
Fixpoint hub_get (group : Group) (d : list (Group * Hubs)) : option Hubs :=
  match d with
  | [] => None
  | (k, v) :: r =>
      if Nat.eqb (group_oid k) (group_oid group) then Some v
      else hub_get group r
  end.

(** [Workflow.__group_hubs], for a [jobs] attribute that is a list. *)
Definition group_hubs (group : Group) (cv : Conv) : Hubs * Conv :=
  match hub_get group (group_to_hub cv) with
  | Some ghubs => (ghubs, cv)
  | None =>
      let ghubs :=
        (BarrierJob_init (next_oid cv) None None
           (VStr (group_name group +:+ "_input")),
         BarrierJob_init (S (next_oid cv)) None None
           (VStr (group_name group +:+ "_output"))) in
      (ghubs,
       {| cv_self :=
            set_jobs (jobs (cv_self cv) ++ [fst ghubs; snd ghubs]) (cv_self cv);
          group_to_hub := group_to_hub cv ++ [(group, ghubs)];
          next_oid := S (S (next_oid cv)) |})
  end.

(** The [while groups:] loop of [Workflow.__group_hubs_recurs]. *)
Fixpoint group_hubs_loop (fuel : nat) (groups : list Group)
    (ghubs : option Hubs) (cv : Conv) : Outcome (option Hubs * Conv) :=
  match groups with
  | [] => Return (ghubs, cv)
  | group :: rest =>
      match fuel with
      | O => OutOfFuel
      | S fuel' =>
          let (ghubs_tmp, cv') := group_hubs group cv in
          let ghubs' :=
            match ghubs with
            | None => Some ghubs_tmp
            | Some _ => ghubs
            end in
          group_hubs_loop fuel' (rest ++ sub_groups (elements group)) ghubs' cv'
      end
  end.

(** [Workflow.__group_hubs_recurs].  The loop runs at least once, so that
    [ghubs] is a pair when it ends; on [None] the caller, which takes an item
    of the result, would fail. *)
Definition group_hubs_recurs (group : Group) (cv : Conv)
  : Outcome (Hubs * Conv) :=
  r ← group_hubs_loop (group_count group) [group] None cv;
  match fst r with
  | Some ghubs => Return (ghubs, snd r)
  | None => Raise TypeError
  end.

(** [Workflow.__make_group_hubs_deps] *)
Definition make_group_hubs_deps (group : Group) (cv : Conv)
  : list Dependency * Conv :=
  let '((in_hub, out_hub), cv0) := group_hubs group cv in
  fold_left
    (fun (acc : list Dependency * Conv) item =>
       let (dependencies, cv1) := acc in
       match item with
       | EGroup sub =>
           let (sub_hub, cv2) := group_hubs sub cv1 in
           (dependencies ++ [(EJob in_hub, EJob (fst sub_hub));
                             (EJob (snd sub_hub), EJob out_hub)], cv2)
       | EJob _ =>
           (dependencies ++ [(EJob in_hub, item); (item, EJob out_hub)], cv1)
       end)
    (elements group) ([], cv0).

(** [l.index(x)] for a list of dependencies: the tuples compare element by
    element, and jobs and groups compare by identity. *)
Definition dep_is (d1 d2 : Dependency) : bool :=
  Nat.eqb (elem_oid (fst d1)) (elem_oid (fst d2))
  && Nat.eqb (elem_oid (snd d1)) (elem_oid (snd d2)).

Fixpoint py_index (d : Dependency) (l : list Dependency) : Outcome nat :=
  match l with
  | [] => Raise ValueError
  | x :: r => if dep_is x d then Return 0%nat else i ← py_index d r; Return (S i)
  end.

(** [del l[i]] for an index that is not negative. *)
Definition py_del {A} (i : nat) (l : list A) : Outcome (list A) :=
  if decide (i < length l)%nat then Return (delete i l) else Raise IndexError.

(** The local variables of [Workflow.__convert_group_dependencies]. *)
Record ConvLocals : Type := mkConvLocals {
  cl_conv : Conv;
  new_deps_list : list Dependency;
  deps_to_remove : list nat
}.

(** One round of the loop [for index, dependency in enumerate(dependencies)]. *)
Definition convert_dependency (reindex : bool) (index : nat)
    (dependency : Dependency) (st : ConvLocals) : Outcome ConvLocals :=
  let (j1, j2) := dependency in
  if negb (is_Group j1) && negb (is_Group j2) then Return st
  else
    index' ← (if reindex
              then py_index dependency (dependencies (cv_self (cl_conv st)))
              else Return index);
    let deps_to_remove' := index' :: deps_to_remove st in
    r1 ← match j1 with
         | EGroup g =>
             r ← group_hubs_recurs g (cl_conv st);
             Return (EJob (snd (fst r)), snd r)
         | EJob _ => Return (j1, cl_conv st)
         end;
    r2 ← match j2 with
         | EGroup g =>
             r ← group_hubs_recurs g (snd r1);
             Return (EJob (fst (fst r)), snd r)
         | EJob _ => Return (j2, snd r1)
         end;
    Return {| cl_conv := snd r2;
              new_deps_list := new_deps_list st ++ [(fst r1, fst r2)];
              deps_to_remove := deps_to_remove' |}.

Fixpoint convert_dependencies (reindex : bool) (index : nat)
    (deps : list Dependency) (st : ConvLocals) : Outcome ConvLocals :=
  match deps with
  | [] => Return st
  | dependency :: rest =>
      st' ← convert_dependency reindex index dependency st;
      convert_dependencies reindex (S index) rest st'
  end.

(** The loop [for group, ghubs in six.iteritems(group_to_hub)], over the
    items the dictionary has when the loop starts.  A dictionary that grows
    while it is iterated over makes the iteration raise [RuntimeError]. *)
Fixpoint rebuild_links (items : list (Group * Hubs)) (st : ConvLocals)
  : Outcome ConvLocals :=
  match items with
  | [] => Return st
  | (group, _) :: rest =>
      let (deps, cv') := make_group_hubs_deps group (cl_conv st) in
      if negb (Nat.eqb (length (group_to_hub cv'))
                 (length (group_to_hub (cl_conv st))))
      then Raise RuntimeError
      else rebuild_links rest
             {| cl_conv := cv';
                new_deps_list := new_deps_list st ++ deps;
                deps_to_remove := deps_to_remove st |}
  end.

(** [for index in deps_to_remove: del self.dependencies[index]] *)
Fixpoint remove_dependencies (indices : list nat) (deps : list Dependency)
  : Outcome (list Dependency) :=
  match indices with
  | [] => Return deps
  | index :: rest => deps' ← py_del index deps; remove_dependencies rest deps'
  end.

(** [Workflow.__convert_group_dependencies], for [jobs] and [dependencies]
    attributes that are lists.  The result is the workflow after the call and
    the identity of the next object to allocate. *)
Definition convert_group_dependencies (dependencies_arg : option (list Dependency))
    (self : Workflow) (next : nat) : Outcome (Workflow * nat) :=
  let st0 := {| cl_conv := {| cv_self := self; group_to_hub := [];
                              next_oid := next |};
                new_deps_list := []; deps_to_remove := [] |} in
  let (deps, reindex) :=
    match dependencies_arg with
    | None => (dependencies self, false)
    | Some d => (d, true)
    end in
  st1 ← convert_dependencies reindex 0 deps st0;
  st2 ← rebuild_links (group_to_hub (cl_conv st1)) st1;
  let self2 := cv_self (cl_conv st2) in
  deps' ← remove_dependencies (deps_to_remove st2) (dependencies self2);
  Return (set_dependencies (deps' ++ new_deps_list st2) self2,
          next_oid (cl_conv st2)).

(** The [root_group] argument of [Workflow.__init__]: a group or a sequence
    of jobs and groups. *)
Inductive RootGroupArg : Type :=
| RootGroup (g : Group)
| RootElements (els : list Element).

(** [if root_group:] *)
Definition root_group_given (root_group : option RootGroupArg) : bool :=
  match root_group with
  | None => false
  | Some (RootGroup _) => true
  | Some (RootElements els) => negb (Nat.eqb (length els) 0)
  end.

(** The loop [while to_explore:] of [Workflow.__init__], which pops the last
    group of [to_explore] and appends it to [self.groups]. *)
Fixpoint explore_groups (fuel : nat) (to_explore : list Group)
    (groups : list Group) : Outcome (list Group) :=
  match rev to_explore with
  | [] => Return groups
  | group :: below =>
      match fuel with
      | O => OutOfFuel
      | S fuel' =>
          explore_groups fuel' (rev below ++ sub_groups (elements group))
            (groups ++ [group])
      end
  end.

(** [Workflow.__init__], for a list of jobs and dependencies that are [None]
    or a list.  Neither [disposal_timeout] nor [user_storage] is stored. *)
Definition Workflow_init (next : nat) (jobs_arg : list Job)
    (dependencies_arg : option (list Dependency))
    (root_group : option RootGroupArg) (disposal_timeout : Z)
    (name : option string) : Outcome (Workflow * nat) :=
  let root_elements :=
    match root_group with
    | Some (RootGroup g) => elements g
    | Some (RootElements els) => els
    | None => []
    end in
  groups ← (if root_group_given root_group
            then explore_groups (groups_count (sub_groups root_elements))
                   (sub_groups root_elements) []
            else Return []);
  let self := {| wf_name := name;
                 jobs := jobs_arg;
                 dependencies := default [] dependencies_arg;
                 root_group := root_elements;
                 groups := groups;
                 wf_disposal_timeout := 168 |} in
  r ← convert_group_dependencies None self next;
  if root_group_given root_group then Return r
  else Return (set_root_group (map EJob (jobs (fst r))) (fst r), snd r).

(** ** Equality of Python values *)

Global Instance TransferStatus_eq_dec : EqDecision TransferStatus.
Proof. solve_decision. Defined.

(** [isinstance(other, self.__class__)] for special paths: the four classes
    have no subclass. *)
Definition same_class (p q : SpecialPath) : bool :=
  String.eqb (class_name p) (class_name q).

(** [SpecialPath.__eq__]: an instance of the same class with the same
    referent. *)
Definition SpecialPath_eq (self other : SpecialPath) : bool :=
  same_class self other && Nat.eqb (referent self) (referent other).

(** [a == b] for the Python values of the model. *)
Fixpoint py_eq (a b : PyVal) {struct a} : bool :=
  match a, b with
  | VNone, VNone => true
  | VBool x, VBool y => Bool.eqb x y
  | VBool x, VInt n => n =? (if x then 1 else 0)
  | VInt n, VBool x => n =? (if x then 1 else 0)
  | VInt n, VInt m => n =? m
  | VStr s, VStr t => String.eqb s t
  | VPath p, VPath q => SpecialPath_eq p q
  | VTuple l, VTuple m =>
      (fix all_eq (l m : list PyVal) {struct l} : bool :=
         match l, m with
         | [], [] => true
         | x :: l', y :: m' => py_eq x y && all_eq l' m'
         | _, _ => false
         end) l m
  | VList l, VList m =>
      (fix all_eq (l m : list PyVal) {struct l} : bool :=
         match l, m with
         | [], [] => true
         | x :: l', y :: m' => py_eq x y && all_eq l' m'
         | _, _ => false
         end) l m
  | _, _ => false
  end.

(** ** Dictionaries *)

(** A dictionary is the list of its items in insertion order; [same] tells
    when two keys are the same key (equal, with equal hashes). *)
Fixpoint dict_get {K V} (same : K -> K -> bool) (k : K) (d : list (K * V))
  : option V :=
  match d with
  | [] => None
  | (k', v) :: r => if same k' k then Some v else dict_get same k r
  end.

(** [d[k] = v]: the value of an existing key is replaced where it stands, a
    new key is appended. *)
Fixpoint dict_set {K V} (same : K -> K -> bool) (k : K) (v : V)
    (d : list (K * V)) : list (K * V) :=
  match d with
  | [] => [(k, v)]
  | (k', v') :: r =>
      if same k' k then (k', v) :: r else (k', v') :: dict_set same k v r
  end.

(** Keys of the dictionaries of the serialisation: jobs and groups hash by
    identity, special paths by the identity of their referent. *)
Definition same_job (a b : Job) : bool := Nat.eqb (job_oid a) (job_oid b).
Definition same_group (a b : Group) : bool := Nat.eqb (group_oid a) (group_oid b).
Definition same_referent {A} (head_of : A -> PathHead) (a b : A) : bool :=
  Nat.eqb (head_referent (head_of a)) (head_referent (head_of b)).

(** [element in job_ids] and [job_ids[element]] for a job or a group: the key
    is found when it is the same object. *)
Definition job_id_of (e : Element) (job_ids : list (Job * nat)) : option nat :=
  match e with
  | EJob j => dict_get same_job j job_ids
  | EGroup _ => None
  end.

Definition group_id_of (e : Element) (group_ids : list (Group * nat))
  : option nat :=
  match e with
  | EGroup g => dict_get same_group g group_ids
  | EJob _ => None
  end.

(** ** Serialisation of the special paths inside a job *)

(** The [IdGenerator] and the four dictionaries from special paths to
    identifiers that [Workflow.to_dict] shares between the jobs. *)
Record SerState : Type := mkSerState {
  current_id : nat;
  transfer_ids : list (FileTransferObj * nat);
  shared_res_path_ids : list (SharedResourcePathObj * nat);
  tmp_ids : list (TemporaryPathObj * nat);
  opt_ids : list (OptionPathObj * nat)
}.

(** The branches of [to_serializable] for the special paths: the identifier
    the dictionary of the class has for the path, or a new identifier
    ([IdGenerator.generate_id]) recorded there. *)
Definition path_id (p : SpecialPath) (st : SerState) : nat * SerState :=
  let ident := current_id st in
  match p with
  | FileTransfer o =>
      match dict_get (same_referent ft_head) o (transfer_ids st) with
      | Some known => (known, st)
      | None =>
          (ident,
           {| current_id := S ident;
              transfer_ids := transfer_ids st ++ [(o, ident)];
              shared_res_path_ids := shared_res_path_ids st;
              tmp_ids := tmp_ids st; opt_ids := opt_ids st |})
      end
  | SharedResourcePath o =>
      match dict_get (same_referent srp_head) o (shared_res_path_ids st) with
      | Some known => (known, st)
      | None =>
          (ident,
           {| current_id := S ident;
              transfer_ids := transfer_ids st;
              shared_res_path_ids := shared_res_path_ids st ++ [(o, ident)];
              tmp_ids := tmp_ids st; opt_ids := opt_ids st |})
      end
  | TemporaryPath o =>
      match dict_get (same_referent tmp_head) o (tmp_ids st) with
      | Some known => (known, st)
      | None =>
          (ident,
           {| current_id := S ident;
              transfer_ids := transfer_ids st;
              shared_res_path_ids := shared_res_path_ids st;
              tmp_ids := tmp_ids st ++ [(o, ident)]; opt_ids := opt_ids st |})
      end
  | OptionPath o =>
      match dict_get (same_referent opt_head) o (opt_ids st) with
      | Some known => (known, st)
      | None =>
          (ident,
           {| current_id := S ident;
              transfer_ids := transfer_ids st;
              shared_res_path_ids := shared_res_path_ids st;
              tmp_ids := tmp_ids st; opt_ids := opt_ids st ++ [(o, ident)] |})
      end
  end.

(** [to_serializable].  The inner loop is [list_to_serializable]. *)
Fixpoint to_serializable (element : PyVal) (st : SerState) {struct element}
  : Outcome (PyVal * SerState) :=
  match element with
  | VPath p => let (ident, st') := path_id p st in
               Return (VInt (Z.of_nat ident), st')
  | VList l =>
      r ← (fix list_to (l : list PyVal) (st : SerState) {struct l}
             : Outcome (list PyVal * SerState) :=
             match l with
             | [] => Return ([], st)
             | x :: rest =>
                 r1 ← to_serializable x st;
                 r2 ← list_to rest (snd r1);
                 Return (fst r1 :: fst r2, snd r2)
             end) l st;
      Return (VList (fst r), snd r)
  | VTuple (e0 :: e1 :: _) =>
      r ← to_serializable e0 st;
      Return (VList [VStr "soma-workflow-tuple"; fst r; e1], snd r)
  | VTuple _ => Raise IndexError
  | _ => Return (element, st)
  end.

(** [list_to_serializable] *)
Fixpoint list_to_serializable (list_to_convert : list PyVal) (st : SerState)
  : Outcome (list PyVal * SerState) :=
  match list_to_convert with
  | [] => Return ([], st)
  | element :: rest =>
      r1 ← to_serializable element st;
      r2 ← list_to_serializable rest (snd r1);
      Return (fst r1 :: fst r2, snd r2)
  end.

(** The four dictionaries from identifiers to special paths that
    [Workflow.from_dict] builds. *)
Record FromIds : Type := mkFromIds {
  tr_from_ids : list (nat * FileTransferObj);
  srp_from_ids : list (nat * SharedResourcePathObj);
  tmp_from_ids : list (nat * TemporaryPathObj);
  opt_from_ids : list (nat * OptionPathObj)
}.

(** The integer key a value is in a dictionary keyed by identifiers: an
    integer that is not negative, or a boolean, which hashes and compares as
    0 or 1. *)
Definition key_of (element : PyVal) : option nat :=
  match element with
  | VInt n => if 0 <=? n then Some (Z.to_nat n) else None
  | VBool b => Some (if b then 1 else 0)%nat
  | _ => None
  end.

(** The chain of [elif element in ...] that ends [from_serializable]. *)
Definition path_of_id (t : FromIds) (element : PyVal) : PyVal :=
  match key_of element with
  | None => element
  | Some k =>
      match dict_get Nat.eqb k (tr_from_ids t) with
      | Some o => VPath (FileTransfer o)
      | None =>
          match dict_get Nat.eqb k (srp_from_ids t) with
          | Some o => VPath (SharedResourcePath o)
          | None =>
              match dict_get Nat.eqb k (tmp_from_ids t) with
              | Some o => VPath (TemporaryPath o)
              | None =>
                  match dict_get Nat.eqb k (opt_from_ids t) with
                  | Some o => VPath (OptionPath o)
                  | None => element
                  end
              end
          end
      end
  end.

(** [from_serializable], for the values [to_serializable] produces (a tuple,
    which it never produces, is returned as it is).  The inner loop is
    [list_from_serializable]. *)
Fixpoint from_serializable (t : FromIds) (element : PyVal) {struct element}
  : PyVal :=
  match element with
  | VList l =>
      let converted :=
        (fix list_from (l : list PyVal) {struct l} : list PyVal :=
           match l with
           | [] => []
           | x :: rest => from_serializable t x :: list_from rest
           end) l in
      match l with
      | [e0; e1; e2] =>
          if py_eq e0 (VStr "soma-workflow-tuple")
          then VTuple [from_serializable t e1; e2]
          else VList converted
      | _ => VList converted
      end
  | _ => path_of_id t element
  end.

(** [list_from_serializable] *)
Definition list_from_serializable (t : FromIds) (list_to_convert : list PyVal)
  : list PyVal :=
  map (from_serializable t) list_to_convert.

(** ** Dictionaries of the special paths

    The records below are the dictionaries that the [to_dict] methods build,
    one field for each key. *)

Record TransferDict : Type := mkTransferDict {
  td_client_path : string;
  td_client_paths : option (list string);
  td_initial_status : TransferStatus;
  td_disposal_timeout : Z;
  td_name : string;
  td_pattern : string
}.

Record SharedDict : Type := mkSharedDict {
  sd_relative_path : string;
  sd_namespace : string;
  sd_uuid : string;
  sd_disposal_timeout : option Z;
  sd_pattern : string
}.

Record TemporaryDict : Type := mkTemporaryDict {
  pd_is_directory : bool;
  pd_disposal_timeout : Z;
  pd_name : string;
  pd_suffix : string;
  pd_pattern : string
}.

(** The value under the key [parent_path] of the dictionary of an option
    path: a string, the identifier of a special path, or a special path left
    as it is. *)
Inductive SerParent : Type :=
| SerStr (s : string)
| SerId (n : nat)
| SerRaw (p : SpecialPath).

Record OptionDict : Type := mkOptionDict {
  od_parent_type : string;
  od_parent_path : SerParent;
  od_uri : string;
  od_name : string;
  od_pattern : string
}.

Definition set_pattern (pat : string) (h : PathHead) : PathHead :=
  {| oid := oid h; ref := ref h; pattern := pat |}.

(** [FileTransfer.to_dict] *)
Definition FileTransfer_to_dict (self : FileTransferObj) : TransferDict :=
  {| td_client_path := client_path self;
     td_client_paths := client_paths self;
     td_initial_status := initial_status self;
     td_disposal_timeout := ft_disposal_timeout self;
     td_name := ft_name self;
     td_pattern := pattern (ft_head self) |}.

(** [FileTransfer.from_dict]: a transfer constructed with [is_input=True] and
    [client_path="foo"], on which every key of the dictionary is set. *)
Definition FileTransfer_from_dict (self : nat) (d : TransferDict)
  : Outcome FileTransferObj :=
  transfer ← FileTransfer_init self (VBool true) (Some "foo") 168 None None;
  Return {| ft_head := set_pattern (td_pattern d) (ft_head transfer);
            client_path := td_client_path d;
            client_paths := td_client_paths d;
            initial_status := td_initial_status d;
            ft_disposal_timeout := td_disposal_timeout d;
            ft_name := td_name d |}.

(** [SharedResourcePath.to_dict], which reads every attribute, the pattern
    included, on the referent. *)
Definition SharedResourcePath_to_dict (self : SharedResourcePathObj)
  : SharedDict :=
  {| sd_relative_path := relative_path self;
     sd_namespace := namespace self;
     sd_uuid := uuid self;
     sd_disposal_timeout := srp_disposal_timeout self;
     sd_pattern := head_referent_pattern (srp_head self) |}.

(** [SharedResourcePath.from_dict] *)
Definition SharedResourcePath_from_dict (self : nat) (d : SharedDict)
  : Outcome SharedResourcePathObj :=
  shared_res_path ←
    SharedResourcePath_init self "toto" (Some "toto") (Some "toto") 168;
  Return {| srp_head := set_pattern (sd_pattern d) (srp_head shared_res_path);
            relative_path := sd_relative_path d;
            namespace := sd_namespace d;
            uuid := sd_uuid d;
            srp_disposal_timeout := sd_disposal_timeout d |}.

(** [TemporaryPath.to_dict] *)
Definition TemporaryPath_to_dict (self : TemporaryPathObj) : TemporaryDict :=
  {| pd_is_directory := is_directory self;
     pd_disposal_timeout := tmp_disposal_timeout self;
     pd_name := tmp_name self;
     pd_suffix := suffix self;
     pd_pattern := pattern (tmp_head self) |}.

(** [TemporaryPath.from_dict] *)
Definition TemporaryPath_from_dict (self : nat) (d : TemporaryDict)
  : TemporaryPathObj :=
  let temp_file :=
    TemporaryPath_init self (pd_is_directory d) (pd_disposal_timeout d) None
      (pd_suffix d) in
  {| tmp_head := set_pattern (pd_pattern d) (tmp_head temp_file);
     is_directory := pd_is_directory d;
     tmp_disposal_timeout := pd_disposal_timeout d;
     tmp_name := pd_name d;
     suffix := pd_suffix d |}.

(** [OptionPath.to_dict]: the parent path goes through [to_serializable]
    unless the parent type is ['str']. *)
Definition OptionPath_to_dict (self : OptionPathObj) (st : SerState)
  : OptionDict * SerState :=
  let (ser_parent, st') :=
    if negb (String.eqb (parent_type self) "str")
    then match parent_path self with
         | ParentSpecial p =>
             let (ident, st') := path_id p st in (SerId ident, st')
         | ParentStr s => (SerStr s, st)
         end
    else match parent_path self with
         | ParentSpecial p => (SerRaw p, st)
         | ParentStr s => (SerStr s, st)
         end in
  ({| od_parent_type := parent_type self;
      od_parent_path := ser_parent;
      od_uri := uri self;
      od_name := opt_name self;
      od_pattern := pattern (opt_head self) |}, st').

(** The argument [OptionPath.from_dict] gives the constructor for the parent
    path: the value of the dictionary, through [from_serializable] unless the
    parent type is ['str']; an identifier that stands for no special path is
    the integer, of which the constructor takes the [str()]. *)
Definition parent_of_dict (t : FromIds) (d : OptionDict) : ParentArg :=
  match od_parent_path d with
  | SerStr s => ArgStr s
  | SerRaw p => ArgSpecial p
  | SerId n =>
      if negb (String.eqb (od_parent_type d) "str")
      then match path_of_id t (VInt (Z.of_nat n)) with
           | VPath p => ArgSpecial p
           | _ => ArgStr (pretty n)
           end
      else ArgStr (pretty n)
  end.

(** [OptionPath.from_dict] *)
Definition OptionPath_from_dict (self : nat) (d : OptionDict) (t : FromIds)
  : Outcome OptionPathObj :=
  temp_file ← OptionPath_init self (parent_of_dict t d) (UriStr (od_uri d))
                 (Some (od_name d));
  Return (mkOptionPath (set_pattern (od_pattern d) (opt_head temp_file))
            (parent_path temp_file) (parent_type temp_file) (uri temp_file)
            (opt_name temp_file)).

(** ** Dictionaries of the jobs *)

(** The dictionary of a job or of a barrier job; a key that the dictionary
    does not have is [None]. *)
Record JobDict : Type := mkJobDict {
  jd_name : option PyVal;
  jd_join_stderrout : option bool;
  jd_priority : option Z;
  jd_native_specification : option (option string);
  jd_parallel_job_info : option (option (string * Z));
  jd_disposal_timeout : option Z;
  jd_command : option (list PyVal);
  jd_referenced_input_files : option (list PyVal);
  jd_referenced_output_files : option (list PyVal);
  jd_stdin : option PyVal;
  jd_stdout_file : option PyVal;
  jd_stderr_file : option PyVal;
  jd_working_directory : option PyVal
}.

(** [if value: job_dict[key] = to_serializable(value, ...)] *)
Definition ser_if_set (value : PyVal) (st : SerState)
  : Outcome (option PyVal * SerState) :=
  if truthy value
  then r ← to_serializable value st; Return (Some (fst r), snd r)
  else Return (None, st).

(** [if files: job_dict[key] = list_to_serializable(files, ...)] *)
Definition ser_list_if_set (files : list PyVal) (st : SerState)
  : Outcome (option (list PyVal) * SerState) :=
  match files with
  | [] => Return (None, st)
  | _ :: _ => r ← list_to_serializable files st; Return (Some (fst r), snd r)
  end.

(** [Job.to_dict] *)
Definition Job_to_dict (self : Job) (st : SerState)
  : Outcome (JobDict * SerState) :=
  r_command ← list_to_serializable (command self) st;
  r_in ← ser_list_if_set (referenced_input_files self) (snd r_command);
  r_out ← ser_list_if_set (referenced_output_files self) (snd r_in);
  r_stdin ← ser_if_set (stdin self) (snd r_out);
  r_stdout ← ser_if_set (stdout_file self) (snd r_stdin);
  r_stderr ← ser_if_set (stderr_file self) (snd r_stdout);
  r_wd ← ser_if_set (working_directory self) (snd r_stderr);
  Return ({| jd_name := Some (job_name self);
             jd_join_stderrout := Some (join_stderrout self);
             jd_priority := Some (priority self);
             jd_native_specification := Some (native_specification self);
             jd_parallel_job_info := Some (parallel_job_info self);
             jd_disposal_timeout := Some (job_disposal_timeout self);
             jd_command := Some (fst r_command);
             jd_referenced_input_files := fst r_in;
             jd_referenced_output_files := fst r_out;
             jd_stdin := fst r_stdin;
             jd_stdout_file := fst r_stdout;
             jd_stderr_file := fst r_stderr;
             jd_working_directory := fst r_wd |}, snd r_wd).

(** [BarrierJob.to_dict] *)
Definition BarrierJob_to_dict (self : Job) (st : SerState)
  : Outcome (JobDict * SerState) :=
  r_in ← ser_list_if_set (referenced_input_files self) st;
  r_out ← ser_list_if_set (referenced_output_files self) (snd r_in);
  Return ({| jd_name := Some (job_name self);
             jd_join_stderrout := None;
             jd_priority := None;
             jd_native_specification := None;
             jd_parallel_job_info := None;
             jd_disposal_timeout := Some (job_disposal_timeout self);
             jd_command := None;
             jd_referenced_input_files := fst r_in;
             jd_referenced_output_files := fst r_out;
             jd_stdin := None;
             jd_stdout_file := None;
             jd_stderr_file := None;
             jd_working_directory := None |}, snd r_out).

(** [for key, value in six.iteritems(d): setattr(job, key, value)] *)
Definition set_job_attributes (d : JobDict) (job : Job) : Job :=
  {| job_oid := job_oid job;
     is_BarrierJob := is_BarrierJob job;
     command := default (command job) (jd_command d);
     job_name := default (job_name job) (jd_name d);
     referenced_input_files :=
       default (referenced_input_files job) (jd_referenced_input_files d);
     referenced_output_files :=
       default (referenced_output_files job) (jd_referenced_output_files d);
     stdin := default (stdin job) (jd_stdin d);
     join_stderrout := default (join_stderrout job) (jd_join_stderrout d);
     job_disposal_timeout :=
       default (job_disposal_timeout job) (jd_disposal_timeout d);
     stdout_file := default (stdout_file job) (jd_stdout_file d);
     stderr_file := default (stderr_file job) (jd_stderr_file d);
     working_directory :=
       default (working_directory job) (jd_working_directory d);
     parallel_job_info :=
       default (parallel_job_info job) (jd_parallel_job_info d);
     priority := default (priority job) (jd_priority d);
     native_specification :=
       default (native_specification job) (jd_native_specification d) |}.

(** [if value: value = from_serializable(value, ...)] *)
Definition unser_if_set (t : FromIds) (value : PyVal) : PyVal :=
  if truthy value then from_serializable t value else value.

Definition unser_list_if_set (t : FromIds) (files : list PyVal) : list PyVal :=
  match files with
  | [] => []
  | _ :: _ => list_from_serializable t files
  end.

(** The conversions that end [Job.from_dict]; [with_command] tells whether
    the command and the stdio attributes are converted too ([Job]) or only
    the referenced files ([BarrierJob]). *)
Definition unserialise_job (with_command : bool) (t : FromIds) (job : Job)
  : Job :=
  {| job_oid := job_oid job;
     is_BarrierJob := is_BarrierJob job;
     command := if with_command then list_from_serializable t (command job)
                else command job;
     job_name := job_name job;
     referenced_input_files :=
       unser_list_if_set t (referenced_input_files job);
     referenced_output_files :=
       unser_list_if_set t (referenced_output_files job);
     stdin := if with_command then unser_if_set t (stdin job) else stdin job;
     join_stderrout := join_stderrout job;
     job_disposal_timeout := job_disposal_timeout job;
     stdout_file := if with_command then unser_if_set t (stdout_file job)
                    else stdout_file job;
     stderr_file := if with_command then unser_if_set t (stderr_file job)
                    else stderr_file job;
     working_directory :=
       if with_command then unser_if_set t (working_directory job)
       else working_directory job;
     parallel_job_info := parallel_job_info job;
     priority := priority job;
     native_specification := native_specification job |}.

(** [Job.from_dict] *)
Definition Job_from_dict (self : nat) (d : JobDict) (t : FromIds)
  : Outcome Job :=
  match jd_command d with
  | None => Raise KeyError
  | Some cmd =>
      let job := Job_init false self cmd None None VNone false 168 VNone VNone
                   VNone VNone None 0 None in
      Return (unserialise_job true t (set_job_attributes d job))
  end.

(** [BarrierJob.from_dict] *)
Definition BarrierJob_from_dict (self : nat) (d : JobDict) (t : FromIds)
  : Outcome Job :=
  let job := BarrierJob_init self None None VNone in
  Return (unserialise_job false t (set_job_attributes d job)).

(** ** Dictionaries of the groups and of the workflows *)

Record GroupDict : Type := mkGroupDict {
  gd_name : string;
  gd_elements : list nat
}.

(** The loop over the elements shared by [Group.to_dict] and the root group
    of [Workflow.to_dict]: the identifier of a job, else of a group, else an
    exception. *)
Fixpoint element_ids (msg : string) (els : list Element)
    (job_ids : list (Job * nat)) (group_ids : list (Group * nat))
  : Outcome (list nat) :=
  match els with
  | [] => Return []
  | element :: rest =>
      match job_id_of element job_ids with
      | Some ident => ids ← element_ids msg rest job_ids group_ids;
                      Return (ident :: ids)
      | None =>
          match group_id_of element group_ids with
          | Some ident => ids ← element_ids msg rest job_ids group_ids;
                          Return (ident :: ids)
          | None => Raise (PyException msg)
          end
      end
  end.

(** [Group.to_dict] *)
Definition Group_to_dict (self : Group) (group_ids : list (Group * nat))
    (job_ids : list (Job * nat)) : Outcome GroupDict :=
  new_gp_elements ←
    element_ids "Unknown group element." (elements self) job_ids group_ids;
  Return {| gd_name := group_name self; gd_elements := new_gp_elements |}.

(** The loop of [Group.from_dict]; [None] is the [return None] taken on an
    identifier that is neither a job nor a group. *)
Fixpoint elements_of_ids (id_elements : list nat)
    (group_from_ids : list (nat * Group)) (job_from_ids : list (nat * Job))
  : option (list Element) :=
  match id_elements with
  | [] => Some []
  | el_id :: rest =>
      match dict_get Nat.eqb el_id job_from_ids with
      | Some job =>
          option_map (cons (EJob job))
            (elements_of_ids rest group_from_ids job_from_ids)
      | None =>
          match dict_get Nat.eqb el_id group_from_ids with
          | Some group =>
              option_map (cons (EGroup group))
                (elements_of_ids rest group_from_ids job_from_ids)
          | None => None
          end
      end
  end.

(** [Group.from_dict] *)
Definition Group_from_dict (self : nat) (d : GroupDict)
    (group_from_ids : list (nat * Group)) (job_from_ids : list (nat * Job))
  : option Group :=
  option_map (fun els => Group_init self els (gd_name d))
    (elements_of_ids (gd_elements d) group_from_ids job_from_ids).

(** The dictionary of a workflow.  The keys of the [serialized_...]
    dictionaries are the decimal strings [str(ident)], which
    [Workflow.from_dict] reads back with [int()]; the model keeps the
    identifiers. *)
Record WorkflowDict : Type := mkWorkflowDict {
  wd_name : option string;
  wd_jobs : list nat;
  wd_dependencies : list (nat * nat);
  wd_groups : list nat;
  wd_root_group : list nat;
  serialized_groups : list (nat * GroupDict);
  serialized_jobs : list (nat * JobDict);
  serialized_barriers : list (nat * JobDict);
  serialized_file_transfers : list (nat * TransferDict);
  serialized_shared_res_paths : list (nat * SharedDict);
  serialized_temporary_paths : list (nat * TemporaryDict);
  serialized_option_paths : list (nat * OptionDict)
}.

(** The loops [for x in xs: ident = id_generator.generate_id();
    new_xs.append(ident); x_ids[x] = ident] over the jobs and over the
    groups. *)
Fixpoint number_objects {A} (same : A -> A -> bool) (objects : list A)
    (ident : nat) (new_ids : list nat) (ids : list (A * nat))
  : list nat * list (A * nat) * nat :=
  match objects with
  | [] => (new_ids, ids, ident)
  | x :: rest =>
      number_objects same rest (S ident) (new_ids ++ [ident])
        (dict_set same x ident ids)
  end.

(** The loop over the dependencies of [Workflow.to_dict]. *)
Fixpoint dependency_ids (deps : list Dependency) (job_ids : list (Job * nat))
  : Outcome (list (nat * nat)) :=
  match deps with
  | [] => Return []
  | dep :: rest =>
      match job_id_of (fst dep) job_ids, job_id_of (snd dep) job_ids with
      | Some i, Some j => ids ← dependency_ids rest job_ids;
                          Return ((i, j) :: ids)
      | _, _ => Raise (PyException "Unknown jobs in dependencies.")
      end
  end.

(** The loop over [group_ids] of [Workflow.to_dict]. *)
Fixpoint groups_to_dict (items : list (Group * nat))
    (group_ids : list (Group * nat)) (job_ids : list (Job * nat))
    (ser_groups : list (nat * GroupDict)) : Outcome (list (nat * GroupDict)) :=
  match items with
  | [] => Return ser_groups
  | (group, group_id) :: rest =>
      d ← Group_to_dict group group_ids job_ids;
      groups_to_dict rest group_ids job_ids (dict_set Nat.eqb group_id d ser_groups)
  end.

(** The loop over [job_ids] of [Workflow.to_dict], which sends the barrier
    jobs to [serialized_barriers] and the other jobs to [serialized_jobs]. *)
Fixpoint jobs_to_dict (items : list (Job * nat)) (st : SerState)
    (ser_jobs ser_barriers : list (nat * JobDict))
  : Outcome (list (nat * JobDict) * list (nat * JobDict) * SerState) :=
  match items with
  | [] => Return (ser_jobs, ser_barriers, st)
  | (job, job_id) :: rest =>
      if is_BarrierJob job
      then r ← BarrierJob_to_dict job st;
           jobs_to_dict rest (snd r) ser_jobs
             (dict_set Nat.eqb job_id (fst r) ser_barriers)
      else r ← Job_to_dict job st;
           jobs_to_dict rest (snd r)
             (dict_set Nat.eqb job_id (fst r) ser_jobs) ser_barriers
  end.

(** The loops over [transfer_ids], [shared_res_path_ids] and
    [temporary_ids]. *)
Definition paths_to_dict {A D} (to_dict : A -> D) (items : list (A * nat))
  : list (nat * D) :=
  fold_left (fun ser item => dict_set Nat.eqb (snd item) (to_dict (fst item)) ser)
    items [].

(** The loop over [option_ids], whose calls of [OptionPath.to_dict] may still
    record special paths.  A dictionary of option paths that grows while it
    is iterated over makes the iteration raise [RuntimeError]. *)
Fixpoint options_to_dict (items : list (OptionPathObj * nat)) (st : SerState)
    (ser_opt : list (nat * OptionDict)) : Outcome (list (nat * OptionDict)) :=
  match items with
  | [] => Return ser_opt
  | (optf, opt_id) :: rest =>
      let (d, st') := OptionPath_to_dict optf st in
      if negb (Nat.eqb (length (opt_ids st')) (length (opt_ids st)))
      then Raise RuntimeError
      else options_to_dict rest st' (dict_set Nat.eqb opt_id d ser_opt)
  end.

(** [Workflow.to_dict] *)
Definition Workflow_to_dict (self : Workflow) : Outcome WorkflowDict :=
  let '(new_jobs, job_ids, ident) :=
    number_objects same_job (jobs self) 0 [] [] in
  new_dependencies ← dependency_ids (dependencies self) job_ids;
  let '(new_groups, group_ids, ident') :=
    number_objects same_group (groups self) ident [] [] in
  new_root_group ←
    element_ids "Unknown root group element." (root_group self) job_ids
      group_ids;
  ser_groups ← groups_to_dict group_ids group_ids job_ids [];
  r ← jobs_to_dict job_ids
         {| current_id := ident'; transfer_ids := []; shared_res_path_ids := [];
            tmp_ids := []; opt_ids := [] |} [] [];
  let '(ser_jobs, ser_barriers, st) := r in
  ser_opt ← options_to_dict (opt_ids st) st [];
  Return {| wd_name := wf_name self;
            wd_jobs := new_jobs;
            wd_dependencies := new_dependencies;
            wd_groups := new_groups;
            wd_root_group := new_root_group;
            serialized_groups := ser_groups;
            serialized_jobs := ser_jobs;
            serialized_barriers := ser_barriers;
            serialized_file_transfers :=
              paths_to_dict FileTransfer_to_dict (transfer_ids st);
            serialized_shared_res_paths :=
              paths_to_dict SharedResourcePath_to_dict (shared_res_path_ids st);
            serialized_temporary_paths :=
              paths_to_dict TemporaryPath_to_dict (tmp_ids st);
            serialized_option_paths := ser_opt |}.

(** ** Reading a workflow back *)

(** The loops [for ident, d in six.iteritems(serialized): table[int(ident)] =
    X.from_dict(d)], each object being allocated at [next]. *)
Fixpoint paths_from_dict {A D} (from_dict : nat -> D -> Outcome A)
    (items : list (nat * D)) (next : nat) (table : list (nat * A))
  : Outcome (list (nat * A) * nat) :=
  match items with
  | [] => Return (table, next)
  | (ident, d) :: rest =>
      obj ← from_dict next d;
      paths_from_dict from_dict rest (S next) (dict_set Nat.eqb ident obj table)
  end.

(** The loop over [serialized_option_paths], in which [OptionPath.from_dict]
    sees the dictionary of option paths under construction. *)
Fixpoint options_from_dict (items : list (nat * OptionDict)) (next : nat)
    (t : FromIds) : Outcome (FromIds * nat) :=
  match items with
  | [] => Return (t, next)
  | (opt_id, opt_d) :: rest =>
      opt_file ← OptionPath_from_dict next opt_d t;
      options_from_dict rest (S next)
        {| tr_from_ids := tr_from_ids t; srp_from_ids := srp_from_ids t;
           tmp_from_ids := tmp_from_ids t;
           opt_from_ids := dict_set Nat.eqb opt_id opt_file (opt_from_ids t) |}
  end.

(** The loops over [serialized_jobs] and [serialized_barriers]. *)
Fixpoint jobs_from_dict
    (from_dict : nat -> JobDict -> FromIds -> Outcome Job)
    (items : list (nat * JobDict)) (t : FromIds) (next : nat)
    (job_from_ids : list (nat * Job)) : Outcome (list (nat * Job) * nat) :=
  match items with
  | [] => Return (job_from_ids, next)
  | (job_id, job_d) :: rest =>
      job ← from_dict next job_d t;
      jobs_from_dict from_dict rest t (S next)
        (dict_set Nat.eqb job_id job job_from_ids)
  end.

(** One round [for group_id in to_convert:] of the conversion of the groups:
    the identifiers converted in this round, the groups known so far and the
    next identity. *)
Fixpoint convert_groups_round (to_convert : list nat)
    (serialized_groups : list (nat * GroupDict))
    (job_from_ids : list (nat * Job)) (new_converted : list nat)
    (group_from_ids : list (nat * Group)) (next : nat)
  : Outcome (list nat * list (nat * Group) * nat) :=
  match to_convert with
  | [] => Return (new_converted, group_from_ids, next)
  | group_id :: rest =>
      match dict_get Nat.eqb group_id serialized_groups with
      | None => Raise KeyError
      | Some d =>
          match Group_from_dict next d group_from_ids job_from_ids with
          | Some group =>
              convert_groups_round rest serialized_groups job_from_ids
                (new_converted ++ [group_id])
                (dict_set Nat.eqb group_id group group_from_ids) (S next)
          | None =>
              convert_groups_round rest serialized_groups job_from_ids
                new_converted group_from_ids next
          end
      end
  end.

(** [for group_id in new_converted: to_convert.remove(group_id)], for a list
    [to_convert]. *)
Fixpoint py_remove (x : nat) (l : list nat) : Outcome (list nat) :=
  match l with
  | [] => Raise ValueError
  | y :: r => if Nat.eqb y x then Return r
              else r' ← py_remove x r; Return (y :: r')
  end.

Fixpoint remove_converted (new_converted to_convert : list nat)
  : Outcome (list nat) :=
  match new_converted with
  | [] => Return to_convert
  | group_id :: rest =>
      to_convert' ← py_remove group_id to_convert;
      remove_converted rest to_convert'
  end.

(** The loop [while not converted_or_stuck:] of [Workflow.from_dict].
    [to_convert] is [serialized_groups.keys()]: a list under Python 2, where
    [remove] takes the converted identifiers out, and a view of the
    dictionary under Python 3 ([python3]), which has no [remove]. *)
Fixpoint convert_groups (fuel : nat) (python3 : bool) (to_convert : list nat)
    (serialized_groups : list (nat * GroupDict))
    (job_from_ids : list (nat * Job)) (group_from_ids : list (nat * Group))
    (next : nat) : Outcome (list (nat * Group) * nat) :=
  match fuel with
  | O => OutOfFuel
  | S fuel' =>
      r ← convert_groups_round to_convert serialized_groups job_from_ids []
             group_from_ids next;
      let '(new_converted, group_from_ids', next') := r in
      to_convert' ←
        match new_converted with
        | [] => Return to_convert
        | _ :: _ => if python3 then Raise AttributeError
                    else remove_converted new_converted to_convert
        end;
      if Nat.eqb (length to_convert') 0 || Nat.eqb (length new_converted) 0
      then Return (group_from_ids', next')
      else convert_groups fuel' python3 to_convert' serialized_groups
             job_from_ids group_from_ids' next'
  end.

(** The loop over the root group of [Workflow.from_dict]: an identifier that
    is neither a group nor a job is skipped. *)
Fixpoint root_group_of_ids (id_root_group : list nat)
    (group_from_ids : list (nat * Group)) (job_from_ids : list (nat * Job))
  : list Element :=
  match id_root_group with
  | [] => []
  | el_id :: rest =>
      match dict_get Nat.eqb el_id group_from_ids with
      | Some group =>
          EGroup group :: root_group_of_ids rest group_from_ids job_from_ids
      | None =>
          match dict_get Nat.eqb el_id job_from_ids with
          | Some job =>
              EJob job :: root_group_of_ids rest group_from_ids job_from_ids
          | None => root_group_of_ids rest group_from_ids job_from_ids
          end
      end
  end.

(** The loop over the dependencies of [Workflow.from_dict]. *)
Fixpoint dependencies_of_ids (id_dependencies : list (nat * nat))
    (job_from_ids : list (nat * Job)) : Outcome (list Dependency) :=
  match id_dependencies with
  | [] => Return []
  | id_dep :: rest =>
      match dict_get Nat.eqb (fst id_dep) job_from_ids,
            dict_get Nat.eqb (snd id_dep) job_from_ids with
      | Some a, Some b =>
          deps ← dependencies_of_ids rest job_from_ids;
          Return ((EJob a, EJob b) :: deps)
      | _, _ => Raise KeyError
      end
  end.

(** [Workflow.from_dict], for a dictionary built by [Workflow.to_dict].  The
    objects are allocated from [next] on. *)
Definition Workflow_from_dict (python3 : bool) (next : nat) (d : WorkflowDict)
  : Outcome (Workflow * nat) :=
  r_srp ← paths_from_dict SharedResourcePath_from_dict
             (serialized_shared_res_paths d) next [];
  r_tr ← paths_from_dict FileTransfer_from_dict (serialized_file_transfers d)
            (snd r_srp) [];
  r_tmp ← paths_from_dict (fun self pd => Return (TemporaryPath_from_dict self pd))
             (serialized_temporary_paths d) (snd r_tr) [];
  r_opt ← options_from_dict (serialized_option_paths d) (snd r_tmp)
             {| tr_from_ids := fst r_tr; srp_from_ids := fst r_srp;
                tmp_from_ids := fst r_tmp; opt_from_ids := [] |};
  let t := fst r_opt in
  r_jobs ← jobs_from_dict Job_from_dict (serialized_jobs d) t (snd r_opt) [];
  r_all ← jobs_from_dict BarrierJob_from_dict (serialized_barriers d) t
             (snd r_jobs) (fst r_jobs);
  let job_from_ids := fst r_all in
  let jobs := map snd job_from_ids in
  let to_convert := map fst (serialized_groups d) in
  r_groups ← convert_groups (S (length to_convert)) python3 to_convert
                (serialized_groups d) job_from_ids [] (snd r_all);
  let group_from_ids := fst r_groups in
  let root_group :=
    root_group_of_ids (wd_root_group d) group_from_ids job_from_ids in
  dependencies ← dependencies_of_ids (wd_dependencies d) job_from_ids;
  Workflow_init (snd r_groups) jobs (Some dependencies)
    (Some (RootElements root_group)) 168 (wd_name d).

(** ** Attribute equality *)

(** [FileTransfer.attributs_equal] *)
Definition FileTransfer_attributs_equal (self : FileTransferObj)
    (other : PyVal) : bool :=
  match other with
  | VPath (FileTransfer o) =>
      String.eqb (client_path o) (client_path self)
      && bool_decide (client_paths o = client_paths self)
      && bool_decide (initial_status o = initial_status self)
      && (ft_disposal_timeout o =? ft_disposal_timeout self)
      && String.eqb (ft_name o) (ft_name self)
      && String.eqb (pattern (ft_head o)) (pattern (ft_head self))
  | _ => false
  end.

(** [SharedResourcePath.attributs_equal], which reads the attributes of
    [self], the pattern included, on its referent. *)
Definition SharedResourcePath_attributs_equal (self : SharedResourcePathObj)
    (other : PyVal) : bool :=
  match other with
  | VPath (SharedResourcePath o) =>
      String.eqb (relative_path self) (relative_path o)
      && String.eqb (namespace self) (namespace o)
      && String.eqb (uuid self) (uuid o)
      && bool_decide (srp_disposal_timeout self = srp_disposal_timeout o)
      && String.eqb (head_referent_pattern (srp_head self))
           (pattern (srp_head o))
  | _ => false
  end.

(** [TemporaryPath.attributs_equal] *)
Definition TemporaryPath_attributs_equal (self : TemporaryPathObj)
    (other : PyVal) : bool :=
  match other with
  | VPath (TemporaryPath o) =>
      Bool.eqb (is_directory self) (is_directory o)
      && (tmp_disposal_timeout self =? tmp_disposal_timeout o)
      && String.eqb (tmp_name self) (tmp_name o)
      && String.eqb (suffix self) (suffix o)
      && String.eqb (pattern (tmp_head self)) (pattern (tmp_head o))
  | _ => false
  end.

(** [attr == other_attr] for the parent paths of two option paths: strings
    compare as strings, special paths with [SpecialPath.__eq__]. *)
Definition ParentPath_eq (a b : ParentPath) : bool :=
  match a, b with
  | ParentStr s, ParentStr t => String.eqb s t
  | ParentSpecial p, ParentSpecial q => SpecialPath_eq p q
  | _, _ => false
  end.

(** [OptionPath.attributs_equal] *)
Definition OptionPath_attributs_equal (self : OptionPathObj) (other : PyVal)
  : bool :=
  match other with
  | VPath (OptionPath o) =>
      String.eqb (parent_type self) (parent_type o)
      && ParentPath_eq (parent_path self) (parent_path o)
      && String.eqb (uri self) (uri o)
      && String.eqb (opt_name self) (opt_name o)
      && String.eqb (pattern (opt_head self)) (pattern (opt_head o))
  | _ => false
  end.

(** [p.attributs_equal(other)] for a special path [p]. *)
Definition SpecialPath_attributs_equal (p : SpecialPath) (other : PyVal)
  : bool :=
  match p with
  | FileTransfer o => FileTransfer_attributs_equal o other
  | SharedResourcePath o => SharedResourcePath_attributs_equal o other
  | TemporaryPath o => TemporaryPath_attributs_equal o other
  | OptionPath o => OptionPath_attributs_equal o other
  end.

(** One round of the loop of [Job._attributs_equal], on the elements at the
    same place of the two lists: [Return true] lets the loop go on,
    [Return false] is its [return False].  The inner loop is the call of
    [Job._attributs_equal] on two lists found at that place. *)
Fixpoint element_attributs_equal (el other : PyVal) {struct el} : Outcome bool :=
  match el with
  | VPath p => Return (SpecialPath_attributs_equal p other)
  | VTuple t =>
      match other with
      | VTuple t' =>
          if negb (Nat.eqb (length t) (length t')) then Return false
          else
            match t, t' with
            | VPath p :: rest, o0 :: rest' =>
                if negb (SpecialPath_attributs_equal p o0) then Return false
                else match rest, rest' with
                     | e1 :: _, o1 :: _ => Return (py_eq e1 o1)
                     | _, _ => Raise IndexError
                     end
            | _ :: _, _ => Raise AttributeError
            | [], _ => Raise IndexError
            end
      | _ => Return false
      end
  | VList l =>
      match other with
      | VList l' =>
          if negb (Nat.eqb (length l) (length l')) then Return false
          else
            (fix loop (l l' : list PyVal) {struct l} : Outcome bool :=
               match l, l' with
               | x :: r, y :: r' =>
                   b ← element_attributs_equal x y;
                   if (b : bool) then loop r r' else Return false
               | _, _ => Return true
               end) l l'
      | _ => Return false
      end
  | _ => Return (py_eq el other)
  end.

(** [Job._attributs_equal] *)
Fixpoint list_attributs_equal_loop (el_list other_el_list : list PyVal)
  : Outcome bool :=
  match el_list, other_el_list with
  | x :: r, y :: r' =>
      b ← element_attributs_equal x y;
      if (b : bool) then list_attributs_equal_loop r r' else Return false
  | _, _ => Return true
  end.

Definition Job__attributs_equal (el_list other_el_list : list PyVal)
  : Outcome bool :=
  if negb (Nat.eqb (length el_list) (length other_el_list)) then Return false
  else list_attributs_equal_loop el_list other_el_list.

(** The comparison of one attribute in the second loop of
    [Job.attributs_equal]. *)
Definition attribute_equal (attr other_attr : PyVal) : bool :=
  match attr with
  | VPath p => SpecialPath_attributs_equal p other_attr
  | _ => py_eq attr other_attr
  end.

(** [Job.attributs_equal]; [isinstance(other, self.__class__)] holds unless
    [self] is a barrier job and [other] is not. *)
Definition Job_attributs_equal (self other : Job) : Outcome bool :=
  if is_BarrierJob self && negb (is_BarrierJob other) then Return false
  else
    b1 ← Job__attributs_equal (command self) (command other);
    if negb (b1 : bool) then Return false else
    b2 ← Job__attributs_equal (referenced_input_files self)
           (referenced_input_files other);
    if negb (b2 : bool) then Return false else
    b3 ← Job__attributs_equal (referenced_output_files self)
           (referenced_output_files other);
    if negb (b3 : bool) then Return false else
    Return (attribute_equal (job_name self) (job_name other)
            && attribute_equal (stdin self) (stdin other)
            && Bool.eqb (join_stderrout self) (join_stderrout other)
            && attribute_equal (stdout_file self) (stdout_file other)
            && attribute_equal (stderr_file self) (stderr_file other)
            && attribute_equal (working_directory self)
                 (working_directory other)
            && (priority self =? priority other)
            && bool_decide (native_specification self
                            = native_specification other)
            && bool_decide (parallel_job_info self = parallel_job_info other)
            && (job_disposal_timeout self =? job_disposal_timeout other)).

(** [Group.attributs_equal], and [x.attributs_equal(y)] for a job or a group
    [x] of a workflow. *)
Fixpoint Group_attributs_equal (self other : Group) {struct self}
  : Outcome bool :=
  match self, other with
  | mkGroup _ name els, mkGroup _ name' els' =>
      if negb (Nat.eqb (length els) (length els')) then Return false
      else
        b ← (fix loop (l l' : list Element) {struct l} : Outcome bool :=
               match l, l' with
               | e :: r, e' :: r' =>
                   b ← match e, e' with
                       | EJob j, EJob j' => Job_attributs_equal j j'
                       | EGroup g, EGroup g' => Group_attributs_equal g g'
                       | _, _ => Return false
                       end;
                   if (b : bool) then loop r r' else Return false
               | _, _ => Return true
               end) els els';
        if (b : bool) then Return (String.eqb name name') else Return false
  end.

Definition Element_attributs_equal (e e' : Element) : Outcome bool :=
  match e, e' with
  | EJob j, EJob j' => Job_attributs_equal j j'
  | EGroup g, EGroup g' => Group_attributs_equal g g'
  | _, _ => Return false
  end.

(** The loop over one of the sequences of [Workflow.attributs_equal]. *)
Fixpoint sequence_equal {A} (item_equal : A -> A -> Outcome bool)
    (attr other_attr : list A) : Outcome bool :=
  match attr, other_attr with
  | x :: r, y :: r' =>
      b ← item_equal x y;
      if (b : bool) then sequence_equal item_equal r r' else Return false
  | _, _ => Return true
  end.

Definition sequences_equal {A} (item_equal : A -> A -> Outcome bool)
    (attr other_attr : list A) : Outcome bool :=
  if negb (Nat.eqb (length attr) (length other_attr)) then Return false
  else sequence_equal item_equal attr other_attr.

(** The comparison of two dependencies: both are pairs, whose first and then
    second elements are compared. *)
Definition Dependency_attributs_equal (d d' : Dependency) : Outcome bool :=
  b ← Element_attributs_equal (fst d) (fst d');
  if (b : bool) then Element_attributs_equal (snd d) (snd d') else Return false.

(** [Workflow.attributs_equal] *)
Definition Workflow_attributs_equal (self other : Workflow) : Outcome bool :=
  b1 ← sequences_equal Job_attributs_equal (jobs self) (jobs other);
  if negb (b1 : bool) then Return false else
  b2 ← sequences_equal Dependency_attributs_equal (dependencies self)
         (dependencies other);
  if negb (b2 : bool) then Return false else
  b3 ← sequences_equal Element_attributs_equal (root_group self)
         (root_group other);
  if negb (b3 : bool) then Return false else
  b4 ← sequences_equal Group_attributs_equal (groups self) (groups other);
  if negb (b4 : bool) then Return false else
  Return (bool_decide (wf_name self = wf_name other)).

(** [Workflow.from_dict(w.to_dict())] compared with [w]. *)
Definition round_trip_equal (python3 : bool) (next : nat) (w : Workflow)
  : Outcome bool :=
  d ← Workflow_to_dict w;
  r ← Workflow_from_dict python3 next d;
  Workflow_attributs_equal w (fst r).

(** * The job scheduler front end ([jobScheduler.py]) *)

(** ** The job server *)

(** Modelled from the spec: what the job server
    ([soma.jobs.jobServer.JobServer], the state store of the specification,
    which is not among the sources) records of a job: its owner, its status,
    its exit information, the paths of its standard output and error files,
    whether the two streams are joined, and the transfers it references. *)
Record JobInfo : Type := mkJobInfo {
  ji_owner : nat;
  ji_status : string;
  ji_exit_information : string * option Z * option string * string;
  ji_stdout_path : string;
  ji_stderr_path : option string;
  ji_err_out_joined : bool;
  ji_referenced_files : list string
}.

(** Modelled from the spec: what the job server records of a transfer: its
    owner, the client-side path and the expiration date. *)
Record TransferInfo : Type := mkTransferInfo {
  ti_owner : nat;
  ti_remote_file_path : string;
  ti_expiration_date : Z
}.

(** Modelled from the spec: the job server, which is not among the sources:
    the record of the jobs, by identifier, and of the transfers, by
    server-side path. *)
Record JobServer : Type := mkJobServer {
  server_jobs : gmap nat JobInfo;
  server_transfers : gmap string TransferInfo
}.

(** Modelled from the spec: [JobServer.isUserJob], true when the job is
    recorded and the user owns it. *)
Definition isUserJob (s : JobServer) (job_id user_id : nat) : bool :=
  match server_jobs s !! job_id with
  | Some info => Nat.eqb (ji_owner info) user_id
  | None => false
  end.

(** Modelled from the spec: [JobServer.isUserTransfer], true when the
    transfer is recorded and the user owns it. *)
Definition isUserTransfer (s : JobServer) (local_file_path : string)
    (user_id : nat) : bool :=
  match server_transfers s !! local_file_path with
  | Some info => Nat.eqb (ti_owner info) user_id
  | None => false
  end.

(** Modelled from the spec: [JobServer.removeTransferASAP], which marks the
    expiration date of the transfer as now. *)
Definition removeTransferASAP (s : JobServer) (local_file_path : string)
    (now : Z) : JobServer :=
  {| server_jobs := server_jobs s;
     server_transfers :=
       alter (fun info => {| ti_owner := ti_owner info;
                             ti_remote_file_path := ti_remote_file_path info;
                             ti_expiration_date := now |})
         local_file_path (server_transfers s) |}.

(** Modelled from the spec: the reference count of a transfer, the number of
    recorded jobs that reference it. *)
Definition reference_count (s : JobServer) (local_file_path : string) : nat :=
  length (filter (fun kv : nat * JobInfo =>
                    local_file_path ∈ ji_referenced_files (snd kv))
            (map_to_list (server_jobs s))).

(** Modelled from the spec: the test of the sweeper, which is not among the
    sources: at the date [now] a transfer is deleted when its expiration date
    has passed and its reference count is zero. *)
Definition swept (s : JobServer) (now : Z) (local_file_path : string)
    (info : TransferInfo) : bool :=
  (ti_expiration_date info <=? now)
  && Nat.eqb (reference_count s local_file_path) 0.

(** ** The world of a job scheduler *)

(** An open file object: its name and the number of lines read so far. *)
Record FileObj : Type := mkFileObj {
  file_name : string;
  file_position : nat
}.

(** A call received by the DRMAA job scheduler, an external collaborator to
    which the front end delegates. *)
Inductive DrmaaCall : Type :=
| DrmaaCustomSubmit (command : list string)
| DrmaaSubmit (command : list string)
| DrmaaSubmitWithTransfer (command : list string)
    (required_local_input_files required_local_output_file : list string)
| DrmaaDispose (job_id : nat)
| DrmaaWait (job_ids : list nat) (timeout : Z)
| DrmaaStop (job_id : nat)
| DrmaaRestart (job_id : nat)
| DrmaaKill (job_id : nat).

(** The state a call of a method of [JobScheduler] runs in: the job server,
    the files of the shared file system (as lists of lines), the attributes
    of the scheduler object, the calls received by the DRMAA job scheduler
    and the identifier it returns for the next submitted job, the current
    date, the files opened so far and the text printed so far. *)
Record World : Type := mkWorld {
  job_server : JobServer;
  files : gmap string (list string);
  user_id : nat;
  fileToRead : option FileObj;
  fileToWrite : option FileObj;
  stdoutFileToRead : option FileObj;
  stderrFileToRead : option FileObj;
  drmaa_calls : list DrmaaCall;
  drmaa_next_job : nat;
  today : Z;
  opened : list string;
  console : list string
}.

(** The part of the world that is not printed text. *)
Definition without_console (w : World) : World :=
  {| job_server := job_server w; files := files w; user_id := user_id w;
     fileToRead := fileToRead w; fileToWrite := fileToWrite w;
     stdoutFileToRead := stdoutFileToRead w;
     stderrFileToRead := stderrFileToRead w;
     drmaa_calls := drmaa_calls w; drmaa_next_job := drmaa_next_job w;
     today := today w; opened := opened w; console := [] |}.

(** A method of the scheduler: from the world before the call to the outcome
    of the call and the world after it. *)
Definition Method (A : Type) : Type := World -> Outcome A * World.

Definition ret {A} (a : A) : Method A := fun w => (Return a, w).

Definition bind {A B} (m : Method A) (f : A -> Method B) : Method B := fun w =>
  match m w with
  | (Return a, w') => f a w'
  | (Raise e, w') => (Raise e, w')
  | (OutOfFuel, w') => (OutOfFuel, w')
  end.

Declare Scope method_scope.
Delimit Scope method_scope with method.
Bind Scope method_scope with Method.
Notation "x <- m ;; k" := (bind m (fun x => k))
  (at level 100, m at next level, right associativity) : method_scope.
Notation "m ;; k" := (bind m (fun _ => k))
  (at level 100, right associativity) : method_scope.
Local Open Scope method_scope.

Definition raise {A} (e : Exn) : Method A := fun w => (Raise e, w).

(** [print text].  The texts of the model leave the identifier and the end
    of line of the printed messages out. *)
Definition print (text : string) : Method unit := fun w =>
  (Return tt,
   {| job_server := job_server w; files := files w; user_id := user_id w;
      fileToRead := fileToRead w; fileToWrite := fileToWrite w;
      stdoutFileToRead := stdoutFileToRead w;
      stderrFileToRead := stderrFileToRead w;
      drmaa_calls := drmaa_calls w; drmaa_next_job := drmaa_next_job w;
      today := today w; opened := opened w;
      console := console w ++ [text] |}).

(** The two collaborators that [JobScheduler.__init__] stores on [self]. *)
Inductive Collaborator : Type :=
| TheJobServer
| TheDrmaaJS.

(** [self.<name>] for a collaborator.  Inside the class a name [__x] stands
    for [_JobScheduler__x]; the constructor assigns [__jobServer] and
    [__drmaaJS], and every other name raises [AttributeError]. *)
Definition self_attr (name : string) : Method Collaborator := fun w =>
  if String.eqb name "_JobScheduler__jobServer" then (Return TheJobServer, w)
  else if String.eqb name "_JobScheduler__drmaaJS" then (Return TheDrmaaJS, w)
  else (Raise AttributeError, w).

(** A method of the job server called on a collaborator. *)
Definition on_server {A} (c : Collaborator) (query : JobServer -> A)
  : Method A := fun w =>
  match c with
  | TheJobServer => (Return (query (job_server w)), w)
  | TheDrmaaJS => (Raise AttributeError, w)
  end.

Definition update_server (c : Collaborator) (f : JobServer -> JobServer)
  : Method unit := fun w =>
  match c with
  | TheJobServer =>
      (Return tt,
       {| job_server := f (job_server w); files := files w;
          user_id := user_id w;
          fileToRead := fileToRead w; fileToWrite := fileToWrite w;
          stdoutFileToRead := stdoutFileToRead w;
          stderrFileToRead := stderrFileToRead w;
          drmaa_calls := drmaa_calls w; drmaa_next_job := drmaa_next_job w;
          today := today w; opened := opened w; console := console w |})
  | TheDrmaaJS => (Raise AttributeError, w)
  end.

(** A method of the DRMAA job scheduler called on a collaborator: the call
    is received by the DRMAA job scheduler. *)
Definition on_drmaa (c : Collaborator) (call : DrmaaCall) : Method unit :=
  fun w =>
  match c with
  | TheDrmaaJS =>
      (Return tt,
       {| job_server := job_server w; files := files w; user_id := user_id w;
          fileToRead := fileToRead w; fileToWrite := fileToWrite w;
          stdoutFileToRead := stdoutFileToRead w;
          stderrFileToRead := stderrFileToRead w;
          drmaa_calls := drmaa_calls w ++ [call];
          drmaa_next_job := drmaa_next_job w;
          today := today w; opened := opened w; console := console w |})
  | TheJobServer => (Raise AttributeError, w)
  end.

(** A submission method of the DRMAA job scheduler: the call is received and
    the identifier of the new job is returned. *)
Definition drmaa_submit (c : Collaborator) (call : DrmaaCall) : Method nat :=
  fun w =>
  match c with
  | TheDrmaaJS =>
      (Return (drmaa_next_job w),
       {| job_server := job_server w; files := files w; user_id := user_id w;
          fileToRead := fileToRead w; fileToWrite := fileToWrite w;
          stdoutFileToRead := stdoutFileToRead w;
          stderrFileToRead := stderrFileToRead w;
          drmaa_calls := drmaa_calls w ++ [call];
          drmaa_next_job := S (drmaa_next_job w);
          today := today w; opened := opened w; console := console w |})
  | TheJobServer => (Raise AttributeError, w)
  end.

(** [self.__user_id] *)
Definition get_user_id : Method nat := fun w => (Return (user_id w), w).

(** [open(path, 'rt')] and [open(path)]: a file that does not exist raises
    [IOError]. *)
Definition open_read (path : string) : Method FileObj := fun w =>
  match files w !! path with
  | None => (Raise IOError, w)
  | Some _ =>
      (Return {| file_name := path; file_position := 0 |},
       {| job_server := job_server w; files := files w; user_id := user_id w;
          fileToRead := fileToRead w; fileToWrite := fileToWrite w;
          stdoutFileToRead := stdoutFileToRead w;
          stderrFileToRead := stderrFileToRead w;
          drmaa_calls := drmaa_calls w; drmaa_next_job := drmaa_next_job w;
          today := today w; opened := opened w ++ [path];
          console := console w |})
  end.

(** [f.readline()]: the next line of the file, or the empty string at the
    end of the file. *)
Definition line_at (w : World) (f : FileObj) : string :=
  default "" (default [] (files w !! file_name f) !! file_position f).

Definition advance (f : FileObj) : FileObj :=
  {| file_name := file_name f; file_position := S (file_position f) |}.

(** [if not self.__x or not self.__x.name == path: self.__x = open(path, 'rt')]:
    the file object to read from. *)
Definition reader (cached : option FileObj) (path : string) : Method FileObj :=
  match cached with
  | Some f => if String.eqb (file_name f) path then ret f else open_read path
  | None => open_read path
  end.

Definition set_stdoutFileToRead (f : option FileObj) : Method unit := fun w =>
  (Return tt,
   {| job_server := job_server w; files := files w; user_id := user_id w;
      fileToRead := fileToRead w; fileToWrite := fileToWrite w;
      stdoutFileToRead := f;
      stderrFileToRead := stderrFileToRead w;
      drmaa_calls := drmaa_calls w; drmaa_next_job := drmaa_next_job w;
      today := today w; opened := opened w; console := console w |}).

Definition set_stderrFileToRead (f : option FileObj) : Method unit := fun w =>
  (Return tt,
   {| job_server := job_server w; files := files w; user_id := user_id w;
      fileToRead := fileToRead w; fileToWrite := fileToWrite w;
      stdoutFileToRead := stdoutFileToRead w;
      stderrFileToRead := f;
      drmaa_calls := drmaa_calls w; drmaa_next_job := drmaa_next_job w;
      today := today w; opened := opened w; console := console w |}).

Definition get_world : Method World := fun w => (Return w, w).

(** Modelled from the spec: [JobServer.getJobStatus].  For a job that the
    record does not have, this query and the next ones have nothing to
    return. *)
Definition getJobStatus (s : JobServer) (job_id : nat) : option string :=
  ji_status <$> server_jobs s !! job_id.

(** Modelled from the spec: [JobServer.getExitInformation], the exit status,
    the exit value, the terminating signal and the resource usage. *)
Definition getExitInformation (s : JobServer) (job_id : nat)
  : option (string * option Z * option string * string) :=
  ji_exit_information <$> server_jobs s !! job_id.

(** Modelled from the spec: [JobServer.getStdOutErrFilePath]. *)
Definition getStdOutErrFilePath (s : JobServer) (job_id : nat)
  : option (string * option string) :=
  (fun info => (ji_stdout_path info, ji_stderr_path info))
    <$> server_jobs s !! job_id.

(** Modelled from the spec: [JobServer.areErrOutJoined]. *)
Definition areErrOutJoined (s : JobServer) (job_id : nat) : bool :=
  match server_jobs s !! job_id with
  | Some info => ji_err_out_joined info
  | None => false
  end.

(** Modelled from the spec: [JobServer.getTransferInformation], the
    server-side path, the client-side path and the expiration date. *)
Definition getTransferInformation_server (s : JobServer)
    (local_file_path : string) : option (string * string * Z) :=
  (fun info => (local_file_path, ti_remote_file_path info,
                ti_expiration_date info))
    <$> server_transfers s !! local_file_path.

(** [a, b = value]: taking apart what the job server returned, which fails
    with [TypeError] when there is nothing to take apart. *)
Definition unpack {A} (value : option A) : Method A :=
  match value with
  | Some a => ret a
  | None => raise TypeError
  end.

(** ** The methods of [JobScheduler] *)

(** [self.<server>.isUserJob(job_id, self.__user_id)], for the attribute name
    written at the call. *)
Definition call_isUserJob (server : string) (job_id : nat) : Method bool :=
  c <- self_attr server;;
  u <- get_user_id;;
  on_server c (fun s => isUserJob s job_id u).

Definition call_isUserTransfer (server : string) (local_file_path : string)
  : Method bool :=
  c <- self_attr server;;
  u <- get_user_id;;
  on_server c (fun s => isUserTransfer s local_file_path u).

(** [JobScheduler.cancelTransfer] *)
Definition cancelTransfer (local_file_path : string) : Method unit :=
  owned <- call_isUserTransfer "_JobScheduler__jobServer" local_file_path;;
  if negb owned
  then print "Couldn't cancel transfer. It doesn't exist or is not owned by the current user"
  else
    c <- self_attr "_JobScheduler__jobServer";;
    w <- get_world;;
    update_server c (fun s => removeTransferASAP s local_file_path (today w)).

(** [JobScheduler.customSubmit].  Of the arguments of the three submission
    methods the model keeps the command and the lists of transferred files;
    the other arguments are handed to the DRMAA job scheduler as they are. *)
Definition customSubmit (command : list string) : Method nat :=
  if Nat.eqb (length command) 0 then raise JobSchedulerError
  else
    c <- self_attr "_drmaaJS";;
    drmaa_submit c (DrmaaCustomSubmit command).

(** [JobScheduler.submit] *)
Definition submit (command : list string) : Method nat :=
  if Nat.eqb (length command) 0 then raise JobSchedulerError
  else
    c <- self_attr "_drmaaJS";;
    drmaa_submit c (DrmaaSubmit command).


(** [JobScheduler.dispose] *)
Definition dispose (job_id : nat) : Method unit :=
  owned <- call_isUserJob "_JobScheduler__jobServer" job_id;;
  if negb owned
  then print "Couldn't dispose job. It doesn't exist or is not owned by the current user"
  else
    c <- self_attr "_JobScheduler__drmaaJS";;
    on_drmaa c (DrmaaDispose job_id).

(** [JobScheduler.getTransferInformation] *)
Definition getTransferInformation (local_file_path : string)
  : Method (option (string * string * Z)) :=
  owned <- call_isUserTransfer "_JobScheduler__jobServer" local_file_path;;
  if negb owned
  then print "Couldn't get transfer information. It doesn't exist or is owned by a different user";;
       ret None
  else
    c <- self_attr "_JobScheduler__jobServer";;
    on_server c (fun s => getTransferInformation_server s local_file_path).

(** [JobScheduler.status] *)
Definition status (job_id : nat) : Method (option string) :=
  owned <- call_isUserJob "_JobScheduler__jobServer" job_id;;
  if negb owned
  then print "Could get the job status of job. It doesn't exist or is owned by a different user";;
       ret None
  else
    c <- self_attr "_JobScheduler__jobServer";;
    on_server c (fun s => getJobStatus s job_id).

(** [JobScheduler.exitInformation] *)
Definition exitInformation (job_id : nat)
  : Method (option (string * option Z * option string)) :=
  owned <- call_isUserJob "_JobScheduler__jobServer" job_id;;
  if negb owned
  then print "Could get the retured value of job. It doesn't exist or is owned by a different user";;
       ret None
  else
    c <- self_attr "_JobScheduler__jobServer";;
    info <- on_server c (fun s => getExitInformation s job_id);;
    r <- unpack info;;
    ret (Some (fst (fst (fst r)), snd (fst (fst r)), snd (fst r))).

(** [JobScheduler.stdoutReadLine] *)
Definition stdoutReadLine (job_id : nat) : Method (option string) :=
  owned <- call_isUserJob "_JobScheduler__jobServer" job_id;;
  if negb owned
  then print "Could get not read std output for the job. It doesn't exist or is owned by a different user";;
       ret None
  else
    c <- self_attr "_JobScheduler__jobServer";;
    paths <- on_server c (fun s => getStdOutErrFilePath s job_id);;
    r <- unpack paths;;
    let (stdout_path, stderr_path) := r : string * option string in
    w <- get_world;;
    f <- reader (stdoutFileToRead w) stdout_path;;
    set_stdoutFileToRead (Some (advance f));;
    ret (Some (line_at w f)).

(** [JobScheduler.stderrReadLine].  The test of ownership reads the attribute
    [__jobserver], and has no [not]. *)
Definition stderrReadLine (job_id : nat) : Method (option string) :=
  owned <- call_isUserJob "_JobScheduler__jobserver" job_id;;
  if owned
  then set_stderrFileToRead None;;
       print "Could get not read std output for the job. It doesn't exist or is owned by a different user";;
       ret None
  else
    c <- self_attr "_JobScheduler__jobServer";;
    paths <- on_server c (fun s => getStdOutErrFilePath s job_id);;
    r <- unpack paths;;
    let (stdout_path, stderr_path) := r : string * option string in
    match stderr_path with
    | None => set_stderrFileToRead None;; ret None
    | Some path =>
        if String.eqb path ""
        then set_stderrFileToRead None;; ret None
        else
          w <- get_world;;
          f <- reader (stderrFileToRead w) path;;
          set_stderrFileToRead (Some (advance f));;
          ret (Some (line_at w f))
    end.

(** [JobScheduler.output], which tests no ownership. *)
Definition output (job_id : nat) : Method FileObj :=
  c <- self_attr "_JobScheduler__jobServer";;
  paths <- on_server c (fun s => getStdOutErrFilePath s job_id);;
  r <- unpack paths;;
    let (stdout_path, stderr_path) := r : string * option string in
  open_read stdout_path.

(** [JobScheduler.errorOutput], which tests no ownership. *)
Definition errorOutput (job_id : nat) : Method (option FileObj) :=
  c <- self_attr "_JobScheduler__jobServer";;
  joined <- on_server c (fun s => areErrOutJoined s job_id);;
  if joined then ret None
  else
    c <- self_attr "_JobScheduler__jobServer";;
    paths <- on_server c (fun s => getStdOutErrFilePath s job_id);;
    r <- unpack paths;;
    let (stdout_path, stderr_path) := r : string * option string in
    match stderr_path with
    | None => raise TypeError
    | Some path => f <- open_read path;; ret (Some f)
    end.

(** The loop [for jid in job_ids:] of [JobScheduler.wait]. *)
Fixpoint check_jobs (job_ids : list nat) : Method unit :=
  match job_ids with
  | [] => ret tt
  | jid :: rest =>
      owned <- call_isUserJob "_JobScheduler__jobServer" jid;;
      if negb owned then raise JobSchedulerError else check_jobs rest
  end.

(** [JobScheduler.wait] *)
Definition wait (job_ids : list nat) (timeout : Z) : Method unit :=
  check_jobs job_ids;;
  c <- self_attr "_JobScheduler__drmaaJS";;
  on_drmaa c (DrmaaWait job_ids timeout).

(** [JobScheduler.stop] *)
Definition stop (job_id : nat) : Method unit :=
  owned <- call_isUserJob "_JobScheduler__jobServer" job_id;;
  if negb owned then raise JobSchedulerError
  else c <- self_attr "_JobScheduler__drmaaJS";; on_drmaa c (DrmaaStop job_id).

(** [JobScheduler.restart] *)
Definition restart (job_id : nat) : Method unit :=
  owned <- call_isUserJob "_JobScheduler__jobServer" job_id;;
  if negb owned then raise JobSchedulerError
  else c <- self_attr "_JobScheduler__drmaaJS";; on_drmaa c (DrmaaRestart job_id).

(** [JobScheduler.kill] *)
Definition kill (job_id : nat) : Method unit :=
  owned <- call_isUserJob "_JobScheduler__jobServer" job_id;;
  if negb owned then raise JobSchedulerError
  else c <- self_attr "_JobScheduler__drmaaJS";; on_drmaa c (DrmaaKill job_id).

(** ** The sweeper *)

(** Modelled from the spec: the expiration sweeper, which is not among the
    sources.  At the date [now] it deletes the server-side file of every
    transfer whose expiration date has passed and whose reference count is
    zero, and forgets these transfers. *)
Definition sweep (now : Z) (w : World) : World :=
  let s := job_server w in
  let gone := filter (fun kv : string * TransferInfo =>
                        swept s now (fst kv) (snd kv) = true)
                (server_transfers s) in
  {| job_server :=
       {| server_jobs := server_jobs s;
          server_transfers := server_transfers s ∖ gone |};
     files := filter (fun kv : string * list string => gone !! fst kv = None)
                (files w);
     user_id := user_id w;
     fileToRead := fileToRead w; fileToWrite := fileToWrite w;
     stdoutFileToRead := stdoutFileToRead w;
     stderrFileToRead := stderrFileToRead w;
     drmaa_calls := drmaa_calls w; drmaa_next_job := drmaa_next_job w;
     today := today w; opened := opened w; console := console w |}.

(** ** Vocabulary of the statements about the conversion *)

(** The groups of the hierarchy under a group, itself included. *)
Fixpoint all_groups (g : Group) : list Group :=
  match g with
  | mkGroup _ _ els =>
      g :: (fix under (l : list Element) : list Group :=
              match l with
              | [] => []
              | EJob _ :: r => under r
              | EGroup s :: r => all_groups s ++ under r
              end) els
  end.

(** The groups reached from an end of a dependency. *)
Definition endpoint_groups (e : Element) : list Group :=
  match e with
  | EGroup g => all_groups g
  | EJob _ => []
  end.

(** The groups reached from the dependencies: the groups at the ends of the
    edges and the groups under them. *)
Definition dep_groups (deps : list Dependency) : list Group :=
  flat_map (fun d => endpoint_groups (fst d) ++ endpoint_groups (snd d)) deps.

(** Identities identify objects: two groups with the same identity are the
    same group. *)
Definition oids_identify (gs : list Group) : Prop :=
  forall g1 g2, g1 ∈ gs -> g2 ∈ gs -> group_oid g1 = group_oid g2 -> g1 = g2.

(** An edge with a group at one of its ends. *)
Definition has_group (d : Dependency) : bool :=
  is_Group (fst d) || is_Group (snd d).

(** What stands for the element at the tail of an edge once the groups have
    hubs: a job stands for itself, a group is replaced with its output hub. *)
Definition source_end (d : list (Group * Hubs)) (e : Element) : option Element :=
  match e with
  | EJob _ => Some e
  | EGroup g => option_map (fun h : Hubs => EJob (snd h)) (hub_get g d)
  end.

(** What stands for the element at the head of an edge: a job stands for
    itself, a group is replaced with its input hub. *)
Definition target_end (d : list (Group * Hubs)) (e : Element) : option Element :=
  match e with
  | EJob _ => Some e
  | EGroup g => option_map (fun h : Hubs => EJob (fst h)) (hub_get g d)
  end.

Definition rewritten (d : list (Group * Hubs)) (dep : Dependency)
  : option Dependency :=
  match source_end d (fst dep), target_end d (snd dep) with
  | Some a, Some b => Some (a, b)
  | _, _ => None
  end.

(** The pair of barrier jobs allocated for the [i]-th group that receives
    hubs, when the first allocated object has the identity [next]. *)
Definition hubs_at (next : nat) (i : nat) (k : Group) : Hubs :=
  (BarrierJob_init (next + 2 * i) None None (VStr (group_name k +:+ "_input")),
   BarrierJob_init (S (next + 2 * i)) None None
     (VStr (group_name k +:+ "_output"))).

(** The barrier jobs of a dictionary of hubs, in allocation order. *)
Definition hub_jobs (d : list (Group * Hubs)) : list Job :=
  flat_map (fun kv : Group * Hubs => [fst (snd kv); snd (snd kv)]) d.

(** The links between the hubs of a group and its members. *)
Definition member_links (d : list (Group * Hubs)) (k : Group) (h : Hubs)
  : list Dependency :=
  flat_map
    (fun item =>
       match item with
       | EJob _ => [(EJob (fst h), item); (item, EJob (snd h))]
       | EGroup s =>
           match hub_get s d with
           | Some sub => [(EJob (fst h), EJob (fst sub));
                          (EJob (snd sub), EJob (snd h))]
           | None => []
           end
       end)
    (elements k).

(** The state of the conversion started on [self0] with [next0] as the next
    identity: the hubs are the barrier jobs allocated from [next0] on, in the
    order of the dictionary, they are appended to the jobs of the workflow,
    every key of the dictionary is found under its own identity, and the keys
    are groups of [U]. *)
Record hubs_inv (self0 : Workflow) (next0 : nat) (U : list Group) (cv : Conv)
  : Prop := mkHubsInv {
  inv_self :
    cv_self cv = set_jobs (jobs self0 ++ hub_jobs (group_to_hub cv)) self0;
  inv_next : next_oid cv = (next0 + 2 * length (group_to_hub cv))%nat;
  inv_hubs :
    forall i k h, group_to_hub cv !! i = Some (k, h) -> h = hubs_at next0 i k;
  inv_get :
    forall k h, (k, h) ∈ group_to_hub cv -> hub_get k (group_to_hub cv) = Some h;
  inv_keys : forall k h, (k, h) ∈ group_to_hub cv -> k ∈ U
}.

(** Every group under a key of the dictionary has hubs or waits in [work]. *)
Definition closed_upto (work : list Group) (d : list (Group * Hubs)) : Prop :=
  forall k h s,
    (k, h) ∈ d -> s ∈ sub_groups (elements k) ->
    is_Some (hub_get s d) \/ s ∈ work.

(** The positions, counted from [index], of the edges with a group at one of
    their ends. *)
Fixpoint group_indices (index : nat) (deps : list Dependency) : list nat :=
  match deps with
  | [] => []
  | d :: r =>
      (if has_group d then [index] else []) ++ group_indices (S index) r
  end.

(** The state of the local variables of the conversion between two rounds of
    its first loop. *)
Definition locals_inv (self0 : Workflow) (next0 : nat) (U : list Group)
    (st : ConvLocals) : Prop :=
  hubs_inv self0 next0 U (cl_conv st)
  /\ closed_upto [] (group_to_hub (cl_conv st))
  /\ (forall x, x ∈ new_deps_list st -> has_group x = false).

(** ** Vocabulary of the statements about the special paths *)

(** [str(parent_path)] for the argument of [OptionPath.__init__]. *)
Definition ParentArg_str (p : ParentArg) : option string :=
  match p with
  | ArgNone => Some "None"
  | ArgStr s => Some s
  | ArgSpecial q => SpecialPath_str q
  end.

(** The URI string of a dictionary of options, after the words of the
    documentation: a question mark, then the [key=value] pairs separated by
    ampersands. *)
Definition dict_uri (items : list (string * string)) : string :=
  "?" +:+ String.concat "&" (map (fun kv => fst kv +:+ "=" +:+ snd kv) items).

(** The URI an [OptionPath] is asked to carry: the string itself, or the URI
    string of the dictionary. *)
Definition given_uri (uri : UriArg) : option string :=
  match uri with
  | UriStr s => Some s
  | UriDict items => Some (dict_uri items)
  | UriNone => None
  end.

(** ** A workflow with a group (scenario S4 of the specification) *)

Definition plain_job (self : nat) (command : list PyVal) : Job :=
  Job_init false self command None None VNone false 168 VNone VNone VNone VNone
    None 0 None.

Definition job_X : Job := plain_job 1 [VStr "x"].
Definition job_Y : Job := plain_job 2 [VStr "y"].
Definition job_Z : Job := plain_job 3 [VStr "z"].
Definition job_W : Job := plain_job 4 [VStr "w"].
Definition group_G : Group :=
  Group_init 5 [EJob job_X; EJob job_Y; EJob job_Z] "G".

(** [Workflow([X, Y, Z, W], dependencies=[(G, W)])], where the next object
    receives the identity 6. *)
Definition fan_in_workflow : Outcome (Workflow * nat) :=
  Workflow_init 6 [job_X; job_Y; job_Z; job_W] (Some [(EGroup group_G, EJob job_W)])
    None 168 None.

(** ** A workflow with an option path on a file transfer *)

(** [ft = FileTransfer(True, "/in"); opt = OptionPath(ft, "?a=1");
    job = Job(["cat", opt], referenced_input_files=[ft]);
    Workflow([job])], where the transfer, the option path and the job
    receive the identities 1 to 3 and the next object the identity 4. *)
Definition option_path_workflow : Outcome (Workflow * nat) :=
  ft ← FileTransfer_init 1 (VBool true) (Some "/in") 168 None None;
  opt ← OptionPath_init 2 (ArgSpecial (FileTransfer ft)) (UriStr "?a=1") None;
  let job :=
    Job_init false 3 [VStr "cat"; VPath (OptionPath opt)]
      (Some [VPath (FileTransfer ft)]) None VNone false 168 VNone VNone VNone
      VNone None 0 None in
  Workflow_init 4 [job] None None 168 None.

(** [w.attributs_equal(Workflow.from_dict(w.to_dict()))] on that workflow. *)
Definition option_path_round_trip (python3 : bool) : Outcome bool :=
  r ← option_path_workflow;
  round_trip_equal python3 (snd r) (fst r).

(** The same on the workflow of scenario S4. *)
Definition fan_in_round_trip (python3 : bool) : Outcome bool :=
  r ← fan_in_workflow;
  round_trip_equal python3 (snd r) (fst r).

(** ** Vocabulary of the statements about the job scheduler *)


(** ** Two users of a job scheduler *)

(** Job 7 belongs to user 2 and references the transfer ["/pool/in"], which
    user 1 owns; the caller is user 1. *)
Definition other_job : JobInfo :=
  {| ji_owner := 2;
     ji_status := "done";
     ji_exit_information := ("finished_regularly", Some 0, None, "");
     ji_stdout_path := "/out/7";
     ji_stderr_path := Some "/err/7";
     ji_err_out_joined := false;
     ji_referenced_files := ["/pool/in"] |}.

Definition two_users_world : World :=
  {| job_server :=
       {| server_jobs := {[ 7%nat := other_job ]};
          server_transfers :=
            {[ "/pool/in" := {| ti_owner := 1; ti_remote_file_path := "/home/in";
                                ti_expiration_date := 100 |} ]} |};
     files := <[ "/out/7" := ["secret"] ]>
                (<[ "/err/7" := ["oops"] ]> {[ "/pool/in" := ["data"] ]});
     user_id := 1;
     fileToRead := None;
     fileToWrite := None;
     stdoutFileToRead := None;
     stderrFileToRead := None;
     drmaa_calls := [];
     drmaa_next_job := 8;
     today := 10;
     opened := [];
     console := [] |}.

(** ** Further examples *)

(** The workflow of scenario S4 as [Workflow.__init__] hands it to the
    conversion, and the expanded workflow with the next identity. *)
Definition fan_in_start : Workflow :=
  {| wf_name := None;
     jobs := [job_X; job_Y; job_Z; job_W];
     dependencies := [(EGroup group_G, EJob job_W)];
     root_group := [];
     groups := [];
     wf_disposal_timeout := 168 |}.

Definition fan_in_expanded : Workflow * nat :=
  Eval vm_compute in
    match convert_group_dependencies None fan_in_start 6 with
    | Return r => r
    | _ => (fan_in_start, 6%nat)
    end.

(** [FileTransfer(True, "/in")] with the identity 1. *)
Definition input_transfer : FileTransferObj :=
  {| ft_head := fresh_head 1;
     client_path := "/in";
     client_paths := None;
     initial_status := FILES_ON_CLIENT;
     ft_disposal_timeout := 168;
     ft_name := "/intransfer" |}.

(** * Further code of the two modules *)

(** ** Adding dependencies to a workflow *)






(** ** Workflows without special paths *)

(** A value that holds no special path: [None], a boolean, an integer or a
    string. *)
Definition scalar (v : PyVal) : bool :=
  match v with
  | VNone | VBool _ | VInt _ | VStr _ => true
  | _ => false
  end.

(** A value of an optional attribute that [Job.to_dict] and [Job.from_dict]
    keep: [None], which is the default, or a scalar that is true. *)
Definition kept_scalar (v : PyVal) : bool :=
  match v with
  | VNone => true
  | _ => scalar v && truthy v
  end.

(** A job whose attributes hold no special path. *)
Definition plain_attributes (j : Job) : bool :=
  forallb scalar (command j)
  && forallb scalar (referenced_input_files j)
  && forallb scalar (referenced_output_files j)
  && scalar (job_name j)
  && kept_scalar (stdin j) && kept_scalar (stdout_file j)
  && kept_scalar (stderr_file j) && kept_scalar (working_directory j).

(** [v is None] *)
Definition is_VNone (v : PyVal) : bool :=
  match v with
  | VNone => true
  | _ => false
  end.

(** A barrier job has the attributes that [BarrierJob.__init__] leaves to
    their defaults. *)
Definition barrier_defaults (j : Job) : bool :=
  negb (is_BarrierJob j)
  || (Nat.eqb (length (command j)) 0
      && is_VNone (stdin j)
      && negb (join_stderrout j)
      && is_VNone (stdout_file j)
      && is_VNone (stderr_file j)
      && is_VNone (working_directory j)
      && bool_decide (parallel_job_info j = None)
      && (priority j =? 0)%Z
      && bool_decide (native_specification j = None)).

(** A workflow as [Workflow(jobs, dependencies)] leaves it when nothing
    holds a special path: the jobs are different objects, the jobs that are
    not barrier jobs come first, the dependencies link jobs of the workflow,
    the root group is the list of the jobs and there is no group. *)
Record plain_workflow (w : Workflow) : Prop := mkPlainWorkflow {
  plain_oids : NoDup (map job_oid (jobs w));
  plain_jobs :
    forall j, j ∈ jobs w ->
      plain_attributes j = true /\ barrier_defaults j = true;
  plain_order :
    jobs w = List.filter (fun j => negb (is_BarrierJob j)) (jobs w)
             ++ List.filter is_BarrierJob (jobs w);
  plain_dependencies :
    forall a b, (a, b) ∈ dependencies w ->
      exists ja jb, a = EJob ja /\ b = EJob jb /\ ja ∈ jobs w /\ jb ∈ jobs w;
  plain_root_group : root_group w = map EJob (jobs w);
  plain_groups : groups w = []
}.

(** *** Vocabulary of the proofs about the dictionaries *)

(** The objects of a list with the identifiers that the generator gives them
    from [start] on. *)
Fixpoint numbered {A} (start : nat) (l : list A) : list (A * nat) :=
  match l with
  | [] => []
  | x :: r => (x, start) :: numbered (S start) r
  end.

(** What [if value: d[key] = value] records. *)
Definition if_set (v : PyVal) : option PyVal :=
  if truthy v then Some v else None.

Definition list_if_set (l : list PyVal) : option (list PyVal) :=
  match l with
  | [] => None
  | _ :: _ => Some l
  end.

(** The dictionary of a job that holds no special path. *)
Definition plain_job_dict (j : Job) : JobDict :=
  if is_BarrierJob j
  then {| jd_name := Some (job_name j);
          jd_join_stderrout := None;
          jd_priority := None;
          jd_native_specification := None;
          jd_parallel_job_info := None;
          jd_disposal_timeout := Some (job_disposal_timeout j);
          jd_command := None;
          jd_referenced_input_files := list_if_set (referenced_input_files j);
          jd_referenced_output_files := list_if_set (referenced_output_files j);
          jd_stdin := None;
          jd_stdout_file := None;
          jd_stderr_file := None;
          jd_working_directory := None |}
  else {| jd_name := Some (job_name j);
          jd_join_stderrout := Some (join_stderrout j);
          jd_priority := Some (priority j);
          jd_native_specification := Some (native_specification j);
          jd_parallel_job_info := Some (parallel_job_info j);
          jd_disposal_timeout := Some (job_disposal_timeout j);
          jd_command := Some (command j);
          jd_referenced_input_files := list_if_set (referenced_input_files j);
          jd_referenced_output_files := list_if_set (referenced_output_files j);
          jd_stdin := if_set (stdin j);
          jd_stdout_file := if_set (stdout_file j);
          jd_stderr_file := if_set (stderr_file j);
          jd_working_directory := if_set (working_directory j) |}.

(** A job with the attributes of [j] and the identity [o]. *)
Definition with_oid (o : nat) (j : Job) : Job :=
  {| job_oid := o;
     is_BarrierJob := is_BarrierJob j;
     command := command j;
     job_name := job_name j;
     referenced_input_files := referenced_input_files j;
     referenced_output_files := referenced_output_files j;
     stdin := stdin j;
     join_stderrout := join_stderrout j;
     job_disposal_timeout := job_disposal_timeout j;
     stdout_file := stdout_file j;
     stderr_file := stderr_file j;
     working_directory := working_directory j;
     parallel_job_info := parallel_job_info j;
     priority := priority j;
     native_specification := native_specification j |}.

(** The jobs read back from the dictionaries of the jobs [l], numbered from
    [ident] on and allocated from [next] on. *)
Fixpoint rebuilt (ident next : nat) (l : list Job) : list (nat * Job) :=
  match l with
  | [] => []
  | j :: r => (ident, with_oid next j) :: rebuilt (S ident) (S next) r
  end.

(** The tables of a dictionary without special paths. *)
Definition no_paths : FromIds :=
  {| tr_from_ids := []; srp_from_ids := []; tmp_from_ids := [];
     opt_from_ids := [] |}.

(** [Workflow([A, B], dependencies=[(A, B)])] for two jobs without special
    paths, as the constructor leaves it. *)
Definition chain_workflow : Workflow :=
  {| wf_name := Some "chain";
     jobs := [plain_job 1 [VStr "a"]; plain_job 2 [VStr "b"; VInt 3]];
     dependencies :=
       [(EJob (plain_job 1 [VStr "a"]), EJob (plain_job 2 [VStr "b"; VInt 3]))];
     root_group :=
       [EJob (plain_job 1 [VStr "a"]); EJob (plain_job 2 [VStr "b"; VInt 3])];
     groups := [];
     wf_disposal_timeout := 168 |}.

(** ** A workflow with a group in its root group *)

(** [Workflow([X, Y, Z, W], root_group=[G, W])] of scenario S4, as the
    constructor leaves it, and its dictionary. *)
Definition grouped_workflow : Workflow :=
  {| wf_name := None;
     jobs := [job_X; job_Y; job_Z; job_W];
     dependencies := [];
     root_group := [EGroup group_G; EJob job_W];
     groups := [group_G];
     wf_disposal_timeout := 168 |}.

Definition grouped_workflow_dict : WorkflowDict :=
  Eval vm_compute in
    match Workflow_to_dict grouped_workflow with
    | Return d => d
    | _ => {| wd_name := None; wd_jobs := []; wd_dependencies := [];
              wd_groups := []; wd_root_group := []; serialized_groups := [];
              serialized_jobs := []; serialized_barriers := [];
              serialized_file_transfers := [];
              serialized_shared_res_paths := [];
              serialized_temporary_paths := []; serialized_option_paths := [] |}
    end.

(** ** Operators of the special paths *)

(** The copy constructors [SharedResourcePath(other)] and
    [TemporaryPath(other)]: the new object refers to the referent of
    [other], through which its properties are read. *)
Definition SharedResourcePath_copy (self : nat) (other : SharedResourcePathObj)
  : SharedResourcePathObj :=
  {| srp_head := copy_head self (srp_head other);
     relative_path := relative_path other;
     namespace := namespace other;
     uuid := uuid other;
     srp_disposal_timeout := srp_disposal_timeout other |}.

Definition TemporaryPath_copy (self : nat) (other : TemporaryPathObj)
  : TemporaryPathObj :=
  {| tmp_head := copy_head self (tmp_head other);
     is_directory := is_directory other;
     tmp_disposal_timeout := tmp_disposal_timeout other;
     tmp_name := tmp_name other;
     suffix := suffix other |}.

(** [type(self)(self)]: the constructor of the class of [self] called with
    [self] as its only argument, the other parameters having their
    defaults. *)
Definition SpecialPath_copy (res : nat) (self : SpecialPath)
  : Outcome SpecialPath :=
  match self with
  | FileTransfer _ =>
      ft ← FileTransfer_init res (VPath self) None 168 None None;
      Return (FileTransfer ft)
  | SharedResourcePath o =>
      Return (SharedResourcePath (SharedResourcePath_copy res o))
  | TemporaryPath o => Return (TemporaryPath (TemporaryPath_copy res o))
  | OptionPath _ =>
      opt ← OptionPath_init res (ArgSpecial self) UriNone None;
      Return (OptionPath opt)
  end.

(** The special path [p] with [h] as what [SpecialPath.__init__] sets. *)
Definition set_head (h : PathHead) (p : SpecialPath) : SpecialPath :=
  match p with
  | FileTransfer o =>
      FileTransfer {| ft_head := h; client_path := client_path o;
                      client_paths := client_paths o;
                      initial_status := initial_status o;
                      ft_disposal_timeout := ft_disposal_timeout o;
                      ft_name := ft_name o |}
  | SharedResourcePath o =>
      SharedResourcePath {| srp_head := h; relative_path := relative_path o;
                            namespace := namespace o; uuid := uuid o;
                            srp_disposal_timeout := srp_disposal_timeout o |}
  | TemporaryPath o =>
      TemporaryPath {| tmp_head := h; is_directory := is_directory o;
                       tmp_disposal_timeout := tmp_disposal_timeout o;
                       tmp_name := tmp_name o; suffix := suffix o |}
  | OptionPath o =>
      OptionPath (mkOptionPath h (parent_path o) (parent_type o) (uri o)
                    (opt_name o))
  end.

(** [res.pattern = pattern; res.ref = self.referent()] *)
Definition refer_to (self : SpecialPath) (pat : string) (res : SpecialPath)
  : SpecialPath :=
  set_head {| oid := oid (head res);
              ref := Some (referent self, head_referent_pattern (head self));
              pattern := pat |} res.

(** [SpecialPath.__add__], for a string [other]; [res] is the identity of
    the new object. *)
Definition SpecialPath_add (res : nat) (self : SpecialPath) (other : string)
  : Outcome SpecialPath :=
  r ← SpecialPath_copy res self;
  Return (refer_to self (pattern (head self) +:+ other) r).

(** [SpecialPath.__radd__], for a string [other]. *)
Definition SpecialPath_radd (res : nat) (self : SpecialPath) (other : string)
  : Outcome SpecialPath :=
  r ← SpecialPath_copy res self;
  Return (refer_to self (other +:+ pattern (head self)) r).

(** [SpecialPath.__iadd__], for a string [other]: what the call returns and
    the object after it.  The pattern is extended first; then the method
    [__iadd__] is looked up after [SpecialPath] in the classes of the object,
    where only [object] is left, which has none. *)
Definition SpecialPath_iadd (self : SpecialPath) (other : string)
  : Outcome unit * SpecialPath :=
  (Raise AttributeError,
   set_head (set_pattern (pattern (head self) +:+ other) (head self)) self).

(** [SpecialPath.__hash__]: the hash of the referent, which is its
    identity. *)
Definition SpecialPath_hash (self : SpecialPath) : nat := referent self.

(** A string without a percent sign. *)
Fixpoint no_percent (s : string) : bool :=
  match s with
  | EmptyString => true
  | String c r => negb (Ascii.eqb c "%") && no_percent r
  end.

(** [SharedResourcePath("file", "ns", "uuid")] with the identity 1. *)
Definition shared_file : SharedResourcePathObj :=
  {| srp_head := fresh_head 1; relative_path := "file"; namespace := "ns";
     uuid := "uuid"; srp_disposal_timeout := None |}.

(** The state of the serialisation of the special paths when the next
    identifier is [ident] and no path has been met. *)
Definition fresh_ser_state (ident : nat) : SerState :=
  {| current_id := ident; transfer_ids := []; shared_res_path_ids := [];
     tmp_ids := []; opt_ids := [] |}.

(** ** Jobs and groups that a workflow knows *)

(** The element is a job of the workflow: one of its jobs has its
    identity. *)
Definition known_job (w : Workflow) (e : Element) : Prop :=
  match e with
  | EJob j => job_oid j ∈ map job_oid (jobs w)
  | EGroup _ => False
  end.

(** The element is a group listed in [groups]. *)
Definition known_group (w : Workflow) (e : Element) : Prop :=
  match e with
  | EGroup g => group_oid g ∈ map group_oid (groups w)
  | EJob _ => False
  end.

(** [Workflow([W], dependencies=[(X, W)])]: the job X of the edge is not
    among the jobs. *)
Definition dangling_workflow : Workflow :=
  {| wf_name := None;
     jobs := [job_W];
     dependencies := [(EJob job_X, EJob job_W)];
     root_group := [EJob job_W];
     groups := [];
     wf_disposal_timeout := 168 |}.

(** [Workflow([W], root_group=[X])]: the job X of the root group is not
    among the jobs. *)
Definition stray_root_workflow : Workflow :=
  {| wf_name := None;
     jobs := [job_W];
     dependencies := [];
     root_group := [EJob job_X];
     groups := [];
     wf_disposal_timeout := 168 |}.

(** ** Adding a workflow to a workflow *)

(** [Workflow.add_workflow] extends the lists that the attributes of a
    workflow hold where they stand, and one list can be held by more than
    one attribute: without a root group [Workflow.__init__] ends with
    [self.root_group = self.jobs], and the group that [add_workflow] creates
    holds the list [workflow.root_group] as its elements.  Here the lists are
    therefore objects of a store, named by their locations. *)

(** A group whose attribute [elements] is the list at a location. *)
Record GroupRef : Type := mkGroupRef {
  gr_oid : nat;
  gr_name : string;
  gr_elements : nat
}.

(** What a list of jobs and groups holds. *)
Inductive Item : Type :=
| IJob (j : Job)
| IGroup (g : GroupRef).

(** The lists of the store: lists of jobs and groups, lists of dependencies
    and lists of groups. *)
Record Lists : Type := mkLists {
  item_lists : gmap nat (list Item);
  dependency_lists : gmap nat (list (Item * Item));
  group_lists : gmap nat (list GroupRef)
}.

(** A workflow object: the locations of the lists that its attributes
    [jobs], [dependencies], [root_group] and [groups] hold. *)
Record WorkflowRef : Type := mkWorkflowRef {
  wr_jobs : nat;
  wr_dependencies : nat;
  wr_root_group : nat;
  wr_groups : nat
}.

(** [target += values] and [target.append(value)] for a list [target]: the
    list is extended where it stands. *)
Definition extend {A} (target : nat) (values : list A)
    (m : gmap nat (list A)) : gmap nat (list A) :=
  <[target := (m !!! target) ++ values]> m.

(** [if as_group:] *)
Definition group_wanted (as_group : option string) : option string :=
  match as_group with
  | Some name => if String.eqb name "" then None else Some name
  | None => None
  end.

(** [Workflow.add_workflow], for attributes that are lists; [res] is the
    identity of the group that the call creates.  The result is the group,
    or [None], and the store after the call. *)
Definition add_workflow (res : nat) (self workflow : WorkflowRef)
    (as_group : option string) (h : Lists) : option GroupRef * Lists :=
  let items1 :=
    extend (wr_jobs self) (item_lists h !!! wr_jobs workflow) (item_lists h) in
  let deps1 :=
    extend (wr_dependencies self)
      (dependency_lists h !!! wr_dependencies workflow) (dependency_lists h) in
  match group_wanted as_group with
  | Some name =>
      let group := {| gr_oid := res; gr_name := name;
                      gr_elements := wr_root_group workflow |} in
      (Some group,
       {| item_lists := extend (wr_root_group self) [IGroup group] items1;
          dependency_lists := deps1;
          group_lists :=
            extend (wr_groups self)
              ([group] ++ (group_lists h !!! wr_groups workflow))
              (group_lists h) |})
  | None =>
      (None,
       {| item_lists :=
            extend (wr_root_group self) (items1 !!! wr_root_group workflow)
              items1;
          dependency_lists := deps1;
          group_lists :=
            extend (wr_groups self) (group_lists h !!! wr_groups workflow)
              (group_lists h) |})
  end.

(** The two workflows hold different lists, and the root group of [self] is
    not its list of jobs. *)
Definition separate_lists (self workflow : WorkflowRef) : Prop :=
  wr_jobs self <> wr_root_group self
  /\ wr_jobs self <> wr_jobs workflow
  /\ wr_jobs self <> wr_root_group workflow
  /\ wr_root_group self <> wr_jobs workflow
  /\ wr_root_group self <> wr_root_group workflow
  /\ wr_dependencies self <> wr_dependencies workflow
  /\ wr_groups self <> wr_groups workflow.

(** [Workflow([X, Y])] and [Workflow([Z])], both constructed without a root
    group: the lists 1 and 5 are the jobs and the root groups. *)
Definition first_workflow : WorkflowRef :=
  {| wr_jobs := 1; wr_dependencies := 2; wr_root_group := 1; wr_groups := 4 |}.

Definition second_workflow : WorkflowRef :=
  {| wr_jobs := 5; wr_dependencies := 6; wr_root_group := 5; wr_groups := 8 |}.

Definition two_workflows : Lists :=
  {| item_lists := <[ 1%nat := [IJob job_X; IJob job_Y] ]>
                     {[ 5%nat := [IJob job_Z] ]};
     dependency_lists := <[ 2%nat := [(IJob job_X, IJob job_Y)] ]>
                           {[ 6%nat := [] ]};
     group_lists := <[ 4%nat := [] ]> {[ 8%nat := [] ]} |}.

(** The same workflows when each was given a root group of its own. *)
Definition first_rooted : WorkflowRef :=
  {| wr_jobs := 1; wr_dependencies := 2; wr_root_group := 3; wr_groups := 4 |}.

Definition second_rooted : WorkflowRef :=
  {| wr_jobs := 5; wr_dependencies := 6; wr_root_group := 7; wr_groups := 8 |}.

Definition two_rooted_workflows : Lists :=
  {| item_lists :=
       <[ 1%nat := [IJob job_X; IJob job_Y] ]>
         (<[ 3%nat := [IJob job_X; IJob job_Y] ]>
            (<[ 5%nat := [IJob job_Z] ]> {[ 7%nat := [IJob job_Z] ]}));
     dependency_lists := <[ 2%nat := [(IJob job_X, IJob job_Y)] ]>
                           {[ 6%nat := [] ]};
     group_lists := <[ 4%nat := [] ]> {[ 8%nat := [] ]} |}.

(** * Further methods of the job scheduler *)

Local Open Scope method_scope.

(** The world with [f] as the attribute [__fileToRead] of the scheduler. *)
Definition with_fileToRead (f : option FileObj) (w : World) : World :=
  {| job_server := job_server w; files := files w; user_id := user_id w;
     fileToRead := f; fileToWrite := fileToWrite w;
     stdoutFileToRead := stdoutFileToRead w;
     stderrFileToRead := stderrFileToRead w;
     drmaa_calls := drmaa_calls w; drmaa_next_job := drmaa_next_job w;
     today := today w; opened := opened w; console := console w |}.

Definition set_fileToRead (f : option FileObj) : Method unit := fun w =>
  (Return tt, with_fileToRead f w).

(** [JobScheduler.readline] *)
Definition readline (local_file_path : string) : Method string :=
  owned <- call_isUserTransfer "_JobScheduler__jobServer" local_file_path;;
  if negb owned then raise JobSchedulerError
  else
    w <- get_world;;
    f <- reader (fileToRead w) local_file_path;;
    set_fileToRead (Some (advance f));;
    ret (line_at w f).

(** [n] calls of a method in a row, with the list of what they return. *)
Fixpoint call_times {A} (n : nat) (m : Method A) : Method (list A) :=
  match n with
  | O => ret []
  | S n' => a <- m;; r <- call_times n' m;; ret (a :: r)
  end.

(** The world with [path] added to the files opened so far. *)
Definition with_opened (path : string) (w : World) : World :=
  {| job_server := job_server w; files := files w; user_id := user_id w;
     fileToRead := fileToRead w; fileToWrite := fileToWrite w;
     stdoutFileToRead := stdoutFileToRead w;
     stderrFileToRead := stderrFileToRead w;
     drmaa_calls := drmaa_calls w; drmaa_next_job := drmaa_next_job w;
     today := today w; opened := opened w ++ [path]; console := console w |}.

(** The world in which the caller is the user [u]. *)
Definition with_user (u : nat) (w : World) : World :=
  {| job_server := job_server w; files := files w; user_id := u;
     fileToRead := fileToRead w; fileToWrite := fileToWrite w;
     stdoutFileToRead := stdoutFileToRead w;
     stderrFileToRead := stderrFileToRead w;
     drmaa_calls := drmaa_calls w; drmaa_next_job := drmaa_next_job w;
     today := today w; opened := opened w; console := console w |}.


(** The world of the two users when user 1 also owns the transfer
    ["/pool/out"], whose file has two lines. *)
Definition transfers_world : World :=
  {| job_server :=
       {| server_jobs := {[ 7%nat := other_job ]};
          server_transfers :=
            <[ "/pool/out" := {| ti_owner := 1; ti_remote_file_path := "/home/out";
                                 ti_expiration_date := 100 |} ]>
              {[ "/pool/in" := {| ti_owner := 1;
                                  ti_remote_file_path := "/home/in";
                                  ti_expiration_date := 100 |} ]} |};
     files := <[ "/pool/out" := ["one"; "two"] ]> {[ "/pool/in" := ["data"] ]};
     user_id := 1;
     fileToRead := None;
     fileToWrite := None;
     stdoutFileToRead := None;
     stderrFileToRead := None;
     drmaa_calls := [];
     drmaa_next_job := 8;
     today := 10;
     opened := [];
     console := [] |}.

(** The world after [print text]. *)
Definition with_printed (text : string) (w : World) : World :=
  {| job_server := job_server w; files := files w; user_id := user_id w;
     fileToRead := fileToRead w; fileToWrite := fileToWrite w;
     stdoutFileToRead := stdoutFileToRead w;
     stderrFileToRead := stderrFileToRead w;
     drmaa_calls := drmaa_calls w; drmaa_next_job := drmaa_next_job w;
     today := today w; opened := opened w; console := console w ++ [text] |}.

(** The world with [f] as the attribute [__stdoutFileToRead] of the
    scheduler. *)
Definition with_stdoutFileToRead (f : option FileObj) (w : World) : World :=
  {| job_server := job_server w; files := files w; user_id := user_id w;
     fileToRead := fileToRead w; fileToWrite := fileToWrite w;
     stdoutFileToRead := f;
     stderrFileToRead := stderrFileToRead w;
     drmaa_calls := drmaa_calls w; drmaa_next_job := drmaa_next_job w;
     today := today w; opened := opened w; console := console w |}.

(** The world of the two users when the caller is user 2, who owns job 7,
    and the standard output of the job has two lines. *)
Definition owner_world : World :=
  {| job_server := job_server two_users_world;
     files := <[ "/out/7" := ["first"; "second"] ]> (files two_users_world);
     user_id := 2;
     fileToRead := None;
     fileToWrite := None;
     stdoutFileToRead := None;
     stderrFileToRead := None;
     drmaa_calls := [];
     drmaa_next_job := 8;
     today := 10;
     opened := [];
     console := [] |}.

(** * Properties *)

Local Open Scope nat_scope.

(** ** Outcomes *)

Lemma bind_Return {A B} (m : Outcome A) (f : A -> Outcome B) (b : B) :
  (m ≫= f) = Return b -> exists a, m = Return a /\ f a = Return b.
Proof. destruct m as [a| |]; simpl; intros H; try discriminate. eauto. Qed.

Lemma bind_Return_l {A B} (a : A) (f : A -> Outcome B) :
  (Return a ≫= f) = f a.
Proof. reflexivity. Qed.

(** ** The dictionary of hubs *)

Lemma hub_get_app_Some group d extra v :
  hub_get group d = Some v -> hub_get group (d ++ extra) = Some v.
Proof.
  induction d as [|[k w] d IH]; simpl; [discriminate|].
  destruct (Nat.eqb _ _); auto.
Qed.

Lemma hub_get_app_None group d extra :
  hub_get group d = None -> hub_get group (d ++ extra) = hub_get group extra.
Proof.
  induction d as [|[k w] d IH]; simpl; [reflexivity|].
  destruct (Nat.eqb _ _); [discriminate|auto].
Qed.

Lemma hub_get_key group d v :
  hub_get group d = Some v ->
  exists k, (k, v) ∈ d /\ group_oid k = group_oid group.
Proof.
  induction d as [|[k w] d IH]; simpl; [discriminate|].
  destruct (Nat.eqb_spec (group_oid k) (group_oid group)) as [e|ne].
  - intros [= ->]. exists k. split; [left|exact e].
  - intros H. destruct (IH H) as (k' & Hin & Hk). exists k'. split; [right|]; done.
Qed.

Lemma hub_get_oid g1 g2 d :
  group_oid g1 = group_oid g2 -> hub_get g1 d = hub_get g2 d.
Proof.
  intros e. induction d as [|[k w] d IH]; simpl; [reflexivity|].
  rewrite e, IH. reflexivity.
Qed.

(** ** Lists *)

Lemma elem_of_flat_map {A B} (f : A -> list B) (l : list A) (y : B) :
  y ∈ flat_map f l <-> exists x, x ∈ l /\ y ∈ f x.
Proof.
  rewrite list_elem_of_In, in_flat_map.
  split; intros (x & Hx & Hy); exists x; rewrite ?list_elem_of_In in *; auto.
Qed.

(** ** The group hierarchy *)

Lemma group_count_unfold g :
  group_count g = S (groups_count (sub_groups (elements g))).
Proof.
  destruct g as [o n els]. simpl. f_equal.
  induction els as [|[j|s] els IH]; simpl; auto.
Qed.

Lemma all_groups_unfold g :
  all_groups g = g :: flat_map all_groups (sub_groups (elements g)).
Proof.
  destruct g as [o n els]. simpl. f_equal.
  induction els as [|[j|s] els IH]; simpl; auto. rewrite IH. reflexivity.
Qed.

Lemma groups_count_app l1 l2 :
  groups_count (l1 ++ l2) = (groups_count l1 + groups_count l2)%nat.
Proof. induction l1; simpl; lia. Qed.

Lemma all_groups_self g : g ∈ all_groups g.
Proof. rewrite all_groups_unfold. left. Qed.

Lemma all_groups_sub g s t :
  s ∈ sub_groups (elements g) -> t ∈ all_groups s -> t ∈ all_groups g.
Proof.
  intros Hs Ht. rewrite all_groups_unfold. right.
  apply elem_of_flat_map. exists s. split; assumption.
Qed.

(** The groups under a reached group are reached. *)
Lemma all_groups_closed g t s :
  t ∈ all_groups g -> s ∈ sub_groups (elements t) -> s ∈ all_groups g.
Proof.
  remember (group_count g) as n eqn:Hn. revert g Hn t s.
  induction (lt_wf n) as [n _ IH]. intros g -> t s Ht Hs.
  rewrite all_groups_unfold in Ht. apply elem_of_cons in Ht as [->|Ht].
  - eapply all_groups_sub; [exact Hs|apply all_groups_self].
  - apply elem_of_flat_map in Ht as (u & Hu & Ht).
    eapply all_groups_sub; [exact Hu|].
    eapply (IH (group_count u)); [|reflexivity|exact Ht|exact Hs].
    rewrite (group_count_unfold g).
    clear -Hu. induction Hu; simpl; lia.
Qed.

Lemma dep_groups_closed deps t s :
  t ∈ dep_groups deps -> s ∈ sub_groups (elements t) -> s ∈ dep_groups deps.
Proof.
  unfold dep_groups. intros Ht Hs.
  apply elem_of_flat_map in Ht as (d & Hd & Ht).
  apply elem_of_flat_map. exists d. split; [exact Hd|].
  apply elem_of_app in Ht. apply elem_of_app.
  destruct Ht as [Ht|Ht]; [left|right].
  - destruct (fst d); simpl in *; [inversion Ht|]. eapply all_groups_closed; eauto.
  - destruct (snd d); simpl in *; [inversion Ht|]. eapply all_groups_closed; eauto.
Qed.

Lemma dep_groups_source deps a b g :
  (a, b) ∈ deps -> g ∈ endpoint_groups a -> g ∈ dep_groups deps.
Proof.
  intros Hd Hg. apply elem_of_flat_map. exists (a, b).
  split; [exact Hd|]. apply elem_of_app. left. exact Hg.
Qed.

Lemma dep_groups_target deps a b g :
  (a, b) ∈ deps -> g ∈ endpoint_groups b -> g ∈ dep_groups deps.
Proof.
  intros Hd Hg. apply elem_of_flat_map. exists (a, b).
  split; [exact Hd|]. apply elem_of_app. right. exact Hg.
Qed.

(** ** Allocation of the hubs *)

Lemma set_jobs_id w : set_jobs (jobs w) w = w.
Proof. destruct w; reflexivity. Qed.

Lemma set_jobs_twice js js' w : set_jobs js (set_jobs js' w) = set_jobs js w.
Proof. reflexivity. Qed.

Lemma hub_jobs_app d1 d2 : hub_jobs (d1 ++ d2) = hub_jobs d1 ++ hub_jobs d2.
Proof. apply flat_map_app. Qed.

Lemma hubs_inv_init self next U :
  hubs_inv self next U {| cv_self := self; group_to_hub := []; next_oid := next |}.
Proof.
  constructor; simpl.
  - rewrite app_nil_r, set_jobs_id. reflexivity.
  - lia.
  - intros i k h H. discriminate.
  - intros k h H. inversion H.
  - intros k h H. inversion H.
Qed.

Lemma group_hubs_inv self0 next0 U group cv h cv' :
  hubs_inv self0 next0 U cv -> group ∈ U ->
  group_hubs group cv = (h, cv') ->
  hubs_inv self0 next0 U cv'
  /\ hub_get group (group_to_hub cv') = Some h
  /\ exists extra, group_to_hub cv' = group_to_hub cv ++ extra.
Proof.
  intros [Hself Hnext Hhubs Hget Hkeys] HU. unfold group_hubs.
  destruct (hub_get group (group_to_hub cv)) as [g|] eqn:Hg.
  - intros [= <- <-]. split; [constructor; assumption|].
    split; [exact Hg|]. exists []. rewrite app_nil_r. reflexivity.
  - intros [= <- <-]. simpl. split; [constructor; simpl|split].
    + rewrite Hself. simpl. rewrite hub_jobs_app, app_assoc. reflexivity.
    + rewrite length_app. simpl. lia.
    + intros i k h0 Hi.
      destruct (decide (i < length (group_to_hub cv))) as [Hlt|Hge].
      * rewrite lookup_app_l in Hi by exact Hlt. eauto.
      * rewrite lookup_app_r in Hi by lia.
        destruct (i - length (group_to_hub cv)) as [|n] eqn:Hd; simpl in Hi;
          [|discriminate].
        injection Hi as <- <-. unfold hubs_at.
        replace (next0 + 2 * i) with (next_oid cv) by lia. reflexivity.
    + intros k h0 Hin. apply elem_of_app in Hin as [Hin|Hin].
      * apply hub_get_app_Some. auto.
      * apply list_elem_of_singleton in Hin. injection Hin as -> ->.
        rewrite hub_get_app_None by exact Hg. simpl.
        rewrite Nat.eqb_refl. reflexivity.
    + intros k h0 Hin. apply elem_of_app in Hin as [Hin|Hin]; [eauto|].
      apply list_elem_of_singleton in Hin. injection Hin as -> ->. exact HU.
    + rewrite hub_get_app_None by exact Hg. simpl.
      rewrite Nat.eqb_refl. reflexivity.
    + eexists. reflexivity.
Qed.

Lemma group_hubs_closed group rest cv h cv' :
  group_hubs group cv = (h, cv') ->
  closed_upto (group :: rest) (group_to_hub cv) ->
  closed_upto (rest ++ sub_groups (elements group)) (group_to_hub cv').
Proof.
  unfold group_hubs, closed_upto.
  destruct (hub_get group (group_to_hub cv)) as [g|] eqn:Hg.
  - intros [= <- <-] Hc k h0 s Hk Hs.
    destruct (Hc k h0 s Hk Hs) as [?|Hin]; [left; assumption|].
    apply elem_of_cons in Hin as [->|Hin].
    + left. rewrite Hg. eauto.
    + right. apply elem_of_app. left. exact Hin.
  - intros [= <- <-] Hc k h0 s Hk Hs. simpl in *.
    apply elem_of_app in Hk as [Hk|Hk].
    + destruct (Hc k h0 s Hk Hs) as [[v Hv]|Hin].
      * left. exists v. apply hub_get_app_Some. exact Hv.
      * apply elem_of_cons in Hin as [->|Hin].
        -- left. rewrite hub_get_app_None by exact Hg. simpl.
           rewrite Nat.eqb_refl. eauto.
        -- right. apply elem_of_app. left. exact Hin.
    + apply list_elem_of_singleton in Hk. injection Hk as -> <-.
      right. apply elem_of_app. right. exact Hs.
Qed.

Lemma closed_upto_nil_weaken work d : closed_upto [] d -> closed_upto work d.
Proof.
  intros Hc k h s Hk Hs. destruct (Hc k h s Hk Hs) as [?|Hin]; [left; assumption|].
  inversion Hin.
Qed.

(** The loop of [group_hubs_recurs] ends within its bound; it leaves hubs for
    every group of the work list and for every group under a key. *)
Lemma group_hubs_loop_spec self0 next0 U
    (HU : forall t s, t ∈ U -> s ∈ sub_groups (elements t) -> s ∈ U) :
  forall fuel work ghubs cv,
    groups_count work <= fuel ->
    hubs_inv self0 next0 U cv ->
    (forall g, g ∈ work -> g ∈ U) ->
    closed_upto work (group_to_hub cv) ->
    exists gh cv',
      group_hubs_loop fuel work ghubs cv = Return (gh, cv')
      /\ hubs_inv self0 next0 U cv'
      /\ (exists extra, group_to_hub cv' = group_to_hub cv ++ extra)
      /\ closed_upto [] (group_to_hub cv')
      /\ (forall g t, g ∈ work -> t ∈ all_groups g ->
            is_Some (hub_get t (group_to_hub cv')))
      /\ gh = match ghubs with
              | Some _ => ghubs
              | None =>
                  match work with
                  | [] => None
                  | g :: _ => hub_get g (group_to_hub cv')
                  end
              end.
Proof.
  induction fuel as [|fuel IH]; intros work ghubs cv Hfuel Hinv Hwork Hclosed.
  - destruct work as [|g rest].
    + exists ghubs, cv. simpl. split; [reflexivity|]. split; [exact Hinv|].
      split; [exists []; rewrite app_nil_r; reflexivity|]. split; [exact Hclosed|].
      split; [intros g t Hg; inversion Hg|]. destruct ghubs; reflexivity.
    + simpl in Hfuel. rewrite group_count_unfold in Hfuel. lia.
  - destruct work as [|g rest].
    + exists ghubs, cv. simpl. split; [reflexivity|]. split; [exact Hinv|].
      split; [exists []; rewrite app_nil_r; reflexivity|]. split; [exact Hclosed|].
      split; [intros g t Hg; inversion Hg|]. destruct ghubs; reflexivity.
    + simpl. destruct (group_hubs g cv) as [h cv1] eqn:Hgh.
      assert (Hg : g ∈ U) by (apply Hwork; left).
      destruct (group_hubs_inv _ _ _ _ _ _ _ Hinv Hg Hgh) as (Hinv1 & Hget1 & extra1 & Hext1).
      pose proof (group_hubs_closed _ _ _ _ _ Hgh Hclosed) as Hclosed1.
      destruct (IH (rest ++ sub_groups (elements g))
                  (match ghubs with None => Some h | Some _ => ghubs end) cv1)
        as (gh & cv' & Hrun & Hinv' & (extra & Hext) & Hclosed' & Hall & Hgh').
      * simpl in Hfuel. rewrite group_count_unfold in Hfuel.
        rewrite groups_count_app. lia.
      * exact Hinv1.
      * intros s Hs. apply elem_of_app in Hs as [Hs|Hs].
        -- apply Hwork. right. exact Hs.
        -- eapply HU; eauto.
      * exact Hclosed1.
      * exists gh, cv'. split; [exact Hrun|]. split; [exact Hinv'|].
        assert (Hget' : hub_get g (group_to_hub cv') = Some h).
        { rewrite Hext. apply hub_get_app_Some. exact Hget1. }
        split; [exists (extra1 ++ extra); rewrite Hext, Hext1, app_assoc; reflexivity|].
        split; [exact Hclosed'|]. split.
        -- intros s t Hs Ht. apply elem_of_cons in Hs as [->|Hs].
           ++ rewrite all_groups_unfold in Ht.
              apply elem_of_cons in Ht as [->|Ht]; [rewrite Hget'; eauto|].
              apply elem_of_flat_map in Ht as (u & Hu & Ht).
              apply (Hall u t); [apply elem_of_app; right; exact Hu|exact Ht].
           ++ apply (Hall s t); [apply elem_of_app; left; exact Hs|exact Ht].
        -- rewrite Hgh'. destruct ghubs; [reflexivity|]. symmetry. exact Hget'.
Qed.

(** ** The first loop of the conversion *)

Lemma group_hubs_recurs_spec self0 next0 U
    (HU : forall t s, t ∈ U -> s ∈ sub_groups (elements t) -> s ∈ U)
    group cv :
  hubs_inv self0 next0 U cv -> group ∈ U ->
  closed_upto [] (group_to_hub cv) ->
  exists h cv',
    group_hubs_recurs group cv = Return (h, cv')
    /\ hubs_inv self0 next0 U cv'
    /\ (exists extra, group_to_hub cv' = group_to_hub cv ++ extra)
    /\ closed_upto [] (group_to_hub cv')
    /\ hub_get group (group_to_hub cv') = Some h
    /\ (forall t, t ∈ all_groups group -> is_Some (hub_get t (group_to_hub cv'))).
Proof.
  intros Hinv Hg Hclosed. unfold group_hubs_recurs.
  destruct (group_hubs_loop_spec self0 next0 U HU (group_count group) [group]
              None cv) as (gh & cv' & Hrun & Hinv' & Hext & Hclosed' & Hall & Hgh).
  - simpl. lia.
  - exact Hinv.
  - intros g Hin. apply list_elem_of_singleton in Hin as ->. exact Hg.
  - apply closed_upto_nil_weaken. exact Hclosed.
  - rewrite Hrun. simpl.
    destruct (Hall group group) as [h Hh]; [left|apply all_groups_self|].
    rewrite Hh in Hgh. subst gh. simpl. exists h, cv'.
    repeat (split; [assumption || reflexivity|]).
    intros t Ht. apply (Hall group t); [left|exact Ht].
Qed.

Lemma source_end_app d extra e x :
  source_end d e = Some x -> source_end (d ++ extra) e = Some x.
Proof.
  destruct e as [j|g]; simpl; [auto|].
  destruct (hub_get g d) as [h|] eqn:Hh; [|discriminate].
  rewrite (hub_get_app_Some _ _ extra _ Hh). auto.
Qed.

Lemma target_end_app d extra e x :
  target_end d e = Some x -> target_end (d ++ extra) e = Some x.
Proof.
  destruct e as [j|g]; simpl; [auto|].
  destruct (hub_get g d) as [h|] eqn:Hh; [|discriminate].
  rewrite (hub_get_app_Some _ _ extra _ Hh). auto.
Qed.

Lemma rewritten_app d extra dep x :
  rewritten d dep = Some x -> rewritten (d ++ extra) dep = Some x.
Proof.
  unfold rewritten.
  destruct (source_end d (fst dep)) as [a|] eqn:Ha; [|discriminate].
  destruct (target_end d (snd dep)) as [b|] eqn:Hb; [|discriminate].
  rewrite (source_end_app _ extra _ _ Ha), (target_end_app _ extra _ _ Hb). auto.
Qed.

Lemma rewritten_jobs d dep : has_group dep = false -> rewritten d dep = Some dep.
Proof.
  destruct dep as [[j1|g1] [j2|g2]]; unfold has_group; simpl; try discriminate.
  reflexivity.
Qed.

Lemma convert_dependency_jobs reindex index dep st :
  has_group dep = false -> convert_dependency reindex index dep st = Return st.
Proof.
  destruct dep as [[j1|g1] [j2|g2]]; unfold has_group; simpl; try discriminate.
  reflexivity.
Qed.

Lemma convert_dependency_group self0 next0 U
    (HU : forall t s, t ∈ U -> s ∈ sub_groups (elements t) -> s ∈ U)
    index dep st :
  has_group dep = true ->
  (forall g, fst dep = EGroup g -> g ∈ U) ->
  (forall g, snd dep = EGroup g -> g ∈ U) ->
  locals_inv self0 next0 U st ->
  exists st' dep',
    convert_dependency false index dep st = Return st'
    /\ locals_inv self0 next0 U st'
    /\ (exists extra,
          group_to_hub (cl_conv st') = group_to_hub (cl_conv st) ++ extra)
    /\ rewritten (group_to_hub (cl_conv st')) dep = Some dep'
    /\ new_deps_list st' = new_deps_list st ++ [dep']
    /\ deps_to_remove st' = index :: deps_to_remove st
    /\ (forall t, t ∈ endpoint_groups (fst dep) ++ endpoint_groups (snd dep) ->
          is_Some (hub_get t (group_to_hub (cl_conv st')))).
Proof.
  intros Hgrp H1 H2 (Hinv & Hclosed & Hnew).
  destruct dep as [j1 j2]. unfold convert_dependency.
  unfold has_group in Hgrp. simpl in Hgrp, H1, H2.
  replace (negb (is_Group j1) && negb (is_Group j2)) with false
    by (destruct (is_Group j1), (is_Group j2); simpl in *; congruence).
  simpl.
  assert (Hstep1 : exists a cv1,
    match j1 with
    | EGroup g =>
        r ← group_hubs_recurs g (cl_conv st); Return (EJob (snd (fst r)), snd r)
    | EJob _ => Return (j1, cl_conv st)
    end = Return (a, cv1)
    /\ hubs_inv self0 next0 U cv1
    /\ (exists extra, group_to_hub cv1 = group_to_hub (cl_conv st) ++ extra)
    /\ closed_upto [] (group_to_hub cv1)
    /\ source_end (group_to_hub cv1) j1 = Some a
    /\ is_Group a = false
    /\ (forall t, t ∈ endpoint_groups j1 -> is_Some (hub_get t (group_to_hub cv1)))).
  { destruct j1 as [j|g].
    - exists (EJob j), (cl_conv st).
      split; [reflexivity|]. split; [exact Hinv|].
      split; [exists []; rewrite app_nil_r; reflexivity|].
      repeat (split; [assumption || reflexivity|]).
      intros t Ht. inversion Ht.
    - destruct (group_hubs_recurs_spec self0 next0 U HU g (cl_conv st))
        as (h & cv1 & Hrun & Hinv1 & Hext1 & Hclosed1 & Hget1 & Hall1); auto.
      exists (EJob (snd h)), cv1. rewrite Hrun. simpl.
      rewrite Hget1. auto 10. }
  destruct Hstep1 as (a & cv1 & -> & Hinv1 & (extra1 & Hext1) & Hclosed1 & Hsrc & Ha & Hall1).
  simpl.
  assert (Hstep2 : exists b cv2,
    match j2 with
    | EGroup g =>
        r ← group_hubs_recurs g cv1; Return (EJob (fst (fst r)), snd r)
    | EJob _ => Return (j2, cv1)
    end = Return (b, cv2)
    /\ hubs_inv self0 next0 U cv2
    /\ (exists extra, group_to_hub cv2 = group_to_hub cv1 ++ extra)
    /\ closed_upto [] (group_to_hub cv2)
    /\ target_end (group_to_hub cv2) j2 = Some b
    /\ is_Group b = false
    /\ (forall t, t ∈ endpoint_groups j2 -> is_Some (hub_get t (group_to_hub cv2)))).
  { destruct j2 as [j|g].
    - exists (EJob j), cv1.
      split; [reflexivity|]. split; [exact Hinv1|].
      split; [exists []; rewrite app_nil_r; reflexivity|].
      repeat (split; [assumption || reflexivity|]).
      intros t Ht. inversion Ht.
    - destruct (group_hubs_recurs_spec self0 next0 U HU g cv1)
        as (h & cv2 & Hrun & Hinv2 & Hext2 & Hclosed2 & Hget2 & Hall2); auto.
      exists (EJob (fst h)), cv2. rewrite Hrun. simpl.
      rewrite Hget2. auto 10. }
  destruct Hstep2 as (b & cv2 & -> & Hinv2 & (extra2 & Hext2) & Hclosed2 & Htgt & Hb & Hall2).
  simpl. eexists _, (a, b). split; [reflexivity|]. simpl.
  split; [|split; [|split; [|split; [|split]]]].
  - split; [exact Hinv2|]. split; [exact Hclosed2|].
    intros x Hx. apply elem_of_app in Hx as [Hx|Hx]; [auto|].
    apply list_elem_of_singleton in Hx as ->.
    unfold has_group. simpl. rewrite Ha, Hb. reflexivity.
  - exists (extra1 ++ extra2). rewrite Hext2, Hext1, app_assoc. reflexivity.
  - unfold rewritten. simpl. rewrite Htgt, Hext2.
    rewrite (source_end_app _ extra2 _ _ Hsrc). reflexivity.
  - reflexivity.
  - reflexivity.
  - intros t Ht. apply elem_of_app in Ht as [Ht|Ht]; [|auto].
    destruct (Hall1 t Ht) as [v Hv]. exists v.
    rewrite Hext2. apply hub_get_app_Some. exact Hv.
Qed.

Lemma convert_dependencies_spec self0 next0 U
    (HU : forall t s, t ∈ U -> s ∈ sub_groups (elements t) -> s ∈ U) :
  forall deps index st,
    (forall a b g, (a, b) ∈ deps -> a = EGroup g \/ b = EGroup g -> g ∈ U) ->
    locals_inv self0 next0 U st ->
    exists st',
      convert_dependencies false index deps st = Return st'
      /\ locals_inv self0 next0 U st'
      /\ (exists extra,
            group_to_hub (cl_conv st') = group_to_hub (cl_conv st) ++ extra)
      /\ (exists added, new_deps_list st' = new_deps_list st ++ added)
      /\ (forall dep, dep ∈ deps -> has_group dep = true ->
            exists dep', rewritten (group_to_hub (cl_conv st')) dep = Some dep'
                         /\ dep' ∈ new_deps_list st')
      /\ deps_to_remove st' = rev (group_indices index deps) ++ deps_to_remove st
      /\ (forall t, t ∈ dep_groups deps ->
            is_Some (hub_get t (group_to_hub (cl_conv st')))).
Proof.
  induction deps as [|dep deps IH]; intros index st Hdeps Hinv.
  - exists st. simpl. split; [reflexivity|]. split; [exact Hinv|].
    split; [exists []; rewrite app_nil_r; reflexivity|].
    split; [exists []; rewrite app_nil_r; reflexivity|].
    split; [intros dep Hin; inversion Hin|]. split; [reflexivity|].
    intros t Ht. inversion Ht.
  - simpl. destruct (has_group dep) eqn:Hgrp.
    + destruct (convert_dependency_group self0 next0 U HU index dep st Hgrp)
        as (st1 & dep1 & Hrun1 & Hinv1 & (extra1 & Hext1) & Hrw1 & Hnew1 & Hrem1 & Hcov1).
      { intros g Hg. destruct dep as [a b]. eapply Hdeps; [left|left; exact Hg]. }
      { intros g Hg. destruct dep as [a b]. eapply Hdeps; [left|right; exact Hg]. }
      { exact Hinv. }
      rewrite Hrun1. simpl.
      destruct (IH (S index) st1)
        as (st' & Hrun & Hinv' & (extra & Hext) & (added & Hadd) & Hall & Hrem & Hcov).
      { intros a b g Hin. apply Hdeps. right. exact Hin. }
      { exact Hinv1. }
      exists st'. split; [exact Hrun|]. split; [exact Hinv'|].
      split; [exists (extra1 ++ extra); rewrite Hext, Hext1, app_assoc; reflexivity|].
      split; [exists ([dep1] ++ added); rewrite Hadd, Hnew1, <- app_assoc; reflexivity|].
      split.
      * intros d Hin Hd. apply elem_of_cons in Hin as [->|Hin]; [|auto].
        exists dep1. split.
        -- rewrite Hext. apply rewritten_app. exact Hrw1.
        -- rewrite Hadd, Hnew1. apply elem_of_app. left. apply elem_of_app. right. left.
      * split; [rewrite Hrem, Hrem1; simpl; rewrite <- app_assoc; reflexivity|].
        intros t Ht. simpl in Ht. apply elem_of_app in Ht as [Ht|Ht]; [|auto].
        destruct (Hcov1 t Ht) as [v Hv]. exists v.
        rewrite Hext. apply hub_get_app_Some. exact Hv.
    + rewrite convert_dependency_jobs by exact Hgrp. simpl.
      destruct (IH (S index) st) as (st' & Hrun & Hinv' & Hext & Hadd & Hall & Hrem & Hcov).
      { intros a b g Hin. apply Hdeps. right. exact Hin. }
      { exact Hinv. }
      exists st'. split; [exact Hrun|]. split; [exact Hinv'|].
      split; [exact Hext|]. split; [exact Hadd|].
      split; [intros d Hin Hd; apply elem_of_cons in Hin as [->|Hin];
              [congruence|auto]|].
      split; [exact Hrem|].
      intros t Ht. simpl in Ht. apply elem_of_app in Ht as [Ht|Ht]; [|auto].
      destruct dep as [[j1|g1] [j2|g2]]; unfold has_group in Hgrp;
        simpl in Hgrp; try discriminate.
      inversion Ht.
Qed.

(** ** The links between the hubs and the members *)

Lemma group_hubs_known group cv h :
  hub_get group (group_to_hub cv) = Some h -> group_hubs group cv = (h, cv).
Proof. intros H. unfold group_hubs. rewrite H. reflexivity. Qed.

Lemma make_group_hubs_deps_spec group cv h :
  hub_get group (group_to_hub cv) = Some h ->
  (forall s, s ∈ sub_groups (elements group) ->
     is_Some (hub_get s (group_to_hub cv))) ->
  make_group_hubs_deps group cv = (member_links (group_to_hub cv) group h, cv).
Proof.
  intros Hh Hsub. unfold make_group_hubs_deps, member_links.
  rewrite (group_hubs_known _ _ _ Hh). destruct h as [in_hub out_hub]. simpl.
  set (f := fun (acc : list Dependency * Conv) (item : Element) => _).
  set (g := fun item : Element => _).
  enough (H : forall els acc,
             (forall s, s ∈ sub_groups els ->
                is_Some (hub_get s (group_to_hub cv))) ->
             fold_left f els (acc, cv) = (acc ++ flat_map g els, cv))
    by (apply (H (elements group) []); exact Hsub).
  induction els as [|item els IH]; intros acc Hels; simpl.
  - rewrite app_nil_r. reflexivity.
  - destruct item as [j|s]; simpl.
    + rewrite IH by (intros s Hs; apply Hels; exact Hs).
      rewrite <- app_assoc. reflexivity.
    + destruct (Hels s) as [sub Hs]; [left|].
      rewrite (group_hubs_known _ _ _ Hs), Hs.
      rewrite IH by (intros t Ht; apply Hels; right; exact Ht).
      rewrite <- app_assoc. reflexivity.
Qed.

Lemma member_links_jobs d k h x : x ∈ member_links d k h -> has_group x = false.
Proof.
  unfold member_links. intros Hx.
  apply elem_of_flat_map in Hx as (item & _ & Hx).
  destruct item as [j|s].
  - apply elem_of_cons in Hx as [->|Hx]; [reflexivity|].
    apply list_elem_of_singleton in Hx as ->. reflexivity.
  - destruct (hub_get s d); [|inversion Hx].
    apply elem_of_cons in Hx as [->|Hx]; [reflexivity|].
    apply list_elem_of_singleton in Hx as ->. reflexivity.
Qed.

Lemma rebuild_links_spec self0 next0 U items st :
  locals_inv self0 next0 U st ->
  (forall kv, kv ∈ items -> kv ∈ group_to_hub (cl_conv st)) ->
  rebuild_links items st =
    Return {| cl_conv := cl_conv st;
              new_deps_list :=
                new_deps_list st
                ++ flat_map (fun kv : Group * Hubs =>
                     member_links (group_to_hub (cl_conv st)) (fst kv) (snd kv))
                     items;
              deps_to_remove := deps_to_remove st |}.
Proof.
  revert st. induction items as [|[k h] items IH]; intros st Hinv Hitems; simpl.
  - rewrite app_nil_r. destruct st; reflexivity.
  - destruct Hinv as (Hinv & Hclosed & Hnew).
    assert (Hk : (k, h) ∈ group_to_hub (cl_conv st)) by (apply Hitems; left).
    rewrite (make_group_hubs_deps_spec k (cl_conv st) h).
    + rewrite Nat.eqb_refl. simpl. rewrite IH; simpl.
      * rewrite <- app_assoc. reflexivity.
      * split; [exact Hinv|]. split; [exact Hclosed|].
        intros x Hx. apply elem_of_app in Hx as [Hx|Hx]; [auto|].
        eapply member_links_jobs. exact Hx.
      * intros kv Hkv. apply Hitems. right. exact Hkv.
    + apply (inv_get _ _ _ _ Hinv). exact Hk.
    + intros s Hs. destruct (Hclosed k h s Hk Hs) as [?|Hin]; [assumption|].
      inversion Hin.
Qed.

(** ** Removal of the converted edges *)

Lemma group_indices_app index l1 l2 :
  group_indices index (l1 ++ l2) =
  group_indices index l1 ++ group_indices (index + length l1) l2.
Proof.
  revert index. induction l1 as [|d l1 IH]; intros index; simpl.
  - rewrite Nat.add_0_r. reflexivity.
  - rewrite IH, <- app_assoc.
    replace (S index + length l1) with (index + S (length l1)) by lia.
    reflexivity.
Qed.

Lemma remove_dependencies_app (l suffix : list Dependency) :
  remove_dependencies (rev (group_indices 0 l)) (l ++ suffix) =
  Return (List.filter (fun d => negb (has_group d)) l ++ suffix).
Proof.
  revert suffix. induction l as [|x l IH] using rev_ind; intros suffix.
  - reflexivity.
  - rewrite group_indices_app, rev_app_distr, List.filter_app. simpl.
    rewrite <- !app_assoc. simpl. destruct (has_group x); simpl.
    + unfold py_del. rewrite decide_True by (rewrite length_app; simpl; lia).
      simpl. rewrite delete_middle. apply IH.
    + apply IH.
Qed.

Lemma remove_dependencies_spec (l : list Dependency) :
  remove_dependencies (rev (group_indices 0 l)) l =
  Return (List.filter (fun d => negb (has_group d)) l).
Proof.
  pose proof (remove_dependencies_app l []) as H.
  rewrite !app_nil_r in H. exact H.
Qed.


(** ** The conversion as a whole *)

Lemma set_dependencies_id w : set_dependencies (dependencies w) w = w.
Proof. destruct w; reflexivity. Qed.

(** The conversion always returns.  It appends the hubs of the dictionary [d]
    to the jobs, keeps the edges between jobs, and appends the rewritten edges
    [added] and the links between the hubs and the members of their groups. *)
Lemma convert_group_dependencies_spec self next :
  exists cv added,
    let d := group_to_hub cv in
    convert_group_dependencies None self next =
      Return (set_dependencies
                (List.filter (fun dep => negb (has_group dep)) (dependencies self)
                 ++ added
                 ++ flat_map (fun kv : Group * Hubs =>
                                member_links d (fst kv) (snd kv)) d)
                (set_jobs (jobs self ++ hub_jobs d) self),
              next + 2 * length d)
    /\ hubs_inv self next (dep_groups (dependencies self)) cv
    /\ (forall t, t ∈ dep_groups (dependencies self) -> is_Some (hub_get t d))
    /\ (forall dep, dep ∈ dependencies self -> has_group dep = true ->
          exists dep', rewritten d dep = Some dep' /\ dep' ∈ added)
    /\ (forall x, x ∈ added -> has_group x = false).
Proof.
  set (U := dep_groups (dependencies self)).
  set (st0 := {| cl_conv := {| cv_self := self; group_to_hub := [];
                               next_oid := next |};
                 new_deps_list := []; deps_to_remove := [] |}).
  assert (HU : forall t s, t ∈ U -> s ∈ sub_groups (elements t) -> s ∈ U)
    by (intros t s; apply dep_groups_closed).
  assert (Hinv0 : locals_inv self next U st0).
  { split; [apply hubs_inv_init|]. split.
    - intros k h s Hk. inversion Hk.
    - intros x Hx. inversion Hx. }
  destruct (convert_dependencies_spec self next U HU (dependencies self) 0 st0)
    as (st1 & Hrun1 & Hinv1 & _ & (added & Hadd) & Hrw & Hrem & Hcov).
  { intros a b g Hin [->| ->].
    - eapply dep_groups_source; [exact Hin|]. apply all_groups_self.
    - eapply dep_groups_target; [exact Hin|]. apply all_groups_self. }
  { exact Hinv0. }
  exists (cl_conv st1), added. cbv zeta.
  unfold convert_group_dependencies. fold st0. rewrite Hrun1. simpl.
  rewrite (rebuild_links_spec self next U _ st1 Hinv1) by auto. simpl.
  destruct Hinv1 as (Hinv1 & Hclosed1 & Hnew1).
  rewrite (inv_self _ _ _ _ Hinv1). simpl.
  rewrite Hrem, app_nil_r, remove_dependencies_spec. simpl.
  rewrite (inv_next _ _ _ _ Hinv1), Hadd. simpl.
  split; [reflexivity|]. split; [exact Hinv1|]. split; [exact Hcov|].
  split.
  - intros dep Hin Hg. destruct (Hrw dep Hin Hg) as (dep' & Hd & Hin').
    exists dep'. split; [exact Hd|]. rewrite Hadd in Hin'. exact Hin'.
  - intros x Hx. apply Hnew1. rewrite Hadd. exact Hx.
Qed.

(** Without a group at the end of an edge the conversion changes nothing. *)
Lemma convert_dependencies_jobs reindex deps index st :
  (forall dep, dep ∈ deps -> has_group dep = false) ->
  convert_dependencies reindex index deps st = Return st.
Proof.
  revert index. induction deps as [|dep deps IH]; intros index Hdeps; simpl.
  - reflexivity.
  - rewrite convert_dependency_jobs by (apply Hdeps; left). simpl.
    apply IH. intros d Hd. apply Hdeps. right. exact Hd.
Qed.

Lemma convert_group_dependencies_jobs dependencies_arg self next :
  (forall dep, dep ∈ default (dependencies self) dependencies_arg ->
               has_group dep = false) ->
  convert_group_dependencies dependencies_arg self next = Return (self, next).
Proof.
  intros Hdeps. unfold convert_group_dependencies.
  destruct dependencies_arg as [deps|]; simpl in Hdeps;
    rewrite convert_dependencies_jobs by exact Hdeps; simpl;
    rewrite app_nil_r, set_dependencies_id; reflexivity.
Qed.

(** After the conversion no edge has a group at one of its ends. *)
Lemma convert_group_dependencies_no_group self next w next' :
  convert_group_dependencies None self next = Return (w, next') ->
  forall dep, dep ∈ dependencies w -> has_group dep = false.
Proof.
  destruct (convert_group_dependencies_spec self next)
    as (cv & added & Hrun & _ & _ & _ & Hadded).
  cbv zeta in Hrun. rewrite Hrun. intros [= <- <-] dep. simpl.
  rewrite !elem_of_app. intros [Hin|[Hin|Hin]].
  - apply list_elem_of_In, filter_In in Hin as [_ Hin].
    apply negb_true_iff. exact Hin.
  - auto.
  - apply elem_of_flat_map in Hin as (kv & _ & Hin).
    eapply member_links_jobs. exact Hin.
Qed.

(** ** Construction of a workflow *)

Lemma explore_groups_total fuel to_explore groups :
  groups_count to_explore <= fuel ->
  exists gs, explore_groups fuel to_explore groups = Return gs.
Proof.
  revert to_explore groups.
  induction fuel as [|fuel IH]; intros to_explore groups Hfuel.
  - destruct to_explore as [|g rest] using rev_ind; [simpl; eauto|].
    rewrite groups_count_app in Hfuel. simpl in Hfuel.
    rewrite group_count_unfold in Hfuel. lia.
  - destruct to_explore as [|g rest _] using rev_ind; [simpl; eauto|].
    simpl. rewrite rev_app_distr. simpl. rewrite rev_involutive.
    apply IH. rewrite groups_count_app in *. simpl in Hfuel.
    rewrite group_count_unfold in Hfuel. lia.
Qed.

Lemma Workflow_init_spec next jobs_arg dependencies_arg root_group
    disposal_timeout name :
  exists gs rg w next',
    let self := {| wf_name := name; jobs := jobs_arg;
                   dependencies := default [] dependencies_arg;
                   root_group := rg; groups := gs;
                   wf_disposal_timeout := 168 |} in
    convert_group_dependencies None self next = Return (w, next')
    /\ Workflow_init next jobs_arg dependencies_arg root_group disposal_timeout
         name
       = Return (if root_group_given root_group then w
                 else set_root_group (map EJob (jobs w)) w, next').
Proof.
  unfold Workflow_init.
  set (rg := match root_group with
             | Some (RootGroup g) => elements g
             | Some (RootElements els) => els
             | None => []
             end).
  assert (Hgs : exists gs,
            (if root_group_given root_group
             then explore_groups (groups_count (sub_groups rg)) (sub_groups rg) []
             else Return []) = Return gs).
  { destruct (root_group_given root_group); [|eauto].
    apply explore_groups_total. lia. }
  destruct Hgs as (gs & ->). simpl.
  set (self := {| wf_name := name; jobs := jobs_arg;
                  dependencies := default [] dependencies_arg;
                  root_group := rg; groups := gs; wf_disposal_timeout := 168 |}).
  destruct (convert_group_dependencies_spec self next) as (cv & added & Hrun & _).
  cbv zeta in Hrun. eexists gs, rg, _, _. cbv zeta. fold self.
  split; [exact Hrun|]. rewrite Hrun. simpl.
  destruct (root_group_given root_group); reflexivity.
Qed.

(** ** Strings *)

Lemma append_cons (c : ascii) (s t : string) :
  String c s +:+ t = String c (s +:+ t).
Proof. reflexivity. Qed.

Lemma append_nil_l (t : string) : "" +:+ t = t.
Proof. reflexivity. Qed.

Lemma append_nil_r (s : string) : s +:+ "" = s.
Proof.
  induction s as [|c s IH]; [reflexivity|]. rewrite append_cons, IH. reflexivity.
Qed.

Lemma append_assoc (s1 s2 s3 : string) : (s1 +:+ s2) +:+ s3 = s1 +:+ s2 +:+ s3.
Proof.
  induction s1 as [|c s1 IH]; [reflexivity|].
  rewrite !append_cons, IH. reflexivity.
Qed.

Lemma drop_last_append (s : string) (c : ascii) :
  drop_last (s +:+ String c "") = s.
Proof.
  induction s as [|a s IH]; [reflexivity|].
  rewrite append_cons. destruct s as [|b s]; [reflexivity|].
  rewrite append_cons in *. simpl in *. f_equal. exact IH.
Qed.

Lemma py_format_plain (arg : string) : py_format "%s" arg = Some arg.
Proof.
  unfold py_format. change (Some (arg +:+ "") = Some arg).
  rewrite append_nil_r. reflexivity.
Qed.

Lemma build_uri_fold (items : list (string * string)) (acc : string) :
  fold_left (fun acc kv => acc +:+ fst kv +:+ "=" +:+ snd kv +:+ "&") items acc =
  acc +:+ fold_right (fun kv s => (fst kv +:+ "=" +:+ snd kv) +:+ "&" +:+ s) ""
            items.
Proof.
  revert acc. induction items as [|kv items IH]; intros acc; simpl.
  - rewrite append_nil_r. reflexivity.
  - rewrite IH. rewrite !append_assoc. reflexivity.
Qed.

Lemma build_uri_dict_uri (items : list (string * string)) :
  items <> [] -> build_uri items = dict_uri items.
Proof.
  intros Hne. unfold build_uri, dict_uri. rewrite build_uri_fold.
  assert (H : fold_right
                (fun kv s => (fst kv +:+ "=" +:+ snd kv) +:+ "&" +:+ s) "" items
              = String.concat "&"
                  (map (fun kv => fst kv +:+ "=" +:+ snd kv) items) +:+ "&").
  { clear -Hne. induction items as [|kv items IH]; [congruence|].
    destruct items as [|kv' items]; [reflexivity|].
    set (p := fun kv : string * string => fst kv +:+ "=" +:+ snd kv) in *.
    set (f := fun (kv : string * string) (s : string) => p kv +:+ "&" +:+ s) in *.
    change (p kv +:+ "&" +:+ fold_right f "" (kv' :: items)
            = (p kv +:+ "&" +:+ String.concat "&" (map p (kv' :: items)))
              +:+ "&").
    subst f p. cbv beta in *.
    rewrite IH by discriminate. rewrite !append_assoc. reflexivity. }
  rewrite H, <- append_assoc. apply drop_last_append.
Qed.

(** ** Claims about the constructors *)

(** C10.  A job constructed with a falsy [name] argument and a command that is
    not empty is named after the first element of its command; in every other
    case its name is the [name] argument. *)
Theorem job_name_default barrier self command referenced_input_files
    referenced_output_files stdin join_stderrout disposal_timeout name
    stdout_file stderr_file working_directory parallel_job_info priority
    native_specification :
  job_name
    (Job_init barrier self command referenced_input_files
       referenced_output_files stdin join_stderrout disposal_timeout name
       stdout_file stderr_file working_directory parallel_job_info priority
       native_specification)
  = match command with
    | first :: _ => if truthy name then name else first
    | [] => name
    end.
Proof.
  simpl. destruct command as [|first rest]; simpl.
  - rewrite andb_false_r. reflexivity.
  - rewrite andb_true_r. destruct (truthy name); reflexivity.
Qed.

(** C6.  A file transfer constructed with [is_input] true has the initial
    status [FILES_ON_CLIENT], one constructed with [is_input] false has the
    initial status [FILES_DO_NOT_EXIST]; the constructor only fails, with a
    [TypeError], when it is given no client path. *)
Theorem transfer_initial_status self (is_input : bool) client_path
    disposal_timeout name client_paths :
  match FileTransfer_init self (VBool is_input) client_path disposal_timeout
          name client_paths with
  | Return transfer =>
      initial_status transfer
      = if is_input then FILES_ON_CLIENT else FILES_DO_NOT_EXIST
  | Raise e => e = TypeError /\ client_path = None
  | OutOfFuel => False
  end.
Proof. destruct client_path; simpl; auto. Qed.

(** C7.  An option path constructed from a parent path and a URI, given as a
    string or as a dictionary with at least one option, resolves to the
    resolved parent followed by the URI; the URI of a dictionary is the
    question mark followed by its [key=value] pairs joined with ampersands. *)
Theorem option_path_resolution self parent uri name path parent_str uri_str :
  OptionPath_init self parent uri name = Return path ->
  ParentArg_str parent = Some parent_str ->
  given_uri uri = Some uri_str ->
  uri <> UriDict [] ->
  SpecialPath_str (OptionPath path) = Some (parent_str +:+ uri_str).
Proof.
  intros Hinit Hparent Huri Hne.
  assert (Hstored : (match uri with
                     | UriDict items => build_uri items
                     | UriStr s => if String.eqb s "" then "" else s
                     | UriNone => "None"
                     end) = uri_str).
  { destruct uri as [|s|items]; simpl in Huri; [discriminate| |].
    - injection Huri as <-. destruct (String.eqb_spec s ""); congruence.
    - injection Huri as <-. apply build_uri_dict_uri. congruence. }
  destruct parent as [|s|p]; simpl in Hinit, Hparent.
  - injection Hinit as <-. injection Hparent as <-. simpl.
    rewrite Hstored. apply py_format_plain.
  - injection Hinit as <-. injection Hparent as <-. simpl.
    rewrite Hstored. apply py_format_plain.
  - destruct p; try (injection Hinit as <-; simpl in *; rewrite Hparent, Hstored;
                     apply py_format_plain).
    destruct uri; simpl in Huri; discriminate.
Qed.

(** ** Claims about the conversion of the group dependencies *)

Lemma sub_groups_elem s els : EGroup s ∈ els -> s ∈ sub_groups els.
Proof.
  induction els as [|[j|g] els IH]; intros Hin.
  - inversion Hin.
  - apply elem_of_cons in Hin as [Heq|Hin]; [discriminate|]. simpl. auto.
  - apply elem_of_cons in Hin as [Heq|Hin]; simpl.
    + injection Heq as ->. left.
    + right. auto.
Qed.

Lemma member_links_job d k h j :
  EJob j ∈ elements k ->
  (EJob (fst h), EJob j) ∈ member_links d k h
  /\ (EJob j, EJob (snd h)) ∈ member_links d k h.
Proof.
  intros Hin. unfold member_links.
  split; apply elem_of_flat_map; exists (EJob j); (split; [exact Hin|]).
  - left.
  - right. left.
Qed.

Lemma member_links_group d k h s sub :
  EGroup s ∈ elements k -> hub_get s d = Some sub ->
  (EJob (fst h), EJob (fst sub)) ∈ member_links d k h
  /\ (EJob (snd sub), EJob (snd h)) ∈ member_links d k h.
Proof.
  intros Hin Hsub. unfold member_links.
  split; apply elem_of_flat_map; exists (EGroup s); (split; [exact Hin|]);
    rewrite Hsub.
  - left.
  - right. left.
Qed.

Lemma hub_jobs_elem d k h :
  (k, h) ∈ d -> fst h ∈ hub_jobs d /\ snd h ∈ hub_jobs d.
Proof.
  intros Hin. unfold hub_jobs.
  split; apply elem_of_flat_map; exists (k, h); (split; [exact Hin|]); simpl.
  - left.
  - right. left.
Qed.

Lemma BarrierJob_init_name self ins outs name :
  job_name (BarrierJob_init self ins outs name) = name.
Proof.
  unfold BarrierJob_init, Job_init. simpl. rewrite andb_false_r. reflexivity.
Qed.

(** C2.  Constructing a workflow whose dependencies have groups at their ends
    gives every group reached from such an end (the group itself and,
    recursively, the groups under it) a pair of new barrier jobs named
    [<group>_input] and [<group>_output], appended to the jobs of the
    workflow, and no other group receives barriers; every job of the group has an edge from the input barrier and
    an edge to the output barrier, and the barriers of a sub-group are linked
    to the barriers of the group in the same way; every edge [X -> group] has
    become [X -> group_input], every edge [group -> Y] has become
    [group_output -> Y], an edge between two groups goes from the output
    barrier of the first to the input barrier of the second, and no edge with
    a group at one of its ends remains. *)
Theorem group_expansion_rewrite next jobs_arg dependencies_arg root_group
    disposal_timeout name :
  oids_identify (dep_groups (default [] dependencies_arg)) ->
  exists w next' d,
    Workflow_init next jobs_arg dependencies_arg root_group disposal_timeout
      name = Return (w, next')
    /\ jobs w = jobs_arg ++ hub_jobs d
    /\ (forall i g h, d !! i = Some (g, h) ->
          g ∈ dep_groups (default [] dependencies_arg)
          /\ hub_get g d = Some h)
    /\ (forall g, g ∈ dep_groups (default [] dependencies_arg) ->
          exists i in_hub out_hub,
            d !! i = Some (g, (in_hub, out_hub))
            /\ hub_get g d = Some (in_hub, out_hub)
            /\ in_hub ∈ jobs w /\ out_hub ∈ jobs w
            /\ is_BarrierJob in_hub = true /\ is_BarrierJob out_hub = true
            /\ command in_hub = [] /\ command out_hub = []
            /\ job_name in_hub = VStr (group_name g +:+ "_input")
            /\ job_name out_hub = VStr (group_name g +:+ "_output")
            /\ job_oid in_hub = next + 2 * i
            /\ job_oid out_hub = S (next + 2 * i)
            /\ (forall j, EJob j ∈ elements g ->
                  (EJob in_hub, EJob j) ∈ dependencies w
                  /\ (EJob j, EJob out_hub) ∈ dependencies w)
            /\ (forall s, EGroup s ∈ elements g ->
                  exists sub_in sub_out,
                    hub_get s d = Some (sub_in, sub_out)
                    /\ (EJob in_hub, EJob sub_in) ∈ dependencies w
                    /\ (EJob sub_out, EJob out_hub) ∈ dependencies w))
    /\ (forall a b, (a, b) ∈ default [] dependencies_arg ->
          exists a' b',
            source_end d a = Some a' /\ target_end d b = Some b'
            /\ (a', b') ∈ dependencies w)
    /\ (forall dep, dep ∈ dependencies w -> has_group dep = false).
Proof.
  intros Hids.
  destruct (Workflow_init_spec next jobs_arg dependencies_arg root_group
              disposal_timeout name) as (gs & rg & w0 & next' & Hconv & Hinit).
  cbv zeta in Hconv.
  set (self := {| wf_name := name; jobs := jobs_arg;
                  dependencies := default [] dependencies_arg;
                  root_group := rg; groups := gs;
                  wf_disposal_timeout := 168 |}) in *.
  destruct (convert_group_dependencies_spec self next)
    as (cv & added & Hrun & Hinv & Hcov & Hrw & Hadded).
  cbv zeta in Hrun. rewrite Hrun in Hconv. injection Hconv as Hw0 Hnext.
  set (d := group_to_hub cv) in *. simpl in Hcov, Hrw.
  set (deps := default [] dependencies_arg) in *.
  set (links := flat_map (fun kv : Group * Hubs => member_links d (fst kv) (snd kv)) d) in *.
  set (w := if root_group_given root_group then w0
            else set_root_group (map EJob (jobs w0)) w0) in *.
  assert (Hjobs : jobs w = jobs_arg ++ hub_jobs d).
  { unfold w. destruct (root_group_given root_group); rewrite <- Hw0; reflexivity. }
  assert (Hdeps : dependencies w =
            List.filter (fun dep => negb (has_group dep)) deps ++ added ++ links).
  { unfold w. destruct (root_group_given root_group); rewrite <- Hw0; reflexivity. }
  assert (Hkey : forall g h, g ∈ dep_groups deps -> hub_get g d = Some h -> (g, h) ∈ d).
  { intros g h Hg Hh. destruct (hub_get_key _ _ _ Hh) as (k & Hk & Hoid).
    rewrite <- (Hids k g); auto. exact (inv_keys _ _ _ _ Hinv k h Hk). }
  assert (Hlinks : forall g h x, (g, h) ∈ d -> x ∈ member_links d g h -> x ∈ dependencies w).
  { intros g h x Hg Hx. rewrite Hdeps, !elem_of_app. right. right.
    apply elem_of_flat_map. exists (g, h). split; [exact Hg|exact Hx]. }
  exists w, next', d. split; [exact Hinit|]. split; [exact Hjobs|].
  split; [|split; [|split]].
  - intros i g h Hi. apply list_elem_of_lookup_2 in Hi.
    split; [exact (inv_keys _ _ _ _ Hinv g h Hi)|].
    exact (inv_get _ _ _ _ Hinv g h Hi).
  - intros g Hg. destruct (Hcov g Hg) as [[in_hub out_hub] Hh].
    pose proof (Hkey g _ Hg Hh) as Hin.
    destruct (list_elem_of_lookup_1 _ _ Hin) as [i Hi].
    pose proof (inv_hubs _ _ _ _ Hinv i g _ Hi) as Hat.
    destruct (hub_jobs_elem _ _ _ Hin) as [Hj1 Hj2]. simpl in Hj1, Hj2.
    exists i, in_hub, out_hub. split; [exact Hi|]. split; [exact Hh|].
    split; [rewrite Hjobs; apply elem_of_app; right; exact Hj1|].
    split; [rewrite Hjobs; apply elem_of_app; right; exact Hj2|].
    injection Hat as -> ->.
    do 4 (split; [reflexivity|]).
    do 2 (split; [apply BarrierJob_init_name|]).
    do 2 (split; [reflexivity|]). split.
    + intros j Hj.
      destruct (member_links_job d g (hubs_at next i g) j Hj) as [H1 H2].
      split; eapply Hlinks; eauto.
    + intros s Hs.
      assert (Hsg : s ∈ dep_groups deps)
        by (eapply dep_groups_closed; [exact Hg|apply sub_groups_elem, Hs]).
      destruct (Hcov s Hsg) as [[sub_in sub_out] Hsub].
      exists sub_in, sub_out. split; [exact Hsub|].
      destruct (member_links_group d g (hubs_at next i g) s _ Hs Hsub) as [H1 H2].
      split; eapply Hlinks; eauto.
  - intros a b Hab. destruct (has_group (a, b)) eqn:Hgrp.
    + destruct (Hrw (a, b) Hab Hgrp) as ([a' b'] & Hr & Hin).
      unfold rewritten in Hr. simpl in Hr.
      destruct (source_end d a) as [a''|]; [|discriminate].
      destruct (target_end d b) as [b''|]; [|discriminate].
      injection Hr as -> ->. exists a', b'. split; [reflexivity|].
      split; [reflexivity|]. rewrite Hdeps, !elem_of_app. right. left. exact Hin.
    + pose proof (rewritten_jobs d (a, b) Hgrp) as Hr.
      unfold rewritten in Hr. simpl in Hr.
      destruct (source_end d a) as [a''|]; [|discriminate].
      destruct (target_end d b) as [b''|]; [|discriminate].
      injection Hr as -> ->. exists a, b. split; [reflexivity|].
      split; [reflexivity|]. rewrite Hdeps, !elem_of_app. left.
      apply list_elem_of_In, filter_In. split; [apply list_elem_of_In, Hab|].
      rewrite Hgrp. reflexivity.
  - intros dep. rewrite Hdeps, !elem_of_app. intros [Hin|[Hin|Hin]].
    + apply list_elem_of_In, filter_In in Hin as [_ Hin].
      apply negb_true_iff. exact Hin.
    + auto.
    + apply elem_of_flat_map in Hin as (kv & _ & Hin).
      eapply member_links_jobs. exact Hin.
Qed.

Lemma group_expansion_rewrite_witness :
  oids_identify (dep_groups [(EGroup group_G, EJob job_W)])
  /\ exists w next' d,
       fan_in_workflow = Return (w, next')
       /\ jobs w = [job_X; job_Y; job_Z; job_W] ++ hub_jobs d
       /\ (forall a b, (a, b) ∈ [(EGroup group_G, EJob job_W)] ->
             exists a' b',
               source_end d a = Some a' /\ target_end d b = Some b'
               /\ (a', b') ∈ dependencies w)
       /\ (forall dep, dep ∈ dependencies w -> has_group dep = false).
Proof.
  assert (H : oids_identify (dep_groups [(EGroup group_G, EJob job_W)])).
  { intros g1 g2 H1 H2 _. simpl in H1, H2.
    apply list_elem_of_singleton in H1, H2. congruence. }
  split; [exact H|].
  destruct (group_expansion_rewrite 6 [job_X; job_Y; job_Z; job_W]
              (Some [(EGroup group_G, EJob job_W)]) None 168%Z None H)
    as (w & next' & d & Hinit & Hjobs & _ & _ & Hedges & Hnone).
  exists w, next', d. auto.
Defined.

(** C4.  On a workflow whose dependencies have no group at their ends, and in
    particular on a workflow that the conversion has already expanded, the
    conversion of the group dependencies returns the workflow as it is: the
    jobs and the dependencies are unchanged and no object is allocated.  The
    same holds when the conversion is given a list of dependencies to check,
    none of which has a group at its ends. *)
Theorem conversion_idempotent dependencies_arg self next :
  (forall dep, dep ∈ default (dependencies self) dependencies_arg ->
               has_group dep = false)
  \/ (dependencies_arg = None
      /\ exists self0 next0,
           convert_group_dependencies None self0 next0 = Return (self, next)) ->
  convert_group_dependencies dependencies_arg self next = Return (self, next).
Proof.
  intros [Hjobs|(-> & self0 & next0 & Hrun)].
  - apply convert_group_dependencies_jobs. exact Hjobs.
  - apply convert_group_dependencies_jobs. simpl.
    eapply convert_group_dependencies_no_group. exact Hrun.
Qed.

(** C9.  Constructing a workflow always succeeds, and the workflow has the
    disposal timeout 168 whatever the [disposal_timeout] argument is. *)
Theorem workflow_disposal_timeout next jobs_arg dependencies_arg root_group
    disposal_timeout name :
  exists w next',
    Workflow_init next jobs_arg dependencies_arg root_group disposal_timeout
      name = Return (w, next')
    /\ wf_disposal_timeout w = 168%Z.
Proof.
  destruct (Workflow_init_spec next jobs_arg dependencies_arg root_group
              disposal_timeout name) as (gs & rg & w0 & next' & Hconv & Hinit).
  cbv zeta in Hconv. eexists _, _. split; [exact Hinit|].
  match type of Hconv with
  | convert_group_dependencies None ?self _ = _ =>
      destruct (convert_group_dependencies_spec self next)
        as (cv & added & Hrun & _)
  end.
  cbv zeta in Hrun. rewrite Hrun in Hconv. injection Hconv as <- _.
  destruct (root_group_given root_group); reflexivity.
Qed.

(** ** The job scheduler *)

Local Open Scope method_scope.

Lemma call_isUserJob_spec job_id w :
  call_isUserJob "_JobScheduler__jobServer" job_id w =
  (Return (isUserJob (job_server w) job_id (user_id w)), w).
Proof. reflexivity. Qed.

Lemma call_isUserTransfer_spec path w :
  call_isUserTransfer "_JobScheduler__jobServer" path w =
  (Return (isUserTransfer (job_server w) path (user_id w)), w).
Proof. reflexivity. Qed.

(** The methods that test the ownership before anything else refuse the
    caller who does not own the job or the transfer, and change nothing but
    the printed text. *)
Lemma checked_methods_isolated (job_id : nat) (path : string) (w : World) :
  isUserJob (job_server w) job_id (user_id w) = false ->
  isUserTransfer (job_server w) path (user_id w) = false ->
  (fst (status job_id w) = Return None
   /\ without_console (snd (status job_id w)) = without_console w)
  /\ (fst (exitInformation job_id w) = Return None
      /\ without_console (snd (exitInformation job_id w)) = without_console w)
  /\ (fst (stdoutReadLine job_id w) = Return None
      /\ without_console (snd (stdoutReadLine job_id w)) = without_console w)
  /\ (fst (getTransferInformation path w) = Return None
      /\ without_console (snd (getTransferInformation path w))
         = without_console w)
  /\ without_console (snd (dispose job_id w)) = without_console w
  /\ without_console (snd (cancelTransfer path w)) = without_console w
  /\ stop job_id w = (Raise JobSchedulerError, w)
  /\ restart job_id w = (Raise JobSchedulerError, w)
  /\ kill job_id w = (Raise JobSchedulerError, w).
Proof.
  intros Hjob Htransfer.
  unfold status, exitInformation, stdoutReadLine, getTransferInformation,
    dispose, cancelTransfer, stop, restart, kill, bind.
  rewrite !call_isUserJob_spec, !call_isUserTransfer_spec, Hjob, Htransfer.
  simpl. repeat split; reflexivity.
Qed.

(** [wait] refuses a set of jobs as soon as the caller does not own one of
    them, and changes nothing. *)
Lemma wait_isolated (job_ids : list nat) (timeout : Z) (w : World) :
  (exists job_id, job_id ∈ job_ids
                  /\ isUserJob (job_server w) job_id (user_id w) = false) ->
  wait job_ids timeout w = (Raise JobSchedulerError, w).
Proof.
  intros (job_id & Hin & Hjob). unfold wait, bind.
  enough (H : check_jobs job_ids w = (Raise JobSchedulerError, w))
    by (rewrite H; reflexivity).
  induction job_ids as [|jid rest IH]; [inversion Hin|].
  simpl. unfold bind. rewrite call_isUserJob_spec.
  destruct (isUserJob (job_server w) jid (user_id w)) eqn:Hjid; [|reflexivity].
  simpl. apply IH. apply elem_of_cons in Hin as [->|Hin]; [congruence|exact Hin].
Qed.

(** C1, on the code: [output] and [errorOutput] test no ownership and open the
    files of a job of another user, and [stderrReadLine] reads an attribute
    that the scheduler does not have.  User 1 calls them on job 7 of user 2. *)
Theorem output_ignores_ownership :
  isUserJob (job_server two_users_world) 7 (user_id two_users_world) = false
  /\ fst (output 7 two_users_world)
     = Return {| file_name := "/out/7"; file_position := 0 |}
  /\ opened (snd (output 7 two_users_world)) = ["/out/7"]
  /\ fst (errorOutput 7 two_users_world)
     = Return (Some {| file_name := "/err/7"; file_position := 0 |})
  /\ opened (snd (errorOutput 7 two_users_world)) = ["/err/7"]
  /\ fst (stderrReadLine 7 two_users_world) = Raise AttributeError.
Proof. vm_compute. repeat split; reflexivity. Qed.



Lemma reference_count_removeTransferASAP s path path' now :
  reference_count (removeTransferASAP s path' now) path = reference_count s path.
Proof. reflexivity. Qed.

Lemma sweep_deletes_only_swept now w path :
  is_Some (files w !! path) -> files (sweep now w) !! path = None ->
  exists info,
    server_transfers (job_server w) !! path = Some info
    /\ swept (job_server w) now path info = true.
Proof.
  intros [content Hfile] Hgone. simpl in Hgone.
  apply map_lookup_filter_None in Hgone as [Hnone|Hnot]; [congruence|].
  specialize (Hnot content Hfile). simpl in Hnot.
  destruct (filter _ (server_transfers (job_server w)) !! path) as [info|] eqn:Hl;
    [|congruence].
  apply map_lookup_filter_Some in Hl as [Hinfo Hswept]. eauto.
Qed.

Lemma sweep_keeps_referenced now w path :
  (forall info, server_transfers (job_server w) !! path = Some info ->
                swept (job_server w) now path info = false) ->
  files (sweep now w) !! path = files w !! path.
Proof.
  intros Hkeep. simpl.
  destruct (files w !! path) as [content|] eqn:Hfile.
  - apply map_lookup_filter_Some. split; [exact Hfile|]. simpl.
    apply eq_None_not_Some. intros [info Hl].
    apply map_lookup_filter_Some in Hl as [Hinfo Hswept]. simpl in Hswept.
    rewrite (Hkeep info Hinfo) in Hswept. discriminate.
  - apply map_lookup_filter_None. left. exact Hfile.
Qed.

Lemma cancelTransfer_owned path w :
  isUserTransfer (job_server w) path (user_id w) = true ->
  cancelTransfer path w =
  (Return tt,
   {| job_server := removeTransferASAP (job_server w) path (today w);
      files := files w; user_id := user_id w;
      fileToRead := fileToRead w; fileToWrite := fileToWrite w;
      stdoutFileToRead := stdoutFileToRead w;
      stderrFileToRead := stderrFileToRead w;
      drmaa_calls := drmaa_calls w; drmaa_next_job := drmaa_next_job w;
      today := today w; opened := opened w; console := console w |}).
Proof.
  intros Howned. unfold cancelTransfer, bind.
  rewrite call_isUserTransfer_spec, Howned. reflexivity.
Qed.

(** C8.  The sweeper deletes the server-side file of a transfer only when the
    expiration date of the transfer has passed and no job references it;
    [cancelTransfer], called by the owner of a transfer, changes nothing but
    the expiration date of the transfer, which becomes the current date, and
    a sweep after it leaves the file of a transfer that a job still
    references where it is. *)
Theorem transfer_gc_safety (w : World) (path : string) (now : Z) :
  (is_Some (files w !! path) -> files (sweep now w) !! path = None ->
   exists info,
     server_transfers (job_server w) !! path = Some info
     /\ (ti_expiration_date info <= now)%Z
     /\ reference_count (job_server w) path = 0)
  /\ (isUserTransfer (job_server w) path (user_id w) = true ->
      exists w' info,
        cancelTransfer path w = (Return tt, w')
        /\ server_transfers (job_server w) !! path = Some info
        /\ server_transfers (job_server w') =
             <[path := {| ti_owner := ti_owner info;
                          ti_remote_file_path := ti_remote_file_path info;
                          ti_expiration_date := today w |}]>
               (server_transfers (job_server w))
        /\ server_jobs (job_server w') = server_jobs (job_server w)
        /\ files w' = files w
        /\ drmaa_calls w' = drmaa_calls w
        /\ (0 < reference_count (job_server w) path ->
            files (sweep now w') !! path = files w !! path)).
Proof.
  split.
  - intros Hfile Hgone.
    destruct (sweep_deletes_only_swept now w path Hfile Hgone)
      as (info & Hinfo & Hswept).
    exists info. split; [exact Hinfo|]. unfold swept in Hswept.
    apply andb_true_iff in Hswept as [Hdate Hcount].
    split; [apply Z.leb_le, Hdate|apply Nat.eqb_eq, Hcount].
  - intros Howned. rewrite (cancelTransfer_owned path w Howned).
    unfold isUserTransfer in Howned.
    destruct (server_transfers (job_server w) !! path) as [info|] eqn:Hinfo;
      [|discriminate].
    eexists _, info. split; [reflexivity|].
    split; [reflexivity|]. split.
    + simpl. apply map_eq. intros p. destruct (decide (p = path)) as [->|Hne].
      * rewrite lookup_alter_eq, lookup_insert_eq, Hinfo. reflexivity.
      * rewrite lookup_alter_ne, lookup_insert_ne by congruence. reflexivity.
    + do 3 (split; [reflexivity|]). intros Hlive.
      eapply eq_trans; [apply sweep_keeps_referenced|reflexivity].
      intros info' _. unfold swept. cbn [job_server].
      rewrite reference_count_removeTransferASAP.
      destruct (reference_count (job_server w) path); [lia|].
      apply andb_false_r.
Qed.

Lemma transfer_gc_safety_witness :
  isUserTransfer (job_server two_users_world) "/pool/in"
    (user_id two_users_world) = true
  /\ 0 < reference_count (job_server two_users_world) "/pool/in"
  /\ exists w',
       cancelTransfer "/pool/in" two_users_world = (Return tt, w')
       /\ files (sweep 10 w') !! "/pool/in" = Some ["data"].
Proof.
  assert (Howned : isUserTransfer (job_server two_users_world) "/pool/in"
                     (user_id two_users_world) = true) by reflexivity.
  assert (Hlive : 0 < reference_count (job_server two_users_world) "/pool/in")
    by (vm_compute; lia).
  split; [exact Howned|]. split; [exact Hlive|].
  destruct (transfer_gc_safety two_users_world "/pool/in" 10) as [_ Hcancel].
  destruct (Hcancel Howned) as (w' & info & Hrun & _ & _ & _ & _ & _ & Hkeep).
  exists w'. split; [exact Hrun|]. rewrite (Hkeep Hlive). reflexivity.
Defined.

(** ** Witnesses and evaluations *)

Lemma conversion_idempotent_witness :
  (exists self0 next0,
     convert_group_dependencies None self0 next0 = Return fan_in_expanded)
  /\ convert_group_dependencies None (fst fan_in_expanded) (snd fan_in_expanded)
     = Return fan_in_expanded.
Proof.
  assert (H : exists self0 next0,
            convert_group_dependencies None self0 next0 = Return fan_in_expanded)
    by (exists fan_in_start, 6; vm_compute; reflexivity).
  split; [exact H|].
  apply (conversion_idempotent None (fst fan_in_expanded) (snd fan_in_expanded)).
  right. split; [reflexivity|exact H].
Defined.

Lemma option_path_resolution_witness :
  exists path,
    OptionPath_init 2 (ArgSpecial (FileTransfer input_transfer))
      (UriStr "?a=1") None = Return path
    /\ SpecialPath_str (OptionPath path) = Some "/in?a=1".
Proof.
  eexists. split; [reflexivity|].
  apply (option_path_resolution 2 (ArgSpecial (FileTransfer input_transfer))
           (UriStr "?a=1") None _ "/in" "?a=1");
    [reflexivity|reflexivity|reflexivity|discriminate].
Defined.

Example option_path_of_dictionary :
  exists path,
    OptionPath_init 2 (ArgStr "/data/img") (UriDict [("a", "1"); ("b", "2")])
      None = Return path
    /\ SpecialPath_str (OptionPath path) = Some "/data/img?a=1&b=2".
Proof. eexists. split; reflexivity. Qed.

Example input_transfer_constructed :
  FileTransfer_init 1 (VBool true) (Some "/in") 168 None None
  = Return input_transfer.
Proof. reflexivity. Qed.

(** The workflow of scenario S4 after its construction: the barriers
    [G_input] (6) and [G_output] (7) follow the jobs, W depends on [G_output]
    only, and X, Y and Z depend on [G_input]. *)
Example fan_in_expansion :
  exists w,
    fan_in_workflow = Return (w, 8)
    /\ map (fun j => (job_oid j, job_name j, is_BarrierJob j)) (jobs w)
       = [(1, VStr "x", false); (2, VStr "y", false); (3, VStr "z", false);
          (4, VStr "w", false); (6, VStr "G_input", true);
          (7, VStr "G_output", true)]
    /\ map (fun d => (elem_oid (fst d), elem_oid (snd d))) (dependencies w)
       = [(7, 4); (6, 1); (1, 7); (6, 2); (2, 7); (6, 3); (3, 7)].
Proof. eexists. split; [vm_compute; reflexivity|]. split; reflexivity. Qed.

(** A workflow without option paths comes back attribute-equal. *)
Example fan_in_round_trips python3 : fan_in_round_trip python3 = Return true.
Proof. destruct python3; vm_compute; reflexivity. Qed.

(** C3, on the code: a workflow whose job has an option path on a file
    transfer in its command does not come back attribute-equal from
    [Workflow.from_dict (w.to_dict ())]: [OptionPath.attributs_equal] compares
    the parent paths with [==], which holds for the same object only, and the
    parent of the rebuilt option path is a new file transfer. *)
Theorem round_trip_fails_on_option_path python3 :
  option_path_round_trip python3 = Return false.
Proof. destruct python3; vm_compute; reflexivity. Qed.

(** * Further properties *)

Local Open Scope nat_scope.

(** ** Dependencies added after the construction *)











Lemma rewritten_no_group d dep dep' :
  rewritten d dep = Some dep' -> has_group dep' = false.
Proof.
  unfold rewritten. destruct dep as [[j1|g1] [j2|g2]]; simpl;
    repeat (destruct (hub_get _ d); simpl); intros [= <-]; reflexivity.
Qed.






(** ** The groups of a constructed workflow *)

Lemma all_groups_flat_map_snoc (l : list Group) (g : Group) :
  flat_map all_groups (l ++ [g])
  ≡ₚ g :: flat_map all_groups (l ++ sub_groups (elements g)).
Proof.
  rewrite !flat_map_app. simpl. rewrite app_nil_r, (all_groups_unfold g).
  symmetry. apply Permutation_middle.
Qed.

(** The loop over [to_explore] ends within its bound and appends to
    [self.groups] every group found under the groups to explore. *)
Lemma explore_groups_spec fuel :
  forall to_explore groups,
    groups_count to_explore <= fuel ->
    exists found,
      explore_groups fuel to_explore groups = Return (groups ++ found)
      /\ found ≡ₚ flat_map all_groups to_explore.
Proof.
  induction fuel as [|fuel IH]; intros to_explore groups Hfuel.
  - destruct to_explore as [|g rest _] using rev_ind.
    + exists []. rewrite app_nil_r. split; reflexivity.
    + rewrite groups_count_app in Hfuel. simpl in Hfuel.
      rewrite group_count_unfold in Hfuel. lia.
  - destruct to_explore as [|g rest _] using rev_ind.
    + exists []. rewrite app_nil_r. split; reflexivity.
    + simpl. rewrite rev_app_distr. simpl. rewrite rev_involutive.
      destruct (IH (rest ++ sub_groups (elements g)) (groups ++ [g]))
        as (found & Hrun & Hperm).
      { rewrite groups_count_app in *. simpl in Hfuel.
        rewrite group_count_unfold in Hfuel. lia. }
      exists (g :: found). split.
      * rewrite Hrun, <- app_assoc. reflexivity.
      * rewrite all_groups_flat_map_snoc, Hperm. reflexivity.
Qed.

(** X3.  Constructing a workflow with a root group that is not empty leaves
    the given elements as the root group and lists in [groups] every group
    found under them, each as many times as it occurs; without a root group
    (or with an empty one) [groups] is empty and the root group is the list
    of the jobs after the conversion, the barrier jobs of the hubs
    included. *)
Theorem workflow_groups_explored next jobs_arg dependencies_arg root_group_arg
    disposal_timeout name :
  exists w next',
    Workflow_init next jobs_arg dependencies_arg root_group_arg
      disposal_timeout name = Return (w, next')
    /\ match root_group_arg with
       | Some (RootGroup g) =>
           root_group w = elements g
           /\ groups w ≡ₚ flat_map all_groups (sub_groups (elements g))
       | Some (RootElements (e :: els)) =>
           root_group w = e :: els
           /\ groups w ≡ₚ flat_map all_groups (sub_groups (e :: els))
       | _ => root_group w = map EJob (jobs w) /\ groups w = []
       end.
Proof.
  unfold Workflow_init.
  set (rg := match root_group_arg with
             | Some (RootGroup g) => elements g
             | Some (RootElements els) => els
             | None => []
             end).
  assert (Hgs : exists gs,
            (if root_group_given root_group_arg
             then explore_groups (groups_count (sub_groups rg)) (sub_groups rg) []
             else Return []) = Return gs
            /\ if root_group_given root_group_arg
               then gs ≡ₚ flat_map all_groups (sub_groups rg)
               else gs = []).
  { destruct (root_group_given root_group_arg); [|eauto].
    destruct (explore_groups_spec (groups_count (sub_groups rg))
                (sub_groups rg) []) as (found & Hrun & Hperm); [lia|].
    exists found. split; assumption. }
  destruct Hgs as (gs & -> & Hgs). simpl.
  set (self := {| wf_name := name; jobs := jobs_arg;
                  dependencies := default [] dependencies_arg;
                  root_group := rg; groups := gs; wf_disposal_timeout := 168 |}).
  destruct (convert_group_dependencies_spec self next) as (cv & added & Hrun & _).
  cbv zeta in Hrun. rewrite Hrun. simpl.
  destruct root_group_arg as [[g|[|e els]]|]; simpl in *;
    eexists _, _; (split; [reflexivity|]); simpl; auto.
Qed.

(** ** The round trip of a workflow without special paths *)

Lemma dict_set_fresh {K V} (same : K -> K -> bool) k (v : V) d :
  dict_get same k d = None -> dict_set same k v d = d ++ [(k, v)].
Proof.
  induction d as [|[k' v'] d IH]; simpl; [reflexivity|].
  destruct (same k' k); [discriminate|]. intros H. rewrite IH by exact H.
  reflexivity.
Qed.

Lemma dict_get_app_None {K V} (same : K -> K -> bool) k (d1 d2 : list (K * V)) :
  dict_get same k d1 = None -> dict_get same k (d1 ++ d2) = dict_get same k d2.
Proof.
  induction d1 as [|[k' v'] d1 IH]; simpl; [reflexivity|].
  destruct (same k' k); [discriminate|auto].
Qed.

Lemma dict_get_below {V} (d : list (nat * V)) (k : nat) :
  (forall k' v, (k', v) ∈ d -> k' < k) -> dict_get Nat.eqb k d = None.
Proof.
  induction d as [|[k' v'] d IH]; intros Hd; simpl; [reflexivity|].
  destruct (Nat.eqb_spec k' k) as [->|_].
  - specialize (Hd k v' ltac:(left)). lia.
  - apply IH. intros k0 v Hin. apply (Hd k0 v). right. exact Hin.
Qed.

Lemma numbered_app {A} (l1 l2 : list A) start :
  numbered start (l1 ++ l2)
  = numbered start l1 ++ numbered (start + length l1) l2.
Proof.
  revert start. induction l1 as [|x l1 IH]; intros start; simpl.
  - rewrite Nat.add_0_r. reflexivity.
  - rewrite IH. replace (S start + length l1) with (start + S (length l1)) by lia.
    reflexivity.
Qed.

Lemma rebuilt_app l1 l2 ident next :
  rebuilt ident next (l1 ++ l2)
  = rebuilt ident next l1
    ++ rebuilt (ident + length l1) (next + length l1) l2.
Proof.
  revert ident next. induction l1 as [|x l1 IH]; intros ident next; simpl.
  - rewrite !Nat.add_0_r. reflexivity.
  - rewrite IH.
    replace (S ident + length l1) with (ident + S (length l1)) by lia.
    replace (S next + length l1) with (next + S (length l1)) by lia.
    reflexivity.
Qed.

Lemma rebuilt_keys l ident next k v :
  (k, v) ∈ rebuilt ident next l -> k < ident + length l.
Proof.
  revert ident next. induction l as [|x l IH]; intros ident next Hin; simpl in *.
  - inversion Hin.
  - apply elem_of_cons in Hin as [Heq|Hin].
    + injection Heq as -> _. lia.
    + apply IH in Hin. lia.
Qed.

Lemma rebuilt_length l ident next : length (rebuilt ident next l) = length l.
Proof.
  revert ident next. induction l as [|x l IH]; intros; simpl; [|rewrite IH];
    reflexivity.
Qed.

(** *** Numbering the jobs *)

Lemma same_job_oid_false (x j : Job) (l : list Job) :
  job_oid x ∉ map job_oid l -> j ∈ l -> same_job x j = false.
Proof.
  intros Hnin Hj. unfold same_job. apply Nat.eqb_neq. intros Heq.
  apply Hnin. rewrite Heq. apply list_elem_of_fmap_2. exact Hj.
Qed.

Lemma number_objects_jobs l :
  forall ident new_ids ids,
    NoDup (map job_oid l) ->
    (forall j, j ∈ l -> dict_get same_job j ids = None) ->
    number_objects same_job l ident new_ids ids
    = (new_ids ++ seq ident (length l), ids ++ numbered ident l,
       ident + length l).
Proof.
  induction l as [|x l IH]; intros ident new_ids ids Hnd Hids; simpl.
  - rewrite !app_nil_r, Nat.add_0_r. reflexivity.
  - apply NoDup_cons in Hnd as [Hx Hnd].
    rewrite dict_set_fresh by (apply Hids; left).
    rewrite IH; [|exact Hnd|].
    + rewrite <- !app_assoc. simpl. rewrite Nat.add_succ_r. reflexivity.
    + intros j Hj. rewrite dict_get_app_None by (apply Hids; right; exact Hj).
      simpl. rewrite (same_job_oid_false x j l Hx Hj). reflexivity.
Qed.

Lemma dict_get_numbered l :
  forall start i j,
    NoDup (map job_oid l) -> l !! i = Some j ->
    dict_get same_job j (numbered start l) = Some (start + i).
Proof.
  induction l as [|x l IH]; intros start i j Hnd Hi; [discriminate|].
  apply NoDup_cons in Hnd as [Hx Hnd]. destruct i as [|i]; simpl in *.
  - injection Hi as ->. unfold same_job. rewrite Nat.eqb_refl, Nat.add_0_r.
    reflexivity.
  - rewrite (same_job_oid_false x j l Hx)
      by (eapply list_elem_of_lookup_2; exact Hi).
    rewrite (IH (S start) i j Hnd Hi).
    replace (S start + i) with (start + S i) by lia. reflexivity.
Qed.

Lemma dict_get_rebuilt l :
  forall ident next i j,
    l !! i = Some j ->
    dict_get Nat.eqb (ident + i) (rebuilt ident next l)
    = Some (with_oid (next + i) j).
Proof.
  induction l as [|x l IH]; intros ident next i j Hi; [discriminate|].
  destruct i as [|i]; simpl in *.
  - injection Hi as ->. rewrite !Nat.add_0_r, Nat.eqb_refl. reflexivity.
  - replace (ident =? ident + S i) with false
      by (symmetry; apply Nat.eqb_neq; lia).
    replace (ident + S i) with (S ident + i) by lia.
    rewrite (IH (S ident) (S next) i j Hi).
    replace (S next + i) with (next + S i) by lia. reflexivity.
Qed.

(** *** The values *)

Lemma to_serializable_scalar v st :
  scalar v = true -> to_serializable v st = Return (v, st).
Proof. destruct v; simpl; try discriminate; reflexivity. Qed.

Lemma list_to_serializable_scalar l st :
  forallb scalar l = true -> list_to_serializable l st = Return (l, st).
Proof.
  induction l as [|x l IH]; simpl; [reflexivity|]. intros H.
  apply andb_true_iff in H as [Hx Hl].
  rewrite to_serializable_scalar by exact Hx. simpl.
  rewrite IH by exact Hl. reflexivity.
Qed.

Lemma from_serializable_scalar v :
  scalar v = true -> from_serializable no_paths v = v.
Proof.
  destruct v as [|b|n|s|p|l|l]; simpl; try discriminate; intros _;
    unfold path_of_id; try reflexivity.
  destruct n; reflexivity.
Qed.

Lemma list_from_serializable_scalar l :
  forallb scalar l = true -> list_from_serializable no_paths l = l.
Proof.
  unfold list_from_serializable.
  induction l as [|x l IH]; simpl; [reflexivity|]. intros H.
  apply andb_true_iff in H as [Hx Hl].
  rewrite from_serializable_scalar, IH by assumption. reflexivity.
Qed.

Lemma kept_scalar_cases v :
  kept_scalar v = true -> v = VNone \/ (scalar v = true /\ truthy v = true).
Proof.
  destruct v; simpl; intros H; auto; try discriminate; right;
    split; (reflexivity || exact H).
Qed.

Lemma ser_if_set_kept v st :
  kept_scalar v = true -> ser_if_set v st = Return (if_set v, st).
Proof.
  intros H. unfold ser_if_set, if_set.
  destruct (kept_scalar_cases v H) as [->|[Hs Ht]]; [reflexivity|].
  rewrite Ht, to_serializable_scalar by exact Hs. reflexivity.
Qed.

Lemma ser_list_if_set_scalar l st :
  forallb scalar l = true -> ser_list_if_set l st = Return (list_if_set l, st).
Proof.
  intros H. destruct l as [|x l]; [reflexivity|]. unfold ser_list_if_set.
  rewrite list_to_serializable_scalar by exact H. reflexivity.
Qed.

Lemma unser_if_set_kept v :
  kept_scalar v = true ->
  unser_if_set no_paths (default VNone (if_set v)) = v.
Proof.
  intros H. unfold unser_if_set, if_set.
  destruct (kept_scalar_cases v H) as [->|[Hs Ht]]; [reflexivity|].
  rewrite Ht. simpl. rewrite Ht. apply from_serializable_scalar. exact Hs.
Qed.

Lemma unser_list_if_set_scalar l :
  forallb scalar l = true ->
  unser_list_if_set no_paths (default [] (list_if_set l)) = l.
Proof.
  intros H. destruct l as [|x l]; [reflexivity|]. simpl.
  rewrite from_serializable_scalar
    by (simpl in H; apply andb_true_iff in H as [Hx _]; exact Hx).
  f_equal. apply list_from_serializable_scalar.
  simpl in H. apply andb_true_iff in H as [_ Hl]. exact Hl.
Qed.

Lemma plain_attributes_fields j :
  plain_attributes j = true ->
  forallb scalar (command j) = true
  /\ forallb scalar (referenced_input_files j) = true
  /\ forallb scalar (referenced_output_files j) = true
  /\ scalar (job_name j) = true
  /\ kept_scalar (stdin j) = true /\ kept_scalar (stdout_file j) = true
  /\ kept_scalar (stderr_file j) = true
  /\ kept_scalar (working_directory j) = true.
Proof.
  unfold plain_attributes. rewrite !andb_true_iff. tauto.
Qed.

(** *** The dictionary of a job and the job read back *)

Lemma Job_to_dict_plain j st :
  plain_attributes j = true ->
  (if is_BarrierJob j then BarrierJob_to_dict j st else Job_to_dict j st)
  = Return (plain_job_dict j, st).
Proof.
  intros H.
  destruct (plain_attributes_fields j H)
    as (Hc & Hi & Ho & Hn & H0 & H1 & H2 & Hw).
  unfold plain_job_dict, BarrierJob_to_dict, Job_to_dict.
  destruct (is_BarrierJob j).
  - rewrite ser_list_if_set_scalar by exact Hi. simpl.
    rewrite ser_list_if_set_scalar by exact Ho. reflexivity.
  - rewrite list_to_serializable_scalar by exact Hc. simpl.
    rewrite ser_list_if_set_scalar by exact Hi. simpl.
    rewrite ser_list_if_set_scalar by exact Ho. simpl.
    rewrite ser_if_set_kept by exact H0. simpl.
    rewrite ser_if_set_kept by exact H1. simpl.
    rewrite ser_if_set_kept by exact H2. simpl.
    rewrite ser_if_set_kept by exact Hw. reflexivity.
Qed.

Lemma is_VNone_eq v : is_VNone v = true -> v = VNone.
Proof. destruct v; simpl; intros H; try discriminate; reflexivity. Qed.

Lemma Job_from_dict_plain j o :
  plain_attributes j = true -> barrier_defaults j = true ->
  (if is_BarrierJob j then BarrierJob_from_dict else Job_from_dict)
    o (plain_job_dict j) no_paths
  = Return (with_oid o j).
Proof.
  intros H Hb.
  destruct (plain_attributes_fields j H)
    as (Hc & Hi & Ho & Hn & H0 & H1 & H2 & Hw).
  unfold barrier_defaults in Hb. unfold plain_job_dict, with_oid.
  destruct j as [oid0 barrier cmd nm ins outs sin join dt sout serr wd pji prio
                   nat_spec].
  simpl in *. destruct barrier; simpl in *.
  - rewrite !andb_true_iff in Hb.
    destruct Hb as [[[[[[[[Hcmd Hsin] Hjoin] Hsout] Hserr] Hwd] Hpji] Hprio]
                     Hnat].
    apply is_VNone_eq in Hsin, Hsout, Hserr, Hwd.
    apply bool_decide_eq_true in Hpji, Hnat.
    apply Z.eqb_eq in Hprio. apply negb_true_iff in Hjoin.
    destruct cmd; [|discriminate]. subst.
    unfold BarrierJob_from_dict, unserialise_job, set_job_attributes. simpl.
    rewrite !unser_list_if_set_scalar by assumption. reflexivity.
  - unfold Job_from_dict, unserialise_job, set_job_attributes. simpl.
    rewrite !unser_list_if_set_scalar by assumption.
    rewrite !unser_if_set_kept by assumption.
    rewrite list_from_serializable_scalar by assumption. reflexivity.
Qed.

(** *** Attribute equality of a job and the job read back *)

Lemma py_eq_scalar v : scalar v = true -> py_eq v v = true.
Proof.
  destruct v as [|b|n|s|p|l|l]; simpl; try discriminate; intros _.
  - reflexivity.
  - destruct b; reflexivity.
  - apply Z.eqb_refl.
  - apply String.eqb_refl.
Qed.

Lemma element_attributs_equal_scalar v :
  scalar v = true -> element_attributs_equal v v = Return true.
Proof.
  intros H. pose proof (py_eq_scalar v H) as Heq.
  destruct v; simpl in *; try discriminate; rewrite ?Heq; reflexivity.
Qed.

Lemma Job__attributs_equal_scalar l :
  forallb scalar l = true -> Job__attributs_equal l l = Return true.
Proof.
  intros H. unfold Job__attributs_equal. rewrite Nat.eqb_refl. simpl.
  induction l as [|x l IH]; simpl; [reflexivity|].
  simpl in H. apply andb_true_iff in H as [Hx Hl].
  rewrite element_attributs_equal_scalar by exact Hx. simpl. auto.
Qed.

Lemma attribute_equal_scalar v : scalar v = true -> attribute_equal v v = true.
Proof.
  intros H. pose proof (py_eq_scalar v H) as Heq.
  destruct v; simpl in *; try discriminate; exact Heq.
Qed.

Lemma kept_scalar_scalar v : kept_scalar v = true -> scalar v = true.
Proof.
  intros H. destruct (kept_scalar_cases v H) as [->|[Hs _]]; [reflexivity|exact Hs].
Qed.

Lemma Job_attributs_equal_with_oid j o :
  plain_attributes j = true -> Job_attributs_equal j (with_oid o j) = Return true.
Proof.
  intros H.
  destruct (plain_attributes_fields j H)
    as (Hc & Hi & Ho & Hn & H0 & H1 & H2 & Hw).
  unfold Job_attributs_equal. simpl.
  replace (is_BarrierJob j && negb (is_BarrierJob j)) with false
    by (destruct (is_BarrierJob j); reflexivity).
  rewrite !Job__attributs_equal_scalar by assumption. simpl.
  rewrite !attribute_equal_scalar
    by first [assumption|apply kept_scalar_scalar; assumption].
  rewrite Bool.eqb_reflx, !Z.eqb_refl.
  rewrite !bool_decide_eq_true_2 by reflexivity. reflexivity.
Qed.

(** *** The dictionary of a workflow and the workflow read back *)

Lemma filter_numbered_all {A} (P : A -> bool) (l : list A) start :
  (forall x, x ∈ l -> P x = true) ->
  List.filter (fun p : A * nat => P (fst p)) (numbered start l)
  = numbered start l.
Proof.
  revert start. induction l as [|x l IH]; intros start HP; simpl; [reflexivity|].
  rewrite (HP x) by left. rewrite IH by (intros y Hy; apply HP; right; exact Hy).
  reflexivity.
Qed.

Lemma filter_numbered_none {A} (P : A -> bool) (l : list A) start :
  (forall x, x ∈ l -> P x = false) ->
  List.filter (fun p : A * nat => P (fst p)) (numbered start l) = [].
Proof.
  revert start. induction l as [|x l IH]; intros start HP; simpl; [reflexivity|].
  rewrite (HP x) by left. apply IH. intros y Hy. apply HP. right. exact Hy.
Qed.

Lemma jobs_to_dict_plain l :
  forall start st sj sb,
    (forall j, j ∈ l -> plain_attributes j = true) ->
    (forall k v, (k, v) ∈ sj -> k < start) ->
    (forall k v, (k, v) ∈ sb -> k < start) ->
    jobs_to_dict (numbered start l) st sj sb
    = Return
        (sj ++ map (fun p : Job * nat => (snd p, plain_job_dict (fst p)))
                 (List.filter (fun p : Job * nat => negb (is_BarrierJob (fst p)))
                    (numbered start l)),
         sb ++ map (fun p : Job * nat => (snd p, plain_job_dict (fst p)))
                 (List.filter (fun p : Job * nat => is_BarrierJob (fst p))
                    (numbered start l)),
         st).
Proof.
  induction l as [|x l IH]; intros start st sj sb Hl Hsj Hsb; simpl.
  - rewrite !app_nil_r. reflexivity.
  - pose proof (Job_to_dict_plain x st (Hl x ltac:(left))) as Hx.
    assert (Hl' : forall j, j ∈ l -> plain_attributes j = true)
      by (intros j Hj; apply Hl; right; exact Hj).
    destruct (is_BarrierJob x); simpl; rewrite Hx; simpl.
    + rewrite dict_set_fresh by (apply dict_get_below; exact Hsb).
      rewrite IH; [|exact Hl'| |].
      * rewrite <- app_assoc. reflexivity.
      * intros k v Hin. apply Hsj in Hin. lia.
      * intros k v Hin. apply elem_of_app in Hin as [Hin|Hin].
        -- apply Hsb in Hin. lia.
        -- apply list_elem_of_singleton in Hin. injection Hin as -> _. lia.
    + rewrite dict_set_fresh by (apply dict_get_below; exact Hsj).
      rewrite IH; [|exact Hl'| |].
      * rewrite <- app_assoc. reflexivity.
      * intros k v Hin. apply elem_of_app in Hin as [Hin|Hin].
        -- apply Hsj in Hin. lia.
        -- apply list_elem_of_singleton in Hin. injection Hin as -> _. lia.
      * intros k v Hin. apply Hsb in Hin. lia.
Qed.

Lemma jobs_from_dict_plain (barrier : bool) l :
  forall ident next acc,
    (forall j, j ∈ l ->
       is_BarrierJob j = barrier /\ plain_attributes j = true
       /\ barrier_defaults j = true) ->
    (forall k v, (k, v) ∈ acc -> k < ident) ->
    jobs_from_dict (if barrier then BarrierJob_from_dict else Job_from_dict)
      (map (fun p : Job * nat => (snd p, plain_job_dict (fst p)))
         (numbered ident l))
      no_paths next acc
    = Return (acc ++ rebuilt ident next l, next + length l).
Proof.
  induction l as [|x l IH]; intros ident next acc Hl Hacc; simpl.
  - rewrite app_nil_r, Nat.add_0_r. reflexivity.
  - destruct (Hl x ltac:(left)) as (Hb & Hp & Hd).
    pose proof (Job_from_dict_plain x next Hp Hd) as Hx. rewrite Hb in Hx.
    rewrite Hx. simpl.
    rewrite dict_set_fresh by (apply dict_get_below; exact Hacc).
    rewrite IH.
    + rewrite <- app_assoc, Nat.add_succ_r. reflexivity.
    + intros j Hj. apply Hl. right. exact Hj.
    + intros k v Hin. apply elem_of_app in Hin as [Hin|Hin].
      * apply Hacc in Hin. lia.
      * apply list_elem_of_singleton in Hin. injection Hin as -> _. lia.
Qed.

Lemma element_ids_jobs msg (js : list Job) :
  NoDup (map job_oid js) ->
  forall l start,
    (forall i j, l !! i = Some j -> js !! (start + i) = Some j) ->
    element_ids msg (map EJob l) (numbered 0 js) []
    = Return (seq start (length l)).
Proof.
  intros Hnd. induction l as [|x l IH]; intros start Hl; simpl; [reflexivity|].
  rewrite (dict_get_numbered js 0 start x Hnd)
    by (rewrite <- (Nat.add_0_r start); apply Hl; reflexivity).
  rewrite (IH (S start)); [reflexivity|].
  intros i j Hi. replace (S start + i) with (start + S i) by lia.
  apply Hl. exact Hi.
Qed.

Lemma root_group_of_ids_jobs (js : list Job) next :
  forall l start,
    (forall i j, l !! i = Some j -> js !! (start + i) = Some j) ->
    root_group_of_ids (seq start (length l)) [] (rebuilt 0 next js)
    = map EJob (map snd (rebuilt start (next + start) l)).
Proof.
  induction l as [|x l IH]; intros start Hl; simpl; [reflexivity|].
  pose proof (dict_get_rebuilt js 0 next start x) as Hx. simpl in Hx.
  rewrite Hx by (rewrite <- (Nat.add_0_r start); apply Hl; reflexivity).
  rewrite (IH (S start)).
  - replace (next + S start) with (S (next + start)) by lia. reflexivity.
  - intros i j Hi. replace (S start + i) with (start + S i) by lia.
    apply Hl. exact Hi.
Qed.

(** The identifiers of the dependencies, and the dependencies read back. *)
Lemma dependency_ids_plain (js : list Job) next deps :
  NoDup (map job_oid js) ->
  (forall a b, (a, b) ∈ deps ->
     exists ja jb, a = EJob ja /\ b = EJob jb /\ ja ∈ js /\ jb ∈ js) ->
  exists ids deps',
    dependency_ids deps (numbered 0 js) = Return ids
    /\ dependencies_of_ids ids (rebuilt 0 next js) = Return deps'
    /\ Forall2 (fun dep dep' =>
                  exists ja jb oa ob,
                    dep = (EJob ja, EJob jb)
                    /\ dep' = (EJob (with_oid oa ja), EJob (with_oid ob jb))
                    /\ ja ∈ js /\ jb ∈ js)
         deps deps'.
Proof.
  intros Hnd. induction deps as [|[a b] deps IH]; intros Hdeps.
  - exists [], []. repeat split; constructor.
  - destruct (Hdeps a b ltac:(left)) as (ja & jb & -> & -> & Ha & Hb).
    destruct IH as (ids & deps' & Hids & Hback & Hall).
    { intros a b Hin. apply Hdeps. right. exact Hin. }
    destruct (list_elem_of_lookup_1 _ _ Ha) as [ia Hia].
    destruct (list_elem_of_lookup_1 _ _ Hb) as [ib Hib].
    exists ((ia, ib) :: ids),
      ((EJob (with_oid (next + ia) ja), EJob (with_oid (next + ib) jb))
         :: deps').
    split; [|split].
    + simpl. rewrite (dict_get_numbered js 0 ia ja Hnd Hia).
      rewrite (dict_get_numbered js 0 ib jb Hnd Hib). rewrite Hids. reflexivity.
    + simpl.
      pose proof (dict_get_rebuilt js 0 next ia ja Hia) as Hga.
      pose proof (dict_get_rebuilt js 0 next ib jb Hib) as Hgb.
      simpl in Hga, Hgb. rewrite Hga, Hgb, Hback. reflexivity.
    + constructor; [|exact Hall]. exists ja, jb, (next + ia), (next + ib). auto.
Qed.

Lemma sub_groups_jobs (js : list Job) : sub_groups (map EJob js) = [].
Proof. induction js as [|j js IH]; simpl; auto. Qed.

(** The construction of a workflow from jobs, dependencies between jobs and
    the list of the jobs as root group. *)
Lemma Workflow_init_plain next js deps name :
  (forall dep, dep ∈ deps -> has_group dep = false) ->
  Workflow_init next js (Some deps) (Some (RootElements (map EJob js))) 168%Z name
  = Return ({| wf_name := name; jobs := js; dependencies := deps;
               root_group := map EJob js; groups := [];
               wf_disposal_timeout := 168 |}, next).
Proof.
  intros Hdeps. unfold Workflow_init.
  assert (Hgs : (if root_group_given (Some (RootElements (map EJob js)))
                 then explore_groups
                        (groups_count (sub_groups (map EJob js)))
                        (sub_groups (map EJob js)) []
                 else Return []) = Return []).
  { rewrite sub_groups_jobs. destruct (root_group_given _); reflexivity. }
  rewrite Hgs. simpl.
  rewrite convert_group_dependencies_jobs by exact Hdeps. simpl.
  destruct js as [|j js]; reflexivity.
Qed.

(** *** Comparison of the two workflows *)

Lemma sequences_equal_Forall2 {A} (item_equal : A -> A -> Outcome bool)
    (l l' : list A) :
  Forall2 (fun x y => item_equal x y = Return true) l l' ->
  sequences_equal item_equal l l' = Return true.
Proof.
  intros H. unfold sequences_equal.
  rewrite (Forall2_length _ _ _ H), Nat.eqb_refl. simpl.
  induction H as [|x y l l' Hxy _ IH]; simpl; [reflexivity|].
  rewrite Hxy. simpl. exact IH.
Qed.

Lemma rebuilt_jobs_equal l ident next :
  (forall j, j ∈ l -> plain_attributes j = true) ->
  Forall2 (fun x y => Job_attributs_equal x y = Return true) l
    (map snd (rebuilt ident next l)).
Proof.
  revert ident next. induction l as [|x l IH]; intros ident next Hl; simpl.
  - constructor.
  - constructor.
    + apply Job_attributs_equal_with_oid. apply Hl. left.
    + apply IH. intros j Hj. apply Hl. right. exact Hj.
Qed.

Lemma rebuilt_elements_equal l ident next :
  (forall j, j ∈ l -> plain_attributes j = true) ->
  Forall2 (fun x y => Element_attributs_equal x y = Return true) (map EJob l)
    (map EJob (map snd (rebuilt ident next l))).
Proof.
  revert ident next. induction l as [|x l IH]; intros ident next Hl; simpl.
  - constructor.
  - constructor.
    + simpl. apply Job_attributs_equal_with_oid. apply Hl. left.
    + apply IH. intros j Hj. apply Hl. right. exact Hj.
Qed.

Lemma round_trip_plain_jobs python3 next name timeout normal barriers deps :
  let js := normal ++ barriers in
  NoDup (map job_oid js) ->
  (forall j, j ∈ js -> plain_attributes j = true /\ barrier_defaults j = true) ->
  (forall j, j ∈ normal -> is_BarrierJob j = false) ->
  (forall j, j ∈ barriers -> is_BarrierJob j = true) ->
  (forall a b, (a, b) ∈ deps ->
     exists ja jb, a = EJob ja /\ b = EJob jb /\ ja ∈ js /\ jb ∈ js) ->
  round_trip_equal python3 next
    {| wf_name := name; jobs := js; dependencies := deps;
       root_group := map EJob js; groups := [];
       wf_disposal_timeout := timeout |}
  = Return true.
Proof.
  intros js Hnd Hplain Hnormal Hbarrier Hdeps.
  destruct (dependency_ids_plain js next deps Hnd Hdeps)
    as (ids & deps' & Hids & Hback & Hall).
  unfold round_trip_equal, Workflow_to_dict. simpl.
  rewrite (number_objects_jobs js 0 [] [] Hnd) by reflexivity. simpl.
  rewrite Hids. simpl.
  rewrite (element_ids_jobs _ js Hnd js 0) by (intros i j Hi; exact Hi). simpl.
  assert (Hp : forall j, j ∈ js -> plain_attributes j = true)
    by (intros j Hj; apply Hplain; exact Hj).
  assert (HSJ : List.filter (fun p : Job * nat => negb (is_BarrierJob (fst p)))
                  (numbered 0 js) = numbered 0 normal).
  { unfold js. rewrite numbered_app, List.filter_app.
    rewrite (filter_numbered_all (fun j => negb (is_BarrierJob j)))
      by (intros j Hj; rewrite (Hnormal j Hj); reflexivity).
    rewrite (filter_numbered_none (fun j => negb (is_BarrierJob j)))
      by (intros j Hj; rewrite (Hbarrier j Hj); reflexivity).
    apply app_nil_r. }
  assert (HSB : List.filter (fun p : Job * nat => is_BarrierJob (fst p))
                  (numbered 0 js) = numbered (length normal) barriers).
  { unfold js. rewrite numbered_app, List.filter_app.
    rewrite (filter_numbered_none is_BarrierJob) by exact Hnormal.
    rewrite (filter_numbered_all is_BarrierJob) by exact Hbarrier.
    reflexivity. }
  rewrite (jobs_to_dict_plain js 0 _ [] [] Hp)
    by (intros k v Hin; inversion Hin).
  rewrite HSJ, HSB. simpl.
  unfold Workflow_from_dict. simpl.
  change {| tr_from_ids := []; srp_from_ids := []; tmp_from_ids := [];
            opt_from_ids := [] |} with no_paths.
  pose proof (jobs_from_dict_plain false normal 0 next []) as H1.
  simpl in H1. rewrite H1; clear H1.
  2:{ intros j Hj. split; [apply Hnormal; exact Hj|].
      apply Hplain. apply elem_of_app. left. exact Hj. }
  2:{ intros k v Hin. inversion Hin. }
  simpl.
  pose proof (jobs_from_dict_plain true barriers (length normal)
                (next + length normal) (rebuilt 0 next normal)) as H2.
  simpl in H2. rewrite H2; clear H2.
  2:{ intros j Hj. split; [apply Hbarrier; exact Hj|].
      apply Hplain. apply elem_of_app. right. exact Hj. }
  2:{ intros k v Hin. apply rebuilt_keys in Hin. exact Hin. }
  simpl.
  pose proof (rebuilt_app normal barriers 0 next) as Hreb. simpl in Hreb.
  rewrite <- Hreb. fold js. rewrite Hback. simpl.
  rewrite (root_group_of_ids_jobs js next js 0) by (intros i j Hi; exact Hi).
  rewrite Nat.add_0_r.
  assert (Hnone : forall dep, dep ∈ deps' -> has_group dep = false).
  { clear -Hall. induction Hall as [|d d' l l' Hd _ IH]; intros dep Hin.
    - inversion Hin.
    - apply elem_of_cons in Hin as [->|Hin]; [|auto].
      destruct Hd as (ja & jb & oa & ob & _ & -> & _). reflexivity. }
  rewrite (Workflow_init_plain _ _ deps' name Hnone). simpl.
  unfold Workflow_attributs_equal. simpl.
  rewrite (sequences_equal_Forall2 Job_attributs_equal)
    by (apply rebuilt_jobs_equal; exact Hp).
  simpl.
  rewrite (sequences_equal_Forall2 Dependency_attributs_equal).
  2:{ clear -Hall Hp. induction Hall as [|d d' l l' Hd _ IH]; constructor; auto.
      destruct Hd as (ja & jb & oa & ob & -> & -> & Ha & Hb).
      unfold Dependency_attributs_equal. simpl.
      rewrite !Job_attributs_equal_with_oid by auto. reflexivity. }
  simpl.
  rewrite (sequences_equal_Forall2 Element_attributs_equal)
    by (apply rebuilt_elements_equal; exact Hp).
  simpl. rewrite bool_decide_eq_true_2 by reflexivity. reflexivity.
Qed.

(** X4.  A workflow without special paths and without groups, as the
    constructor leaves it (different jobs, the barrier jobs after the other
    jobs, dependencies between jobs of the workflow, the jobs as root group),
    comes back attribute-equal from [Workflow.from_dict (w.to_dict ())],
    whether or not [keys ()] has a [remove]; the dictionaries are read in the
    order in which their keys were inserted. *)
Theorem plain_workflow_round_trip python3 next w :
  plain_workflow w -> round_trip_equal python3 next w = Return true.
Proof.
  intros [Hnd Hplain Horder Hdeps Hroot Hgroups].
  destruct w as [name js deps rg gs timeout]. simpl in *. subst rg gs.
  set (normal := List.filter (fun j => negb (is_BarrierJob j)) js) in *.
  set (barriers := List.filter is_BarrierJob js) in *.
  assert (Hn : forall j, j ∈ normal -> is_BarrierJob j = false).
  { intros j Hj. apply list_elem_of_In, filter_In in Hj as [_ Hj].
    apply negb_true_iff. exact Hj. }
  assert (Hb : forall j, j ∈ barriers -> is_BarrierJob j = true).
  { intros j Hj. apply list_elem_of_In, filter_In in Hj as [_ Hj]. exact Hj. }
  clearbody normal barriers. subst js.
  apply round_trip_plain_jobs; assumption.
Qed.

Lemma plain_workflow_round_trip_witness :
  plain_workflow chain_workflow
  /\ round_trip_equal true 3 chain_workflow = Return true.
Proof.
  assert (H : plain_workflow chain_workflow).
  { constructor.
    - simpl. repeat constructor; intros Hin;
        repeat (apply elem_of_cons in Hin as [Hin|Hin]; [discriminate|]);
        inversion Hin.
    - intros j Hj. simpl in Hj.
      repeat (apply elem_of_cons in Hj as [->|Hj]; [split; reflexivity|]).
      inversion Hj.
    - reflexivity.
    - intros a b Hin. simpl in Hin.
      apply list_elem_of_singleton in Hin. injection Hin as -> ->.
      eexists _, _. split; [reflexivity|]. split; [reflexivity|].
      split; [left|right; left].
    - reflexivity.
    - reflexivity. }
  split; [exact H|]. apply (plain_workflow_round_trip true 3 chain_workflow H).
Defined.

(** ** Reading back a workflow with groups under Python 3 *)

Lemma dict_get_elem {K V} (same : K -> K -> bool) k (d : list (K * V)) v :
  dict_get same k d = Some v -> exists k', (k', v) ∈ d /\ same k' k = true.
Proof.
  induction d as [|[k0 v0] d IH]; simpl; [discriminate|].
  destruct (same k0 k) eqn:Hs.
  - intros [= ->]. exists k0. split; [left|exact Hs].
  - intros H. destruct (IH H) as (k' & Hin & Hk). exists k'.
    split; [right; exact Hin|exact Hk].
Qed.

Lemma dict_get_set_eq {V} k (v : V) d :
  dict_get Nat.eqb k (dict_set Nat.eqb k v d) = Some v.
Proof.
  induction d as [|[k0 v0] d IH]; simpl.
  - rewrite Nat.eqb_refl. reflexivity.
  - destruct (Nat.eqb k0 k) eqn:Hs; simpl; rewrite Hs; [reflexivity|exact IH].
Qed.

Lemma dict_get_set_ne {V} k k' (v : V) d :
  k' <> k ->
  dict_get Nat.eqb k' (dict_set Nat.eqb k v d) = dict_get Nat.eqb k' d.
Proof.
  intros Hne. induction d as [|[k0 v0] d IH]; simpl.
  - replace (k =? k') with false by (symmetry; apply Nat.eqb_neq; congruence).
    reflexivity.
  - destruct (Nat.eqb_spec k0 k) as [->|Hk]; simpl.
    + replace (k =? k') with false by (symmetry; apply Nat.eqb_neq; congruence).
      reflexivity.
    + rewrite IH. reflexivity.
Qed.

Lemma dict_get_set_Some {V} k k' (v : V) d :
  is_Some (dict_get Nat.eqb k' d) ->
  is_Some (dict_get Nat.eqb k' (dict_set Nat.eqb k v d)).
Proof.
  intros H. destruct (decide (k' = k)) as [->|Hne].
  - rewrite dict_get_set_eq. eauto.
  - rewrite dict_get_set_ne by exact Hne. exact H.
Qed.

(** *** The values of the dictionary of identifiers are different *)

Lemma dict_set_values {K} (same : K -> K -> bool) k (v : nat) d x :
  x ∈ map snd (dict_set same k v d) -> x = v \/ x ∈ map snd d.
Proof.
  induction d as [|[k0 v0] d IH]; simpl.
  - intros H. apply list_elem_of_singleton in H. auto.
  - destruct (same k0 k); simpl; intros H;
      apply elem_of_cons in H as [->|H]; auto.
    + right. right. exact H.
    + right. left.
    + destruct (IH H) as [->|Hx]; [auto|]. right. right. exact Hx.
Qed.

Lemma dict_set_NoDup {K} (same : K -> K -> bool) k (v : nat) d :
  NoDup (map snd d) -> v ∉ map snd d -> NoDup (map snd (dict_set same k v d)).
Proof.
  induction d as [|[k0 v0] d IH]; simpl; intros Hnd Hv.
  - apply NoDup_singleton.
  - apply NoDup_cons in Hnd as [Hv0 Hnd].
    apply not_elem_of_cons in Hv as [Hne Hv].
    destruct (same k0 k); simpl; apply NoDup_cons.
    + split; assumption.
    + split; [|apply IH; assumption].
      intros Hin. apply dict_set_values in Hin as [->|Hin]; [congruence|auto].
Qed.

Lemma number_objects_values {A} (same : A -> A -> bool) (objects : list A) :
  forall ident new_ids ids new_ids' ids' ident',
    number_objects same objects ident new_ids ids = (new_ids', ids', ident') ->
    NoDup (map snd ids) -> (forall x, x ∈ map snd ids -> x < ident) ->
    NoDup (map snd ids').
Proof.
  induction objects as [|o objects IH];
    intros ident new_ids ids new_ids' ids' ident' Hrun Hnd Hlt; simpl in Hrun.
  - injection Hrun as _ <- _. exact Hnd.
  - eapply IH; [exact Hrun| |].
    + apply dict_set_NoDup; [exact Hnd|]. intros Hin. apply Hlt in Hin. lia.
    + intros x Hx. apply dict_set_values in Hx as [->|Hx]; [lia|].
      apply Hlt in Hx. lia.
Qed.

Lemma dict_set_keys {K V} (same : K -> K -> bool) k (v : V) d k' v' :
  (k', v') ∈ dict_set same k v d ->
  (k' = k /\ v' = v) \/ (exists v0, (k', v0) ∈ d).
Proof.
  induction d as [|[k0 v0] d IH]; simpl.
  - intros H. apply list_elem_of_singleton in H. injection H as -> ->. auto.
  - destruct (same k0 k); intros H; apply elem_of_cons in H as [Heq|H].
    + injection Heq as -> ->. right. exists v0. left.
    + right. exists v'. right. exact H.
    + injection Heq as -> ->. right. exists v0. left.
    + destruct (IH H) as [?|[v1 Hin]]; [auto|]. right. exists v1. right.
      exact Hin.
Qed.

Lemma number_objects_keys {A} (same : A -> A -> bool) (objects : list A) :
  forall ident new_ids ids new_ids' ids' ident',
    number_objects same objects ident new_ids ids = (new_ids', ids', ident') ->
    forall k v, (k, v) ∈ ids' -> k ∈ objects \/ exists v0, (k, v0) ∈ ids.
Proof.
  induction objects as [|o objects IH];
    intros ident new_ids ids new_ids' ids' ident' Hrun k v Hin; simpl in Hrun.
  - injection Hrun as _ <- _. right. eauto.
  - destruct (IH _ _ _ _ _ _ Hrun k v Hin) as [Hk|[v0 Hk]].
    + left. right. exact Hk.
    + apply dict_set_keys in Hk as [[-> _]|Hk]; [left; left|right; exact Hk].
Qed.

Lemma number_objects_nonempty {A} (same : A -> A -> bool) (objects : list A) :
  forall ident new_ids ids new_ids' ids' ident',
    number_objects same objects ident new_ids ids = (new_ids', ids', ident') ->
    objects <> [] \/ ids <> [] -> ids' <> [].
Proof.
  induction objects as [|o objects IH];
    intros ident new_ids ids new_ids' ids' ident' Hrun Hne; simpl in Hrun.
  - injection Hrun as _ <- _. destruct Hne; congruence.
  - eapply IH; [exact Hrun|]. right. destruct ids as [|[k0 v0] ids]; simpl.
    + discriminate.
    + destruct (same k0 o); discriminate.
Qed.

(** *** None of the loops of [from_dict] before the groups runs out of bound *)

Lemma paths_from_dict_fuel {A D} (from_dict : nat -> D -> Outcome A) items :
  (forall n d, from_dict n d <> OutOfFuel) ->
  forall next table, paths_from_dict from_dict items next table <> OutOfFuel.
Proof.
  intros Hf. induction items as [|[i d] items IH]; intros next table; simpl;
    [discriminate|].
  destruct (from_dict next d) eqn:E; simpl; [apply IH|discriminate|].
  exfalso. eapply Hf. exact E.
Qed.

Lemma OptionPath_from_dict_fuel n d t : OptionPath_from_dict n d t <> OutOfFuel.
Proof.
  unfold OptionPath_from_dict, OptionPath_init.
  destruct (parent_of_dict t d) as [|s|[o|o|o|o]]; simpl; discriminate.
Qed.

Lemma options_from_dict_fuel items :
  forall next t, options_from_dict items next t <> OutOfFuel.
Proof.
  induction items as [|[i d] items IH]; intros next t; simpl; [discriminate|].
  destruct (OptionPath_from_dict next d t) eqn:E; simpl;
    [apply IH|discriminate|].
  exfalso. eapply OptionPath_from_dict_fuel. exact E.
Qed.

Lemma jobs_from_dict_fuel from_dict items :
  (forall n d t, from_dict n d t <> OutOfFuel) ->
  forall t next acc, jobs_from_dict from_dict items t next acc <> OutOfFuel.
Proof.
  intros Hf. induction items as [|[i d] items IH]; intros t next acc; simpl;
    [discriminate|].
  destruct (from_dict next d t) eqn:E; simpl; [apply IH|discriminate|].
  exfalso. eapply Hf. exact E.
Qed.

Lemma Job_from_dict_fuel n d t : Job_from_dict n d t <> OutOfFuel.
Proof. unfold Job_from_dict. destruct (jd_command d); discriminate. Qed.

Lemma convert_groups_round_fuel to_convert sg jf :
  forall nc gf next,
    convert_groups_round to_convert sg jf nc gf next <> OutOfFuel.
Proof.
  induction to_convert as [|k to_convert IH]; intros nc gf next; simpl;
    [discriminate|].
  destruct (dict_get Nat.eqb k sg); [|discriminate].
  destruct (Group_from_dict next g gf jf); apply IH.
Qed.

(** *** The identifiers of the jobs are found again *)

Lemma jobs_to_dict_keys items :
  forall st sj sb sj' sb' st',
    jobs_to_dict items st sj sb = Return (sj', sb', st') ->
    forall k,
      is_Some (dict_get Nat.eqb k sj) \/ is_Some (dict_get Nat.eqb k sb)
      \/ k ∈ map snd items ->
      is_Some (dict_get Nat.eqb k sj') \/ is_Some (dict_get Nat.eqb k sb').
Proof.
  induction items as [|[job id] items IH];
    intros st sj sb sj' sb' st' Hrun k Hk; simpl in Hrun.
  - injection Hrun as <- <- _. destruct Hk as [?|[?|Hk]]; auto. inversion Hk.
  - destruct (is_BarrierJob job);
      apply bind_Return in Hrun as (r & _ & Hrun);
      apply (IH _ _ _ _ _ _ Hrun k); simpl in Hk;
      destruct Hk as [Hk|[Hk|Hk]].
    + auto.
    + right. left. apply dict_get_set_Some. exact Hk.
    + apply elem_of_cons in Hk as [->|Hk]; [|auto].
      right. left. rewrite dict_get_set_eq. eauto.
    + left. apply dict_get_set_Some. exact Hk.
    + auto.
    + apply elem_of_cons in Hk as [->|Hk]; [|auto].
      left. rewrite dict_get_set_eq. eauto.
Qed.

Lemma jobs_from_dict_keys from_dict items :
  forall t next acc acc' next',
    jobs_from_dict from_dict items t next acc = Return (acc', next') ->
    forall k,
      is_Some (dict_get Nat.eqb k acc) \/ k ∈ map fst items ->
      is_Some (dict_get Nat.eqb k acc').
Proof.
  induction items as [|[id d] items IH];
    intros t next acc acc' next' Hrun k Hk; simpl in Hrun.
  - injection Hrun as <- _. destruct Hk as [?|Hk]; auto. inversion Hk.
  - apply bind_Return in Hrun as (job & _ & Hrun).
    apply (IH _ _ _ _ _ Hrun k). simpl in Hk. destruct Hk as [Hk|Hk].
    + left. apply dict_get_set_Some. exact Hk.
    + apply elem_of_cons in Hk as [->|Hk]; [|auto].
      left. rewrite dict_get_set_eq. eauto.
Qed.

Lemma dict_get_key_elem {V} k (d : list (nat * V)) :
  is_Some (dict_get Nat.eqb k d) -> k ∈ map fst d.
Proof.
  intros [v Hv]. apply dict_get_elem in Hv as (k' & Hin & Hk).
  apply Nat.eqb_eq in Hk as ->.
  change k with (fst (k, v)). apply list_elem_of_fmap_2. exact Hin.
Qed.

(** *** The dictionaries of the groups *)

Lemma groups_to_dict_keeps items :
  forall group_ids job_ids acc ser id,
    groups_to_dict items group_ids job_ids acc = Return ser ->
    id ∉ map snd items ->
    dict_get Nat.eqb id ser = dict_get Nat.eqb id acc.
Proof.
  induction items as [|[g0 id0] items IH];
    intros group_ids job_ids acc ser id Hrun Hid; simpl in Hrun.
  - injection Hrun as <-. reflexivity.
  - apply bind_Return in Hrun as (d & _ & Hrun). simpl in Hid.
    apply not_elem_of_cons in Hid as [Hne Hid].
    rewrite (IH _ _ _ _ _ Hrun Hid). apply dict_get_set_ne. exact Hne.
Qed.

Lemma groups_to_dict_lookup items :
  forall group_ids job_ids acc ser,
    groups_to_dict items group_ids job_ids acc = Return ser ->
    NoDup (map snd items) ->
    forall g id, (g, id) ∈ items ->
      exists gd, Group_to_dict g group_ids job_ids = Return gd
                 /\ dict_get Nat.eqb id ser = Some gd.
Proof.
  induction items as [|[g0 id0] items IH];
    intros group_ids job_ids acc ser Hrun Hnd g id Hin; simpl in Hrun.
  - inversion Hin.
  - apply bind_Return in Hrun as (d & Hd & Hrun). simpl in Hnd.
    apply NoDup_cons in Hnd as [Hid0 Hnd].
    apply elem_of_cons in Hin as [Heq|Hin].
    + injection Heq as -> ->. exists d. split; [exact Hd|].
      rewrite (groups_to_dict_keeps _ _ _ _ _ _ Hrun Hid0).
      apply dict_get_set_eq.
    + eapply IH; eauto.
Qed.

Lemma element_ids_known msg els job_ids group_ids ids :
  element_ids msg els job_ids group_ids = Return ids ->
  forall e, e ∈ els ->
    is_Some (job_id_of e job_ids) \/ is_Some (group_id_of e group_ids).
Proof.
  revert ids. induction els as [|x els IH]; intros ids Hrun e He; simpl in Hrun.
  - inversion He.
  - destruct (job_id_of x job_ids) as [i|] eqn:Hj.
    + apply bind_Return in Hrun as (ids' & Hrun & _).
      apply elem_of_cons in He as [->|He]; [left; rewrite Hj; eauto|eauto].
    + destruct (group_id_of x group_ids) as [i|] eqn:Hg; [|discriminate].
      apply bind_Return in Hrun as (ids' & Hrun & _).
      apply elem_of_cons in He as [->|He]; [right; rewrite Hg; eauto|eauto].
Qed.

Lemma element_ids_of_jobs msg els job_ids group_ids ids :
  element_ids msg els job_ids group_ids = Return ids ->
  (forall e, e ∈ els -> is_Group e = false) ->
  forall i, i ∈ ids -> i ∈ map snd job_ids.
Proof.
  revert ids. induction els as [|x els IH]; intros ids Hrun Hels i Hi;
    simpl in Hrun.
  - injection Hrun as <-. inversion Hi.
  - assert (Hx : is_Group x = false) by (apply Hels; left).
    assert (Hels' : forall e, e ∈ els -> is_Group e = false)
      by (intros e He; apply Hels; right; exact He).
    destruct x as [j|g]; [|discriminate]. simpl in Hrun.
    destruct (dict_get same_job j job_ids) as [i0|] eqn:Hj; [|discriminate].
    apply bind_Return in Hrun as (ids' & Hrun & Hret). injection Hret as <-.
    apply elem_of_cons in Hi as [->|Hi]; [|eauto].
    apply dict_get_elem in Hj as (j' & Hin & _).
    change i0 with (snd (j', i0)). apply list_elem_of_fmap_2. exact Hin.
Qed.

(** *** A group without sub-groups *)

Lemma minimal_group (gs : list Group) :
  gs <> [] ->
  exists g, g ∈ gs /\ forall g', g' ∈ gs -> group_count g <= group_count g'.
Proof.
  induction gs as [|g gs IH]; [congruence|]. intros _.
  destruct gs as [|g1 gs].
  - exists g. split; [left|]. intros g' Hg'.
    apply list_elem_of_singleton in Hg' as ->. lia.
  - destruct IH as (m & Hm & Hmin); [discriminate|].
    destruct (le_lt_dec (group_count g) (group_count m)) as [Hle|Hlt].
    + exists g. split; [left|]. intros g' Hg'.
      apply elem_of_cons in Hg' as [->|Hg']; [lia|].
      specialize (Hmin g' Hg'). lia.
    + exists m. split; [right; exact Hm|]. intros g' Hg'.
      apply elem_of_cons in Hg' as [->|Hg']; [lia|auto].
Qed.

Lemma group_count_sub g s :
  s ∈ sub_groups (elements g) -> group_count s < group_count g.
Proof.
  intros Hs. rewrite (group_count_unfold g).
  induction Hs; simpl; lia.
Qed.

(** *** The first round of the conversion of the groups *)

Lemma elements_of_ids_jobs ids gf jf :
  (forall i, i ∈ ids -> is_Some (dict_get Nat.eqb i jf)) ->
  is_Some (elements_of_ids ids gf jf).
Proof.
  induction ids as [|i ids IH]; intros Hids; simpl; [eauto|].
  destruct (Hids i ltac:(left)) as [job ->].
  destruct IH as [els ->]; [intros k Hk; apply Hids; right; exact Hk|].
  simpl. eauto.
Qed.

Lemma convert_groups_round_grows to_convert sg jf :
  forall nc gf next nc' gf' next',
    convert_groups_round to_convert sg jf nc gf next = Return (nc', gf', next') ->
    exists extra, nc' = nc ++ extra.
Proof.
  induction to_convert as [|k to_convert IH];
    intros nc gf next nc' gf' next' Hrun; simpl in Hrun.
  - injection Hrun as <- _ _. exists []. rewrite app_nil_r. reflexivity.
  - destruct (dict_get Nat.eqb k sg) as [d|]; [|discriminate].
    destruct (Group_from_dict next d gf jf).
    + destruct (IH _ _ _ _ _ _ Hrun) as (extra & ->).
      exists (k :: extra). rewrite <- app_assoc. reflexivity.
    + eauto.
Qed.

Lemma convert_groups_round_progress to_convert sg jf :
  forall nc gf next nc' gf' next',
    convert_groups_round to_convert sg jf nc gf next = Return (nc', gf', next') ->
    forall k gd,
      k ∈ to_convert -> dict_get Nat.eqb k sg = Some gd ->
      (forall i, i ∈ gd_elements gd -> is_Some (dict_get Nat.eqb i jf)) ->
      nc' <> [].
Proof.
  induction to_convert as [|k0 to_convert IH];
    intros nc gf next nc' gf' next' Hrun k gd Hk Hgd Hjobs; simpl in Hrun.
  - inversion Hk.
  - destruct (dict_get Nat.eqb k0 sg) as [d|] eqn:Hd; [|discriminate].
    apply elem_of_cons in Hk as [->|Hk].
    + rewrite Hgd in Hd. injection Hd as <-.
      unfold Group_from_dict in Hrun.
      destruct (elements_of_ids_jobs (gd_elements gd) gf jf Hjobs) as [els Hels].
      rewrite Hels in Hrun. simpl in Hrun.
      destruct (convert_groups_round_grows _ _ _ _ _ _ _ _ _ Hrun) as (extra & ->).
      destruct nc; discriminate.
    + destruct (Group_from_dict next d gf jf); eapply IH; eauto.
Qed.

(** X5.  Under Python 3, where [serialized_groups.keys()] has no [remove],
    [Workflow.from_dict] returns no workflow for the dictionary of a workflow
    that has a group: the call raises an exception. *)
Theorem from_dict_python3_groups w d next :
  Workflow_to_dict w = Return d ->
  groups w <> [] ->
  oids_identify (flat_map all_groups (groups w)) ->
  exists e, Workflow_from_dict true next d = Raise e.
Proof.
  intros Hdict Hne Hids. unfold Workflow_to_dict in Hdict.
  destruct (number_objects same_job (jobs w) 0 [] [])
    as [[new_jobs job_ids] ident] eqn:Hjobs.
  apply bind_Return in Hdict as (new_deps & _ & Hdict).
  destruct (number_objects same_group (groups w) ident [] [])
    as [[new_groups group_ids] ident'] eqn:Hgroups.
  apply bind_Return in Hdict as (new_root & _ & Hdict).
  apply bind_Return in Hdict as (ser_groups & Hser & Hdict).
  apply bind_Return in Hdict as ([[sj sb] st] & Hsj & Hdict).
  apply bind_Return in Hdict as (ser_opt & _ & Hdict).
  injection Hdict as <-.
  assert (Hkeys : forall g id, (g, id) ∈ group_ids -> g ∈ groups w).
  { intros g id Hin.
    destruct (number_objects_keys _ _ _ _ _ _ _ _ Hgroups g id Hin)
      as [Hg|[v0 Hv0]]; [exact Hg|inversion Hv0]. }
  assert (Hvalues : NoDup (map snd group_ids)).
  { eapply number_objects_values; [exact Hgroups|constructor|].
    intros x Hx. inversion Hx. }
  assert (Hsome : map fst group_ids <> []).
  { pose proof (number_objects_nonempty _ _ _ _ _ _ _ _ Hgroups (or_introl Hne)).
    destruct group_ids; [congruence|discriminate]. }
  destruct (minimal_group _ Hsome) as (g & Hg & Hmin).
  apply list_elem_of_fmap in Hg as ([g0 id] & -> & Hin). simpl in *.
  destruct (groups_to_dict_lookup _ _ _ _ _ Hser Hvalues g0 id Hin)
    as (gd & Hgd & Hlookup).
  unfold Group_to_dict in Hgd.
  apply bind_Return in Hgd as (els_ids & Hels & Hgd). injection Hgd as <-.
  assert (Hleaf : forall e, e ∈ elements g0 -> is_Group e = false).
  { intros [j|s] He; [reflexivity|]. exfalso.
    destruct (element_ids_known _ _ _ _ _ Hels (EGroup s) He) as [[i Hi]|[i Hi]];
      [discriminate|].
    simpl in Hi. apply dict_get_elem in Hi as (g' & Hin' & Hsame).
    apply Nat.eqb_eq in Hsame.
    assert (Hs : s ∈ sub_groups (elements g0)) by (apply sub_groups_elem; exact He).
    assert (g' = s) as ->.
    { apply Hids; [| |exact Hsame].
      - apply elem_of_flat_map. exists g'.
        split; [eapply Hkeys; exact Hin'|apply all_groups_self].
      - apply elem_of_flat_map. exists g0.
        split; [eapply Hkeys; exact Hin|].
        eapply all_groups_sub; [exact Hs|apply all_groups_self]. }
    pose proof (group_count_sub g0 s Hs) as Hlt.
    assert (Hle : group_count g0 <= group_count s).
    { apply Hmin. change s with (fst (s, i)). apply list_elem_of_fmap_2.
      exact Hin'. }
    lia. }
  assert (Hserialised : forall i, i ∈ els_ids ->
            is_Some (dict_get Nat.eqb i sj) \/ is_Some (dict_get Nat.eqb i sb)).
  { intros i Hi. eapply jobs_to_dict_keys; [exact Hsj|].
    right. right. eapply element_ids_of_jobs; eauto. }
  assert (Hkey : id ∈ map fst ser_groups).
  { apply dict_get_key_elem. rewrite Hlookup. eauto. }
  unfold Workflow_from_dict. simpl.
  destruct (paths_from_dict SharedResourcePath_from_dict _ next [])
    as [r_srp|e|] eqn:Hsrp; simpl; [|eauto|].
  2:{ exfalso. revert Hsrp. apply paths_from_dict_fuel. intros n d0. discriminate. }
  destruct (paths_from_dict FileTransfer_from_dict _ (snd r_srp) [])
    as [r_tr|e|] eqn:Htr; simpl; [|eauto|].
  2:{ exfalso. revert Htr. apply paths_from_dict_fuel. intros n d0. discriminate. }
  destruct (paths_from_dict _ _ (snd r_tr) []) as [r_tmp|e|] eqn:Htmp; simpl;
    [|eauto|].
  2:{ exfalso. revert Htmp. apply paths_from_dict_fuel. intros n d0. discriminate. }
  destruct (options_from_dict _ (snd r_tmp) _) as [r_opt|e|] eqn:Hopt; simpl;
    [|eauto|].
  2:{ exfalso. revert Hopt. apply options_from_dict_fuel. }
  destruct (jobs_from_dict Job_from_dict sj (fst r_opt) (snd r_opt) [])
    as [r_jobs|e|] eqn:Hrj; simpl; [|eauto|].
  2:{ exfalso. revert Hrj. apply jobs_from_dict_fuel. apply Job_from_dict_fuel. }
  destruct (jobs_from_dict BarrierJob_from_dict sb (fst r_opt) (snd r_jobs)
              (fst r_jobs)) as [r_all|e|] eqn:Hra; simpl; [|eauto|].
  2:{ exfalso. revert Hra. apply jobs_from_dict_fuel. intros n d0 t. discriminate. }
  assert (Hfound : forall i, i ∈ els_ids ->
            is_Some (dict_get Nat.eqb i (fst r_all))).
  { intros i Hi. destruct r_jobs as [jf1 n1], r_all as [jf2 n2]. simpl in *.
    eapply jobs_from_dict_keys; [exact Hra|].
    destruct (Hserialised i Hi) as [H1|H2].
    - left. eapply jobs_from_dict_keys; [exact Hrj|].
      right. apply dict_get_key_elem. exact H1.
    - right. apply dict_get_key_elem. exact H2. }
  destruct (convert_groups_round (map fst ser_groups) ser_groups (fst r_all) []
              [] (snd r_all)) as [[[nc gf] nx]|e|] eqn:Hround; simpl;
    [|eauto|].
  2:{ exfalso. revert Hround. apply convert_groups_round_fuel. }
  pose proof (convert_groups_round_progress _ _ _ _ _ _ _ _ _ Hround id _ Hkey
                Hlookup Hfound) as Hnc.
  destruct nc as [|k nc]; [congruence|]. simpl. eauto.
Qed.

Lemma from_dict_python3_groups_witness :
  Workflow_to_dict grouped_workflow = Return grouped_workflow_dict
  /\ exists e, Workflow_from_dict true 6 grouped_workflow_dict = Raise e.
Proof.
  assert (H : Workflow_to_dict grouped_workflow = Return grouped_workflow_dict)
    by (vm_compute; reflexivity).
  split; [exact H|].
  apply (from_dict_python3_groups grouped_workflow grouped_workflow_dict 6 H).
  - discriminate.
  - intros g1 g2 H1 H2 _. simpl in H1, H2.
    apply list_elem_of_singleton in H1, H2. congruence.
Defined.

(** ** The operators of the special paths *)

Lemma py_format_from_cons (c : ascii) (r : string) (arg : option string) :
  py_format_from (String c r) arg =
  if Ascii.eqb c "%"
  then match r with
       | EmptyString => None
       | String d r' =>
           if Ascii.eqb d "s"
           then match arg with
                | Some a => option_map (String.append a) (py_format_from r' None)
                | None => None
                end
           else if Ascii.eqb d "%"
                then option_map (String "%") (py_format_from r' arg)
                else None
       end
  else option_map (String c) (py_format_from r arg).
Proof.
  destruct c as [[] [] [] [] [] [] [] []]; try reflexivity.
  destruct r as [|d r']; [reflexivity|].
  destruct d as [[] [] [] [] [] [] [] []]; reflexivity.
Qed.

Lemma py_format_from_literal (s : string) :
  no_percent s = true -> py_format_from s None = Some s.
Proof.
  induction s as [|c s IH]; [reflexivity|]. simpl no_percent. intros H.
  apply andb_true_iff in H as [Hc Hs]. apply negb_true_iff in Hc.
  rewrite py_format_from_cons, Hc, (IH Hs). reflexivity.
Qed.

Lemma py_format_from_append (s : string) :
  no_percent s = true ->
  forall n pat arg t,
    String.length pat <= n ->
    py_format_from pat arg = Some t ->
    py_format_from (pat +:+ s) arg = Some (t +:+ s).
Proof.
  intros Hs. induction n as [|n IH]; intros pat arg t Hlen Hfmt.
  - destruct pat; [|simpl in Hlen; lia]. destruct arg; [discriminate|].
    injection Hfmt as <-. rewrite !append_nil_l.
    apply py_format_from_literal. exact Hs.
  - destruct pat as [|c r].
    + destruct arg; [discriminate|]. injection Hfmt as <-.
      rewrite !append_nil_l. apply py_format_from_literal. exact Hs.
    + rewrite append_cons. rewrite py_format_from_cons in *. simpl in Hlen.
      destruct (Ascii.eqb c "%").
      * destruct r as [|d r']; [discriminate|]. rewrite append_cons.
        simpl in Hlen. destruct (Ascii.eqb d "s").
        -- destruct arg as [a|]; [|discriminate].
           destruct (py_format_from r' None) as [t'|] eqn:Ht'; [|discriminate].
           injection Hfmt as <-.
           rewrite (IH r' None t') by (lia || exact Ht'). simpl.
           rewrite append_assoc. reflexivity.
        -- destruct (Ascii.eqb d "%"); [|discriminate].
           destruct (py_format_from r' arg) as [t'|] eqn:Ht'; [|discriminate].
           injection Hfmt as <-.
           rewrite (IH r' arg t') by (lia || exact Ht'). reflexivity.
      * destruct (py_format_from r arg) as [t'|] eqn:Ht'; [|discriminate].
        injection Hfmt as <-.
        rewrite (IH r arg t') by (lia || exact Ht'). reflexivity.
Qed.

Lemma py_format_append (pat arg t s : string) :
  no_percent s = true -> py_format pat arg = Some t ->
  py_format (pat +:+ s) arg = Some (t +:+ s).
Proof.
  intros Hs Hfmt. unfold py_format in *.
  eapply py_format_from_append; [exact Hs|reflexivity|exact Hfmt].
Qed.

Lemma py_format_prepend (pat arg t s : string) :
  no_percent s = true -> py_format pat arg = Some t ->
  py_format (s +:+ pat) arg = Some (s +:+ t).
Proof.
  unfold py_format. intros Hs Hfmt. induction s as [|c s IH].
  - rewrite !append_nil_l. exact Hfmt.
  - simpl in Hs. apply andb_true_iff in Hs as [Hc Hs].
    apply negb_true_iff in Hc.
    rewrite append_cons, py_format_from_cons, Hc, (IH Hs). reflexivity.
Qed.

(** What [__str__] formats with the pattern: the text that depends on the
    attributes read through the referent. *)
Lemma SpecialPath_str_head (p : SpecialPath) (h : PathHead) (t : string) :
  SpecialPath_str p = Some t ->
  exists arg,
    py_format (pattern (head p)) arg = Some t
    /\ SpecialPath_str (set_head h p)
       = py_format (pattern h) arg.
Proof.
  destruct p as [o|o|o|[h0 [s|q] ty u nm]]; simpl; intros Hstr; eauto.
  destruct (SpecialPath_str q) as [s|]; [|discriminate]. eauto.
Qed.

Lemma SpecialPath_copy_spec res p :
  exists r,
    SpecialPath_copy res p = Return r
    /\ set_head (head p) r = p
    /\ class_name r = class_name p.
Proof.
  destruct p as [o|o|o|o]; simpl; eexists; (split; [reflexivity|]); simpl.
  - destruct o; auto.
  - destruct o; auto.
  - destruct o; auto.
  - destruct o; auto.
Qed.

Lemma set_head_twice h h' p : set_head h (set_head h' p) = set_head h p.
Proof. destruct p as [o|o|o|o]; reflexivity. Qed.

Lemma head_set_head h p : head (set_head h p) = h.
Proof. destruct p as [o|o|o|o]; reflexivity. Qed.

Lemma class_name_set_head h p : class_name (set_head h p) = class_name p.
Proof. destruct p as [o|o|o|o]; reflexivity. Qed.

(** X6.  [path + text] and [text + path], for a text without a percent
    sign, give a new path of the same class that is equal ([==]) to the path
    and hashes like it, and whose string is the string of the path followed,
    respectively preceded, by the text. *)
Theorem special_path_sum res p text t :
  no_percent text = true ->
  SpecialPath_str p = Some t ->
  exists q q',
    SpecialPath_add res p text = Return q
    /\ SpecialPath_radd res p text = Return q'
    /\ SpecialPath_str q = Some (t +:+ text)
    /\ SpecialPath_str q' = Some (text +:+ t)
    /\ SpecialPath_eq q p = true /\ SpecialPath_eq q' p = true
    /\ SpecialPath_hash q = SpecialPath_hash p
    /\ SpecialPath_hash q' = SpecialPath_hash p
    /\ oid (head q) = res /\ oid (head q') = res.
Proof.
  intros Htext Hstr.
  destruct (SpecialPath_copy_spec res p) as (r & Hcopy & Hr & Hclass).
  unfold SpecialPath_add, SpecialPath_radd. rewrite Hcopy. simpl.
  eexists _, _. split; [reflexivity|]. split; [reflexivity|].
  unfold refer_to.
  assert (Hoid : oid (head r) = res)
    by (destruct p as [o|o|o|o]; simpl in Hcopy; injection Hcopy as <-;
        reflexivity).
  assert (Hh : forall h, set_head h r = set_head h p)
    by (intros h; rewrite <- (set_head_twice h (head p) r), Hr; reflexivity).
  rewrite !Hh.
  destruct (SpecialPath_str_head p
              {| oid := oid (head r);
                 ref := Some (referent p, head_referent_pattern (head p));
                 pattern := pattern (head p) +:+ text |} t Hstr)
    as (arg & Harg & Hq).
  destruct (SpecialPath_str_head p
              {| oid := oid (head r);
                 ref := Some (referent p, head_referent_pattern (head p));
                 pattern := text +:+ pattern (head p) |} t Hstr)
    as (arg' & Harg' & Hq').
  rewrite Hq, Hq'. simpl.
  split; [apply py_format_append; assumption|].
  split; [apply py_format_prepend; assumption|].
  unfold SpecialPath_eq, same_class, SpecialPath_hash, referent.
  rewrite !class_name_set_head, !head_set_head, String.eqb_refl.
  unfold head_referent. simpl. rewrite Nat.eqb_refl.
  repeat split; assumption.
Qed.

Lemma special_path_sum_witness :
  exists q q',
    SpecialPath_add 2 (FileTransfer input_transfer) ".nii" = Return q
    /\ SpecialPath_radd 2 (FileTransfer input_transfer) "file:" = Return q'
    /\ SpecialPath_str q = Some "/in.nii"
    /\ SpecialPath_eq q (FileTransfer input_transfer) = true.
Proof.
  destruct (special_path_sum 2 (FileTransfer input_transfer) ".nii" "/in"
              eq_refl eq_refl)
    as (q & _ & Hadd & _ & Hstr & _ & Heq & _).
  exists q. eexists. split; [exact Hadd|]. split; [reflexivity|].
  split; [exact Hstr|exact Heq].
Defined.

(** X7.  [path += text] always raises [AttributeError], and leaves the text
    appended to the pattern of the path: for a text without a percent sign
    the string of the path is afterwards followed by the text. *)
Theorem special_path_iadd p text t :
  no_percent text = true ->
  SpecialPath_str p = Some t ->
  fst (SpecialPath_iadd p text) = Raise AttributeError
  /\ SpecialPath_str (snd (SpecialPath_iadd p text)) = Some (t +:+ text)
  /\ referent (snd (SpecialPath_iadd p text)) = referent p.
Proof.
  intros Htext Hstr. unfold SpecialPath_iadd. simpl.
  split; [reflexivity|].
  destruct (SpecialPath_str_head p
              (set_pattern (pattern (head p) +:+ text) (head p)) t Hstr)
    as (arg & Harg & Hq).
  rewrite Hq. simpl. split; [apply py_format_append; assumption|].
  unfold referent. rewrite head_set_head. reflexivity.
Qed.

Lemma special_path_iadd_witness :
  fst (SpecialPath_iadd (FileTransfer input_transfer) ".nii")
  = Raise AttributeError
  /\ SpecialPath_str (snd (SpecialPath_iadd (FileTransfer input_transfer) ".nii"))
     = Some "/in.nii".
Proof.
  destruct (special_path_iadd (FileTransfer input_transfer) ".nii" "/in"
              eq_refl eq_refl) as (Hraise & Hstr & _).
  split; [exact Hraise|exact Hstr].
Defined.

(** ** The dictionaries of the special paths *)

(** X8.  The dictionary of a file transfer gives back, through
    [FileTransfer.from_dict], a new transfer that is its own referent, is
    attribute-equal to the transfer and has the same string. *)
Theorem file_transfer_dict_round_trip (ft : FileTransferObj) (self : nat) :
  exists ft',
    FileTransfer_from_dict self (FileTransfer_to_dict ft) = Return ft'
    /\ ft_head ft' = set_pattern (pattern (ft_head ft)) (fresh_head self)
    /\ FileTransfer_attributs_equal ft (VPath (FileTransfer ft')) = true
    /\ SpecialPath_str (FileTransfer ft') = SpecialPath_str (FileTransfer ft).
Proof.
  eexists. split; [reflexivity|]. simpl. split; [reflexivity|].
  rewrite !String.eqb_refl, Z.eqb_refl.
  rewrite !bool_decide_eq_true_2 by reflexivity. auto.
Qed.

(** X9.  The dictionary of a temporary path gives back, through
    [TemporaryPath.from_dict], a new temporary path that is attribute-equal
    to the path and has the same string. *)
Theorem temporary_path_dict_round_trip (tmp : TemporaryPathObj) (self : nat) :
  let tmp' := TemporaryPath_from_dict self (TemporaryPath_to_dict tmp) in
  tmp_head tmp' = set_pattern (pattern (tmp_head tmp)) (fresh_head self)
  /\ TemporaryPath_attributs_equal tmp (VPath (TemporaryPath tmp')) = true
  /\ SpecialPath_str (TemporaryPath tmp') = SpecialPath_str (TemporaryPath tmp).
Proof.
  simpl. split; [reflexivity|].
  rewrite !String.eqb_refl, Z.eqb_refl, Bool.eqb_reflx. auto.
Qed.

(** X10.  The dictionary of a shared resource path records the pattern of the
    referent: the path read back is attribute-equal to the path (whose
    comparison reads the referent too), but what [+] appended to a shared
    resource path is not in its string any more. *)
Theorem shared_resource_path_dict_pattern (srp : SharedResourcePathObj)
    (res self : nat) (text : string) :
  ref (srp_head srp) = None ->
  pattern (srp_head srp) = "%s" ->
  no_percent text = true ->
  exists q q' base,
    SpecialPath_add res (SharedResourcePath srp) text
    = Return (SharedResourcePath q)
    /\ SharedResourcePath_from_dict self (SharedResourcePath_to_dict q)
       = Return q'
    /\ SharedResourcePath_attributs_equal q (VPath (SharedResourcePath q'))
       = true
    /\ SpecialPath_str (SharedResourcePath srp) = Some base
    /\ SpecialPath_str (SharedResourcePath q) = Some (base +:+ text)
    /\ SpecialPath_str (SharedResourcePath q') = Some base.
Proof.
  intros Href Hpat Htext. destruct srp as [[o r pat] rel ns u dt].
  simpl in Href, Hpat. subst r pat.
  eexists _, _, _. split; [reflexivity|]. split; [reflexivity|]. simpl.
  rewrite !String.eqb_refl, bool_decide_eq_true_2 by reflexivity.
  split; [reflexivity|]. split; [apply py_format_plain|].
  split; [|apply py_format_plain].
  apply py_format_append; [exact Htext|apply py_format_plain].
Qed.

Lemma shared_resource_path_dict_pattern_witness :
  exists q q',
    SpecialPath_add 2 (SharedResourcePath shared_file) ".gz"
    = Return (SharedResourcePath q)
    /\ SharedResourcePath_from_dict 3 (SharedResourcePath_to_dict q) = Return q'
    /\ SpecialPath_str (SharedResourcePath q) = Some "ns:uuid:file.gz"
    /\ SpecialPath_str (SharedResourcePath q') = Some "ns:uuid:file".
Proof.
  destruct (shared_resource_path_dict_pattern shared_file 2 3 ".gz"
              eq_refl eq_refl eq_refl)
    as (q & q' & base & Hadd & Hback & _ & Hbase & Hq & Hq').
  injection Hbase as <-.
  exists q, q'. repeat split; assumption.
Defined.

(** X11.  The dictionary of an option path whose parent path is a string
    gives back, through [OptionPath.from_dict], an option path that is
    attribute-equal to it and has the same string. *)
Theorem option_path_dict_round_trip (opt : OptionPathObj) (parent : string)
    (self : nat) (st : SerState) (t : FromIds) :
  parent_path opt = ParentStr parent ->
  parent_type opt = "str" ->
  exists opt',
    OptionPath_to_dict opt st = (fst (OptionPath_to_dict opt st), st)
    /\ OptionPath_from_dict self (fst (OptionPath_to_dict opt st)) t
       = Return opt'
    /\ OptionPath_attributs_equal opt (VPath (OptionPath opt')) = true
    /\ SpecialPath_str (OptionPath opt') = SpecialPath_str (OptionPath opt).
Proof.
  destruct opt as [h pp ty u nm]. simpl. intros -> ->.
  unfold OptionPath_to_dict, OptionPath_from_dict. simpl.
  eexists. split; [reflexivity|]. split; [reflexivity|]. simpl.
  destruct (String.eqb_spec u "") as [->|Hu]; simpl;
    rewrite !String.eqb_refl; auto.
Qed.

Lemma option_path_dict_round_trip_witness :
  exists opt opt',
    OptionPath_init 2 (ArgStr "/data/img") (UriStr "?a=1") None = Return opt
    /\ OptionPath_from_dict 3
         (fst (OptionPath_to_dict opt
                 {| current_id := 0; transfer_ids := [];
                    shared_res_path_ids := []; tmp_ids := []; opt_ids := [] |}))
         no_paths = Return opt'
    /\ OptionPath_attributs_equal opt (VPath (OptionPath opt')) = true.
Proof.
  eexists. 
  destruct (option_path_dict_round_trip
              (mkOptionPath (fresh_head 2) (ParentStr "/data/img") "str" "?a=1"
                 "parent_path?a=1")
              "/data/img" 3
              {| current_id := 0; transfer_ids := [];
                 shared_res_path_ids := []; tmp_ids := []; opt_ids := [] |}
              no_paths eq_refl eq_refl)
    as (opt' & _ & Hback & Heq & _).
  exists opt'. split; [reflexivity|]. split; [exact Hback|exact Heq].
Defined.

(** ** Identifiers of the special paths *)

Lemma dict_get_same_referent {A} (head_of : A -> PathHead) (a b : A)
    (d : list (A * nat)) :
  head_referent (head_of a) = head_referent (head_of b) ->
  dict_get (same_referent head_of) a d = dict_get (same_referent head_of) b d.
Proof.
  intros Heq. induction d as [|[k v] d IH]; simpl; [reflexivity|].
  unfold same_referent at 1 3. rewrite Heq, IH. reflexivity.
Qed.

Lemma dict_get_appended {A} (head_of : A -> PathHead) (a : A) (v : nat)
    (d : list (A * nat)) :
  dict_get (same_referent head_of) a d = None ->
  dict_get (same_referent head_of) a (d ++ [(a, v)]) = Some v.
Proof.
  intros Hnone. rewrite dict_get_app_None by exact Hnone. simpl.
  unfold same_referent. rewrite Nat.eqb_refl. reflexivity.
Qed.

(** X12.  [to_serializable] gives two special paths that are equal ([==]:
    the same class and the same referent, as a path and the paths that [+]
    makes of it) the same identifier, and records the first of them only. *)
Theorem to_serializable_equal_paths (p q : SpecialPath) (st st' : SerState)
    (ident : PyVal) :
  SpecialPath_eq q p = true ->
  to_serializable (VPath p) st = Return (ident, st') ->
  to_serializable (VPath q) st' = Return (ident, st').
Proof.
  unfold SpecialPath_eq, same_class. intros Heq Hrun.
  apply andb_true_iff in Heq as [Hclass Href].
  apply Nat.eqb_eq in Href. unfold referent in Href.
  destruct p as [o|o|o|o], q as [o'|o'|o'|o']; try discriminate;
    simpl in *.
  - rewrite (dict_get_same_referent ft_head o' o _ Href).
    destruct (dict_get (same_referent ft_head) o (transfer_ids st)) as [k|] eqn:Hk;
      injection Hrun as <- <-; simpl.
    + rewrite Hk. reflexivity.
    + rewrite dict_get_appended by exact Hk. reflexivity.
  - rewrite (dict_get_same_referent srp_head o' o _ Href).
    destruct (dict_get (same_referent srp_head) o (shared_res_path_ids st))
      as [k|] eqn:Hk; injection Hrun as <- <-; simpl.
    + rewrite Hk. reflexivity.
    + rewrite dict_get_appended by exact Hk. reflexivity.
  - rewrite (dict_get_same_referent tmp_head o' o _ Href).
    destruct (dict_get (same_referent tmp_head) o (tmp_ids st)) as [k|] eqn:Hk;
      injection Hrun as <- <-; simpl.
    + rewrite Hk. reflexivity.
    + rewrite dict_get_appended by exact Hk. reflexivity.
  - rewrite (dict_get_same_referent opt_head o' o _ Href).
    destruct (dict_get (same_referent opt_head) o (opt_ids st)) as [k|] eqn:Hk;
      injection Hrun as <- <-; simpl.
    + rewrite Hk. reflexivity.
    + rewrite dict_get_appended by exact Hk. reflexivity.
Qed.

Lemma to_serializable_equal_paths_witness :
  exists q st',
    SpecialPath_add 2 (FileTransfer input_transfer) ".nii" = Return q
    /\ to_serializable (VPath (FileTransfer input_transfer)) (fresh_ser_state 0)
       = Return (VInt 0, st')
    /\ to_serializable (VPath q) st' = Return (VInt 0, st').
Proof.
  eexists _, _. split; [reflexivity|]. split; [reflexivity|].
  apply (to_serializable_equal_paths (FileTransfer input_transfer) _
           (fresh_ser_state 0) _ (VInt 0)); reflexivity.
Defined.

(** ** What [Workflow.to_dict] refuses *)

Lemma number_objects_covers {A} (key : A -> nat) (objects : list A) :
  let same := fun a b => Nat.eqb (key a) (key b) in
  forall ident new_ids ids new_ids' ids' ident',
    number_objects same objects ident new_ids ids = (new_ids', ids', ident') ->
    forall x,
      (exists o, o ∈ objects /\ key o = key x) \/ is_Some (dict_get same x ids) ->
      is_Some (dict_get same x ids').
Proof.
  intros same.
  assert (Hset : forall k (v : nat) (d : list (A * nat)) x,
            key k = key x \/ is_Some (dict_get same x d) ->
            is_Some (dict_get same x (dict_set same k v d))).
  { intros k v d x. induction d as [|[k0 v0] d IH]; simpl; intros H.
    - destruct H as [H|[? H]]; [|discriminate].
      unfold same. rewrite H, Nat.eqb_refl. eauto.
    - destruct (same k0 k) eqn:Hk0; simpl.
      + destruct (same k0 x) eqn:Hx; [eauto|].
        destruct H as [H|H]; [|exact H].
        unfold same in *. apply Nat.eqb_eq in Hk0. rewrite Hk0, H in Hx.
        rewrite Nat.eqb_refl in Hx. discriminate.
      + destruct (same k0 x); [eauto|]. apply IH. exact H. }
  induction objects as [|o objects IH];
    intros ident new_ids ids new_ids' ids' ident' Hrun x Hx; simpl in Hrun.
  - injection Hrun as _ <- _. destruct Hx as [(o & Ho & _)|Hx]; [inversion Ho|].
    exact Hx.
  - apply (IH _ _ _ _ _ _ Hrun x). destruct Hx as [(o' & Ho' & Hk)|Hx].
    + apply elem_of_cons in Ho' as [->|Ho'].
      * right. apply Hset. left. exact Hk.
      * left. exists o'. split; assumption.
    + right. apply Hset. right. exact Hx.
Qed.

(** [element in job_ids] holds exactly for the jobs of the workflow. *)
Lemma job_id_of_known w new_jobs job_ids ident e :
  number_objects same_job (jobs w) 0 [] [] = (new_jobs, job_ids, ident) ->
  is_Some (job_id_of e job_ids) <-> known_job w e.
Proof.
  intros Hrun. destruct e as [j|g]; simpl.
  - split.
    + intros [i Hi]. apply dict_get_elem in Hi as (j' & Hin & Hsame).
      apply Nat.eqb_eq in Hsame. rewrite <- Hsame.
      apply list_elem_of_fmap_2.
      destruct (number_objects_keys _ _ _ _ _ _ _ _ Hrun j' i Hin)
        as [Hj|[v0 Hv0]]; [exact Hj|inversion Hv0].
    + intros Hj. apply list_elem_of_fmap in Hj as (j' & Hoid & Hj').
      apply (number_objects_covers job_oid (jobs w) _ _ _ _ _ _ Hrun j).
      left. exists j'. split; [exact Hj'|congruence].
  - split; [intros [i Hi]; discriminate|intros []].
Qed.

Lemma group_id_of_known w ident new_groups group_ids ident' e :
  number_objects same_group (groups w) ident [] []
  = (new_groups, group_ids, ident') ->
  is_Some (group_id_of e group_ids) <-> known_group w e.
Proof.
  intros Hrun. destruct e as [j|g]; simpl.
  - split; [intros [i Hi]; discriminate|intros []].
  - split.
    + intros [i Hi]. apply dict_get_elem in Hi as (g' & Hin & Hsame).
      apply Nat.eqb_eq in Hsame. rewrite <- Hsame.
      apply list_elem_of_fmap_2.
      destruct (number_objects_keys _ _ _ _ _ _ _ _ Hrun g' i Hin)
        as [Hg|[v0 Hv0]]; [exact Hg|inversion Hv0].
    + intros Hg. apply list_elem_of_fmap in Hg as (g' & Hoid & Hg').
      apply (number_objects_covers group_oid (groups w) _ _ _ _ _ _ Hrun g).
      left. exists g'. split; [exact Hg'|congruence].
Qed.

Lemma dependency_ids_unknown deps job_ids dep :
  dep ∈ deps ->
  job_id_of (fst dep) job_ids = None \/ job_id_of (snd dep) job_ids = None ->
  dependency_ids deps job_ids
  = Raise (PyException "Unknown jobs in dependencies.").
Proof.
  intros Hin Hnone. induction deps as [|d deps IH]; [inversion Hin|].
  simpl. destruct (job_id_of (fst d) job_ids) as [i|] eqn:Hi; [|reflexivity].
  destruct (job_id_of (snd d) job_ids) as [k|] eqn:Hk; [|reflexivity].
  apply elem_of_cons in Hin as [->|Hin].
  - destruct Hnone; congruence.
  - rewrite (IH Hin). reflexivity.
Qed.

Lemma dependency_ids_known deps job_ids :
  (forall dep, dep ∈ deps ->
     is_Some (job_id_of (fst dep) job_ids)
     /\ is_Some (job_id_of (snd dep) job_ids)) ->
  exists ids, dependency_ids deps job_ids = Return ids.
Proof.
  induction deps as [|d deps IH]; intros Hdeps; simpl; [eauto|].
  destruct (Hdeps d ltac:(left)) as [[i ->] [k ->]].
  destruct IH as [ids ->]; [intros dep Hdep; apply Hdeps; right; exact Hdep|].
  simpl. eauto.
Qed.

Lemma element_ids_unknown msg els job_ids group_ids e :
  e ∈ els -> job_id_of e job_ids = None -> group_id_of e group_ids = None ->
  element_ids msg els job_ids group_ids = Raise (PyException msg).
Proof.
  intros Hin Hj Hg. induction els as [|x els IH]; [inversion Hin|].
  simpl. apply elem_of_cons in Hin as [<-|Hin].
  - rewrite Hj, Hg. reflexivity.
  - destruct (job_id_of x job_ids); [rewrite (IH Hin); reflexivity|].
    destruct (group_id_of x group_ids); [rewrite (IH Hin); reflexivity|].
    reflexivity.
Qed.

(** X13.  [Workflow.to_dict] raises the exception "Unknown jobs in
    dependencies." as soon as one end of a dependency is not a job of the
    workflow (a job that is not in [jobs], or a group). *)
Theorem to_dict_unknown_job w dep :
  dep ∈ dependencies w ->
  ~ known_job w (fst dep) \/ ~ known_job w (snd dep) ->
  Workflow_to_dict w = Raise (PyException "Unknown jobs in dependencies.").
Proof.
  intros Hin Hunknown. unfold Workflow_to_dict.
  destruct (number_objects same_job (jobs w) 0 [] [])
    as [[new_jobs job_ids] ident] eqn:Hjobs.
  rewrite (dependency_ids_unknown _ _ dep Hin); [reflexivity|].
  destruct Hunknown as [H|H]; [left|right];
    apply eq_None_not_Some; intros Hsome; apply H;
    apply (job_id_of_known w _ _ _ _ Hjobs); exact Hsome.
Qed.

Lemma to_dict_unknown_job_witness :
  Workflow_to_dict dangling_workflow
  = Raise (PyException "Unknown jobs in dependencies.").
Proof.
  apply (to_dict_unknown_job dangling_workflow (EJob job_X, EJob job_W)).
  - left.
  - left. simpl. intros Hin. apply list_elem_of_singleton in Hin. discriminate.
Defined.

(** X14.  When every dependency links jobs of the workflow, and an element
    of the root group is neither a job of the workflow nor a group listed in
    [groups], [Workflow.to_dict] raises the exception "Unknown root group
    element.". *)
Theorem to_dict_unknown_root_element w e :
  (forall dep, dep ∈ dependencies w ->
     known_job w (fst dep) /\ known_job w (snd dep)) ->
  e ∈ root_group w -> ~ known_job w e -> ~ known_group w e ->
  Workflow_to_dict w = Raise (PyException "Unknown root group element.").
Proof.
  intros Hdeps Hin Hjob Hgroup. unfold Workflow_to_dict.
  destruct (number_objects same_job (jobs w) 0 [] [])
    as [[new_jobs job_ids] ident] eqn:Hjobs.
  destruct (dependency_ids_known (dependencies w) job_ids) as [ids ->].
  { intros dep Hdep. destruct (Hdeps dep Hdep) as [H1 H2].
    split; apply (job_id_of_known w _ _ _ _ Hjobs); assumption. }
  simpl.
  destruct (number_objects same_group (groups w) ident [] [])
    as [[new_groups group_ids] ident'] eqn:Hgroups.
  rewrite (element_ids_unknown _ _ _ _ e Hin); [reflexivity| |].
  - apply eq_None_not_Some. intros Hsome. apply Hjob.
    apply (job_id_of_known w _ _ _ _ Hjobs). exact Hsome.
  - apply eq_None_not_Some. intros Hsome. apply Hgroup.
    apply (group_id_of_known w _ _ _ _ _ Hgroups). exact Hsome.
Qed.

Lemma to_dict_unknown_root_element_witness :
  Workflow_to_dict stray_root_workflow
  = Raise (PyException "Unknown root group element.").
Proof.
  apply (to_dict_unknown_root_element stray_root_workflow (EJob job_X)).
  - intros dep Hdep. inversion Hdep.
  - left.
  - simpl. intros Hin. apply list_elem_of_singleton in Hin. discriminate.
  - simpl. intros [].
Defined.

(** ** Further properties of the job scheduler *)

Local Open Scope method_scope.

Lemma readline_refused path w :
  isUserTransfer (job_server w) path (user_id w) = false ->
  readline path w = (Raise JobSchedulerError, w).
Proof.
  intros Howned. unfold readline, bind.
  rewrite call_isUserTransfer_spec, Howned. reflexivity.
Qed.

Lemma readline_cached path w content k :
  isUserTransfer (job_server w) path (user_id w) = true ->
  files w !! path = Some content ->
  fileToRead w = Some {| file_name := path; file_position := k |} ->
  readline path w =
  (Return (default "" (content !! k)),
   with_fileToRead (Some {| file_name := path; file_position := S k |}) w).
Proof.
  intros Howned Hfile Hcache. unfold readline, bind.
  rewrite call_isUserTransfer_spec, Howned. simpl.
  rewrite Hcache. simpl. rewrite String.eqb_refl. simpl.
  unfold line_at. simpl. rewrite Hfile. reflexivity.
Qed.

Lemma readline_opens path w content :
  isUserTransfer (job_server w) path (user_id w) = true ->
  files w !! path = Some content ->
  (forall f, fileToRead w = Some f -> file_name f <> path) ->
  readline path w =
  (Return (default "" (content !! 0)),
   with_fileToRead (Some {| file_name := path; file_position := 1 |})
     (with_opened path w)).
Proof.
  intros Howned Hfile Hcache. unfold readline, bind.
  rewrite call_isUserTransfer_spec, Howned. simpl.
  assert (Hreader : reader (fileToRead w) path w
                    = (Return {| file_name := path; file_position := 0 |},
                       with_opened path w)).
  { unfold reader. destruct (fileToRead w) as [f|] eqn:Hf.
    - destruct (String.eqb_spec (file_name f) path) as [Heq|_].
      + destruct (Hcache f eq_refl Heq).
      + unfold open_read. rewrite Hfile. reflexivity.
    - unfold open_read. rewrite Hfile. reflexivity. }
  rewrite Hreader. simpl. unfold line_at. simpl. rewrite Hfile. reflexivity.
Qed.

Lemma call_times_cached path content :
  forall n k w,
    isUserTransfer (job_server w) path (user_id w) = true ->
    files w !! path = Some content ->
    fileToRead w = Some {| file_name := path; file_position := k |} ->
    call_times n (readline path) w =
    (Return (map (fun i => default "" (content !! i)) (seq k n)),
     with_fileToRead
       (Some {| file_name := path; file_position := k + n |}) w).
Proof.
  induction n as [|n IH]; intros k w Howned Hfile Hcache.
  - simpl. unfold ret. rewrite Nat.add_0_r. rewrite <- Hcache.
    destruct w; reflexivity.
  - simpl. unfold bind at 1.
    rewrite (readline_cached path w content k Howned Hfile Hcache).
    unfold bind at 1. rewrite (IH (S k)); try assumption; [|reflexivity].
    simpl. unfold ret. rewrite Nat.add_succ_r. reflexivity.
Qed.

Lemma call_times_opens path content n w :
  isUserTransfer (job_server w) path (user_id w) = true ->
  files w !! path = Some content ->
  (forall f, fileToRead w = Some f -> file_name f <> path) ->
  call_times (S n) (readline path) w =
  (Return (map (fun i => default "" (content !! i)) (seq 0 (S n))),
   with_fileToRead (Some {| file_name := path; file_position := S n |})
     (with_opened path w)).
Proof.
  intros Howned Hfile Hcache. simpl call_times. unfold bind at 1.
  rewrite (readline_opens path w content Howned Hfile Hcache).
  unfold bind at 1.
  rewrite (call_times_cached path content n 1); try assumption; reflexivity.
Qed.

(** X15.  Successive calls of [readline] on a transfer of the caller return
    the lines of its file one after the other, and the empty string once the
    file is at its end; the file is opened once, and neither the job server
    nor the DRMAA job scheduler is touched. *)
Theorem readline_successive path content n w :
  isUserTransfer (job_server w) path (user_id w) = true ->
  files w !! path = Some content ->
  (forall f, fileToRead w = Some f -> file_name f <> path) ->
  fst (call_times (S n) (readline path) w)
  = Return (map (fun i => default "" (content !! i)) (seq 0 (S n)))
  /\ opened (snd (call_times (S n) (readline path) w)) = opened w ++ [path]
  /\ job_server (snd (call_times (S n) (readline path) w)) = job_server w
  /\ drmaa_calls (snd (call_times (S n) (readline path) w)) = drmaa_calls w.
Proof.
  intros Howned Hfile Hcache.
  rewrite (call_times_opens path content n w Howned Hfile Hcache).
  repeat split; reflexivity.
Qed.

Lemma readline_successive_witness :
  fst (call_times 3 (readline "/pool/out") transfers_world)
  = Return ["one"; "two"; ""].
Proof.
  destruct (readline_successive "/pool/out" ["one"; "two"] 2 transfers_world)
    as (Hlines & _).
  - reflexivity.
  - reflexivity.
  - intros f Hf. discriminate.
  - exact Hlines.
Defined.

Lemma readline_any path w content :
  isUserTransfer (job_server w) path (user_id w) = true ->
  files w !! path = Some content ->
  exists k w',
    readline path w = (Return (default "" (content !! k)), w')
    /\ fileToRead w' = Some {| file_name := path; file_position := S k |}
    /\ job_server w' = job_server w /\ files w' = files w
    /\ user_id w' = user_id w.
Proof.
  intros Howned Hfile.
  destruct (fileToRead w) as [[name k]|] eqn:Hcache.
  - destruct (String.eqb_spec name path) as [->|Hne].
    + eexists k, _. split; [apply readline_cached; eassumption|]. auto.
    + eexists 0, _. split; [apply readline_opens; try eassumption|auto].
      intros f Hf. rewrite Hcache in Hf. injection Hf as <-. exact Hne.
  - eexists 0, _. split; [apply readline_opens; try eassumption|auto].
    intros f Hf. rewrite Hcache in Hf. discriminate.
Qed.

(** X16.  The scheduler keeps one file open for [readline]: after a line of
    another transfer has been read, reading the first transfer starts again
    at the first line of its file. *)
Theorem readline_interleaved path other content content' w :
  path <> other ->
  isUserTransfer (job_server w) path (user_id w) = true ->
  isUserTransfer (job_server w) other (user_id w) = true ->
  files w !! path = Some content ->
  files w !! other = Some content' ->
  exists k,
    fst ((first <- readline path;;
          _ <- readline other;;
          again <- readline path;;
          ret (first, again)) w)
    = Return (default "" (content !! k), default "" (content !! 0)).
Proof.
  intros Hne Howned Howned' Hfile Hfile'.
  destruct (readline_any path w content Howned Hfile)
    as (k & w1 & Hrun1 & Hcache1 & Hserver1 & Hfiles1 & Huser1).
  exists k. unfold bind at 1. rewrite Hrun1.
  unfold bind at 1.
  rewrite (readline_opens other w1 content');
    [|rewrite Hserver1, Huser1; exact Howned'
     |rewrite Hfiles1; exact Hfile'
     |intros f Hf; rewrite Hcache1 in Hf; injection Hf as <-; exact Hne].
  unfold bind at 1.
  rewrite (readline_opens path _ content);
    [reflexivity
    |simpl; rewrite Hserver1, Huser1; exact Howned
    |simpl; rewrite Hfiles1; exact Hfile
    |simpl; intros f Hf; injection Hf as <-; simpl; congruence].
Qed.

Lemma readline_interleaved_witness :
  exists k,
    fst ((first <- readline "/pool/out";;
          _ <- readline "/pool/in";;
          again <- readline "/pool/out";;
          ret (first, again)) transfers_world)
    = Return (default "" (["one"; "two"] !! k), "one").
Proof.
  apply (readline_interleaved "/pool/out" "/pool/in" ["one"; "two"] ["data"]
           transfers_world); [discriminate|reflexivity..].
Defined.

(** X17.  Whatever the state of the scheduler, [readline] opens no file but
    the file of a transfer that the caller owns: a call for another path
    raises [JobSchedulerError] and changes nothing. *)
Theorem readline_opens_owned_only path w :
  (isUserTransfer (job_server w) path (user_id w) = false
   /\ readline path w = (Raise JobSchedulerError, w))
  \/ (isUserTransfer (job_server w) path (user_id w) = true
      /\ (opened (snd (readline path w)) = opened w
          \/ opened (snd (readline path w)) = opened w ++ [path])).
Proof.
  destruct (isUserTransfer (job_server w) path (user_id w)) eqn:Howned.
  - right. split; [reflexivity|]. unfold readline, bind.
    rewrite call_isUserTransfer_spec, Howned. simpl.
    unfold reader, open_read.
    destruct (fileToRead w) as [f|]; [destruct (String.eqb (file_name f) path)|];
      simpl; try (left; reflexivity);
      destruct (files w !! path); simpl; auto.
  - left. split; [reflexivity|]. apply readline_refused. exact Howned.
Qed.

(** X18.  [submit] and [customSubmit] hand no job to the DRMAA job scheduler:
    with an empty command they raise [JobSchedulerError], with any other
    command they raise [AttributeError], the attribute [_drmaaJS] that they
    read being none of the scheduler; the state is left as it is. *)
Theorem submit_never_delegates (command : list string) (w : World) :
  let e := if Nat.eqb (length command) 0 then JobSchedulerError
           else AttributeError in
  submit command w = (Raise e, w) /\ customSubmit command w = (Raise e, w).
Proof. destruct command; split; reflexivity. Qed.

Lemma check_jobs_owned job_ids w :
  (forall job_id, job_id ∈ job_ids ->
     isUserJob (job_server w) job_id (user_id w) = true) ->
  check_jobs job_ids w = (Return tt, w).
Proof.
  induction job_ids as [|jid rest IH]; intros Hall; [reflexivity|].
  simpl. unfold bind. rewrite call_isUserJob_spec, (Hall jid) by left.
  simpl. apply IH. intros j Hj. apply Hall. right. exact Hj.
Qed.



(** X20.  [stderrReadLine] returns no line to anybody: every call raises
    [AttributeError], the attribute [__jobserver] that its first statement
    reads being none of the scheduler, and changes nothing. *)
Theorem stderrReadLine_always_fails (job_id : nat) (w : World) :
  stderrReadLine job_id w = (Raise AttributeError, w).
Proof. reflexivity. Qed.

(** X21.  What [output] and [errorOutput] return, and the files that they
    open, do not depend on who calls them: no test of ownership stands
    between the caller and the files of a job. *)
Theorem output_independent_of_caller (job_id u : nat) (w : World) :
  fst (output job_id (with_user u w)) = fst (output job_id w)
  /\ opened (snd (output job_id (with_user u w)))
     = opened (snd (output job_id w))
  /\ fst (errorOutput job_id (with_user u w)) = fst (errorOutput job_id w)
  /\ opened (snd (errorOutput job_id (with_user u w)))
     = opened (snd (errorOutput job_id w)).
Proof.
  unfold output, errorOutput, bind, on_server, unpack, open_read. simpl.
  destruct (areErrOutJoined (job_server w) job_id); simpl;
    destruct (getStdOutErrFilePath (job_server w) job_id)
      as [[stdout_path [stderr_path|]]|]; simpl;
    try destruct (files w !! stdout_path); simpl;
    try destruct (files w !! stderr_path); simpl; auto.
Qed.

Lemma stdoutReadLine_cached job_id w out err content k :
  isUserJob (job_server w) job_id (user_id w) = true ->
  getStdOutErrFilePath (job_server w) job_id = Some (out, err) ->
  files w !! out = Some content ->
  stdoutFileToRead w = Some {| file_name := out; file_position := k |} ->
  stdoutReadLine job_id w =
  (Return (Some (default "" (content !! k))),
   with_stdoutFileToRead (Some {| file_name := out; file_position := S k |}) w).
Proof.
  intros Howned Hpaths Hfile Hcache. unfold stdoutReadLine, bind.
  rewrite call_isUserJob_spec, Howned. simpl. rewrite Hpaths. simpl.
  rewrite Hcache. simpl. rewrite String.eqb_refl. simpl.
  unfold line_at. simpl. rewrite Hfile. reflexivity.
Qed.

Lemma stdoutReadLine_opens job_id w out err content :
  isUserJob (job_server w) job_id (user_id w) = true ->
  getStdOutErrFilePath (job_server w) job_id = Some (out, err) ->
  files w !! out = Some content ->
  (forall f, stdoutFileToRead w = Some f -> file_name f <> out) ->
  stdoutReadLine job_id w =
  (Return (Some (default "" (content !! 0))),
   with_stdoutFileToRead (Some {| file_name := out; file_position := 1 |})
     (with_opened out w)).
Proof.
  intros Howned Hpaths Hfile Hcache. unfold stdoutReadLine, bind.
  rewrite call_isUserJob_spec, Howned. simpl. rewrite Hpaths. simpl.
  assert (Hreader : reader (stdoutFileToRead w) out w
                    = (Return {| file_name := out; file_position := 0 |},
                       with_opened out w)).
  { unfold reader. destruct (stdoutFileToRead w) as [f|] eqn:Hf.
    - destruct (String.eqb_spec (file_name f) out) as [Heq|_].
      + destruct (Hcache f eq_refl Heq).
      + unfold open_read. rewrite Hfile. reflexivity.
    - unfold open_read. rewrite Hfile. reflexivity. }
  rewrite Hreader. simpl. unfold line_at. simpl. rewrite Hfile. reflexivity.
Qed.

Lemma stdout_times_cached job_id out err content :
  forall n k w,
    isUserJob (job_server w) job_id (user_id w) = true ->
    getStdOutErrFilePath (job_server w) job_id = Some (out, err) ->
    files w !! out = Some content ->
    stdoutFileToRead w = Some {| file_name := out; file_position := k |} ->
    call_times n (stdoutReadLine job_id) w =
    (Return (map (fun i => Some (default "" (content !! i))) (seq k n)),
     with_stdoutFileToRead
       (Some {| file_name := out; file_position := k + n |}) w).
Proof.
  induction n as [|n IH]; intros k w Howned Hpaths Hfile Hcache.
  - simpl. unfold ret. rewrite Nat.add_0_r. rewrite <- Hcache.
    destruct w; reflexivity.
  - simpl. unfold bind at 1.
    rewrite (stdoutReadLine_cached job_id w out err content k Howned Hpaths
               Hfile Hcache).
    unfold bind at 1. rewrite (IH (S k)); try assumption; [|reflexivity].
    simpl. unfold ret. rewrite Nat.add_succ_r. reflexivity.
Qed.

Lemma stdout_times_opens job_id out err content n w :
  isUserJob (job_server w) job_id (user_id w) = true ->
  getStdOutErrFilePath (job_server w) job_id = Some (out, err) ->
  files w !! out = Some content ->
  (forall f, stdoutFileToRead w = Some f -> file_name f <> out) ->
  call_times (S n) (stdoutReadLine job_id) w =
  (Return (map (fun i => Some (default "" (content !! i))) (seq 0 (S n))),
   with_stdoutFileToRead (Some {| file_name := out; file_position := S n |})
     (with_opened out w)).
Proof.
  intros Howned Hpaths Hfile Hcache. simpl call_times. unfold bind at 1.
  rewrite (stdoutReadLine_opens job_id w out err content Howned Hpaths Hfile
             Hcache).
  unfold bind at 1.
  rewrite (stdout_times_cached job_id out err content n 1);
    try assumption; reflexivity.
Qed.

(** X22.  Successive calls of [stdoutReadLine] on a job of the caller return
    the lines of the file of its standard output one after the other, and the
    empty string once the file is at its end; the file is opened once, and
    neither the job server nor the DRMAA job scheduler is touched. *)
Theorem stdoutReadLine_successive job_id out err content n w :
  isUserJob (job_server w) job_id (user_id w) = true ->
  getStdOutErrFilePath (job_server w) job_id = Some (out, err) ->
  files w !! out = Some content ->
  (forall f, stdoutFileToRead w = Some f -> file_name f <> out) ->
  let after := snd (call_times (S n) (stdoutReadLine job_id) w) in
  fst (call_times (S n) (stdoutReadLine job_id) w)
  = Return (map (fun i => Some (default "" (content !! i))) (seq 0 (S n)))
  /\ opened after = opened w ++ [out]
  /\ job_server after = job_server w
  /\ drmaa_calls after = drmaa_calls w
  /\ console after = console w.
Proof.
  intros Howned Hpaths Hfile Hcache after. subst after.
  rewrite (stdout_times_opens job_id out err content n w Howned Hpaths Hfile
             Hcache).
  repeat split; reflexivity.
Qed.

Lemma stdoutReadLine_successive_witness :
  fst (call_times 3 (stdoutReadLine 7) owner_world)
  = Return [Some "first"; Some "second"; Some ""].
Proof.
  destruct (stdoutReadLine_successive 7 "/out/7" (Some "/err/7")
              ["first"; "second"] 2 owner_world) as (Hlines & _).
  - reflexivity.
  - reflexivity.
  - reflexivity.
  - intros f Hf. discriminate.
  - exact Hlines.
Defined.

(** X23.  For a job that the caller does not own, [status],
    [exitInformation] and [stdoutReadLine] return [None], and for a transfer
    that the caller does not own so do [getTransferInformation] and
    [cancelTransfer]: each of them prints one message and changes nothing
    else, the job server and the opened files included. *)
Theorem queries_refused_without_ownership job_id path w :
  isUserJob (job_server w) job_id (user_id w) = false ->
  isUserTransfer (job_server w) path (user_id w) = false ->
  (exists text, status job_id w = (Return None, with_printed text w))
  /\ (exists text, exitInformation job_id w = (Return None, with_printed text w))
  /\ (exists text, stdoutReadLine job_id w = (Return None, with_printed text w))
  /\ (exists text,
        getTransferInformation path w = (Return None, with_printed text w))
  /\ (exists text, cancelTransfer path w = (Return tt, with_printed text w)).
Proof.
  intros Hjob Htransfer.
  unfold status, exitInformation, stdoutReadLine, getTransferInformation,
    cancelTransfer, bind.
  rewrite !call_isUserJob_spec, !call_isUserTransfer_spec, Hjob, Htransfer.
  simpl. repeat split; eexists; reflexivity.
Qed.

Lemma queries_refused_without_ownership_witness :
  (exists text, status 7 two_users_world
                = (Return None, with_printed text two_users_world))
  /\ (exists text, exitInformation 7 two_users_world
                   = (Return None, with_printed text two_users_world))
  /\ (exists text, stdoutReadLine 7 two_users_world
                   = (Return None, with_printed text two_users_world))
  /\ (exists text, getTransferInformation "/pool/none" two_users_world
                   = (Return None, with_printed text two_users_world))
  /\ (exists text, cancelTransfer "/pool/none" two_users_world
                   = (Return tt, with_printed text two_users_world)).
Proof.
  apply (queries_refused_without_ownership 7 "/pool/none" two_users_world);
    reflexivity.
Defined.

(** ** Adding a workflow to a workflow *)

Lemma extend_eq {A} (target : nat) (values : list A) (m : gmap nat (list A)) :
  extend target values m !!! target = (m !!! target) ++ values.
Proof. unfold extend. apply lookup_total_insert_eq. Qed.

Lemma extend_ne {A} (target other : nat) (values : list A)
    (m : gmap nat (list A)) :
  target <> other -> extend target values m !!! other = m !!! other.
Proof. intros Hne. unfold extend. apply lookup_total_insert_ne. exact Hne. Qed.

(** X24.  On two workflows constructed without a root group, whose root
    groups are therefore their lists of jobs, [add_workflow] extends the list
    of the jobs of [self] twice: without [as_group] every job of the added
    workflow comes twice among the jobs of [self], and with [as_group] the
    new group itself comes among the jobs of [self]. *)
Theorem add_workflow_shared_root res self workflow as_group h :
  wr_root_group self = wr_jobs self ->
  wr_root_group workflow = wr_jobs workflow ->
  wr_jobs workflow <> wr_jobs self ->
  let own := item_lists h !!! wr_jobs self in
  let added := item_lists h !!! wr_jobs workflow in
  let after := snd (add_workflow res self workflow as_group h) in
  item_lists after !!! wr_jobs self
  = match group_wanted as_group with
    | Some name =>
        own ++ added
        ++ [IGroup {| gr_oid := res; gr_name := name;
                      gr_elements := wr_jobs workflow |}]
    | None => own ++ added ++ added
    end
  /\ item_lists after !!! wr_jobs workflow = added.
Proof.
  intros Hself Hother Hne. unfold add_workflow.
  destruct (group_wanted as_group) as [name|]; simpl; rewrite Hself, Hother.
  - rewrite extend_eq, extend_eq, <- app_assoc.
    rewrite !extend_ne by congruence. auto.
  - rewrite extend_eq, extend_eq, <- app_assoc.
    rewrite !extend_ne by congruence. auto.
Qed.

Lemma add_workflow_shared_root_witness :
  item_lists (snd (add_workflow 9 first_workflow second_workflow None
                     two_workflows)) !!! 1
  = [IJob job_X; IJob job_Y; IJob job_Z; IJob job_Z].
Proof.
  destruct (add_workflow_shared_root 9 first_workflow second_workflow None
              two_workflows) as [Hjobs _].
  - reflexivity.
  - reflexivity.
  - discriminate.
  - exact Hjobs.
Defined.

(** X25.  On two workflows that hold different lists, the root group of
    [self] being a list of its own, [add_workflow] appends the jobs, the
    dependencies and the groups of the added workflow to those of [self];
    without [as_group] it appends the root group too and returns [None], with
    [as_group] it appends to the root group of [self] one new group, which it
    returns, whose elements are the root group of the added workflow and
    which comes before the added groups in [groups]; the lists of the added
    workflow are left as they are. *)
Theorem add_workflow_separate res self workflow as_group h :
  separate_lists self workflow ->
  let result := fst (add_workflow res self workflow as_group h) in
  let after := snd (add_workflow res self workflow as_group h) in
  let group := fun name => {| gr_oid := res; gr_name := name;
                              gr_elements := wr_root_group workflow |} in
  result = group <$> group_wanted as_group
  /\ item_lists after !!! wr_jobs self
     = (item_lists h !!! wr_jobs self) ++ (item_lists h !!! wr_jobs workflow)
  /\ dependency_lists after !!! wr_dependencies self
     = (dependency_lists h !!! wr_dependencies self)
       ++ (dependency_lists h !!! wr_dependencies workflow)
  /\ item_lists after !!! wr_root_group self
     = (item_lists h !!! wr_root_group self)
       ++ match group_wanted as_group with
          | Some name => [IGroup (group name)]
          | None => item_lists h !!! wr_root_group workflow
          end
  /\ group_lists after !!! wr_groups self
     = (group_lists h !!! wr_groups self)
       ++ match group_wanted as_group with
          | Some name => [group name]
          | None => []
          end
       ++ (group_lists h !!! wr_groups workflow)
  /\ item_lists after !!! wr_jobs workflow = item_lists h !!! wr_jobs workflow
  /\ item_lists after !!! wr_root_group workflow
     = item_lists h !!! wr_root_group workflow
  /\ dependency_lists after !!! wr_dependencies workflow
     = dependency_lists h !!! wr_dependencies workflow
  /\ group_lists after !!! wr_groups workflow
     = group_lists h !!! wr_groups workflow.
Proof.
  intros (H1 & H2 & H3 & H4 & H5 & H6 & H7). unfold add_workflow.
  destruct (group_wanted as_group) as [name|]; simpl;
    rewrite ?extend_eq, ?extend_ne by congruence;
    rewrite ?extend_eq, ?extend_ne by congruence;
    repeat split; reflexivity.
Qed.

Lemma add_workflow_separate_witness :
  separate_lists first_rooted second_rooted
  /\ item_lists (snd (add_workflow 9 first_rooted second_rooted (Some "sub")
                        two_rooted_workflows)) !!! 1
     = [IJob job_X; IJob job_Y; IJob job_Z]
  /\ item_lists (snd (add_workflow 9 first_rooted second_rooted (Some "sub")
                        two_rooted_workflows)) !!! 3
     = [IJob job_X; IJob job_Y;
        IGroup {| gr_oid := 9; gr_name := "sub"; gr_elements := 7 |}].
Proof.
  assert (H : separate_lists first_rooted second_rooted)
    by (repeat split; discriminate).
  split; [exact H|].
  destruct (add_workflow_separate 9 first_rooted second_rooted (Some "sub")
              two_rooted_workflows H) as (_ & Hjobs & _ & Hroot & _).
  split; [exact Hjobs|exact Hroot].
Defined.
